(** * gpt-load: the configuration manager ([internal/config/manager.go])

    A shallow embedding of the configuration manager of gpt-load: the
    primitive parsers ([parseInteger], [parseBoolean], [parseArray]), the
    assembly of the configuration from the environment ([NewManager]), the
    validator ([Validate]), the round-robin upstream selector
    ([GetOpenAIConfig]), the other accessors and the configuration summary
    ([DisplayConfig]), together with the parts of the Go standard library
    they call ([strconv.Atoi], [strings.Split], [strings.TrimSpace],
    [strings.ToLower], [strings.Join], [url.Parse], [atomic.AddUint64]).
    Concurrent callers of [GetOpenAIConfig] are modelled by the
    interleavings of the steps of their calls.

    Conventions.
    - A Go [string] is a sequence of bytes: [String.string], one [ascii]
      per byte.
    - A Go [int] is 64 bits wide (the image is built for amd64); the
      configuration fields are [Z], and every value the parsers produce is
      either the default or a value [strconv.Atoi] accepted, hence inside
      the [int] range.  No arithmetic is done on those fields.
    - The round-robin counter is a [uint64]: a [Z] with the wrap-around
      modulo [2^64] written out at every operation. *)

From Stdlib Require Import ZArith Lia List Ascii String.
From stdpp Require Import base tactics option list strings gmap.

Local Open Scope string_scope.
Local Open Scope Z_scope.

(** ** Bytes *)

Module Byte_.

Definition val (c : ascii) : Z := Z.of_N (N_of_ascii c).

Definition between (lo hi c : ascii) : bool :=
  (val lo <=? val c) && (val c <=? val hi).

Definition eqb (a b : ascii) : bool := Ascii.eqb a b.

Definition is_lower (c : ascii) : bool := between "a" "z" c.
Definition is_upper (c : ascii) : bool := between "A" "Z" c.
Definition is_letter (c : ascii) : bool := is_lower c || is_upper c.
Definition is_digit (c : ascii) : bool := between "0" "9" c.

(** [c >= utf8.RuneSelf] *)
Definition is_ascii (c : ascii) : bool := val c <? 128.

(** [ishex] of net/url *)
Definition ishex (c : ascii) : bool :=
  is_digit c || between "a" "f" c || between "A" "F" c.

(** [unhex] of net/url *)
Definition unhex (c : ascii) : Z :=
  if is_digit c then val c - val "0"
  else if between "a" "f" c then val c - val "a" + 10
  else if between "A" "F" c then val c - val "A" + 10
  else 0.

Definition mem (c : ascii) (s : string) : bool :=
  existsb (eqb c) (list_ascii_of_string s).

End Byte_.

(** ** Strings: the byte-level part of Go's [strings] package *)

Module Strings_.

Definition len (s : string) : Z := Z.of_nat (String.length s).

Definition is_empty (s : string) : bool :=
  match s with EmptyString => true | _ => false end.

Fixpoint all (p : ascii -> bool) (s : string) : bool :=
  match s with
  | EmptyString => true
  | String c r => p c && all p r
  end.

Fixpoint any (p : ascii -> bool) (s : string) : bool :=
  match s with
  | EmptyString => false
  | String c r => p c || any p r
  end.

(** [strings.HasPrefix(s, p)] *)
Definition HasPrefix (s p : string) : bool := String.prefix p s.

(** [strings.Cut(s, sep)] for a one-byte [sep]: the text before the first
    [sep], the text after it, and whether [sep] was found. *)
Fixpoint Cut (s : string) (sep : ascii) : string * string * bool :=
  match s with
  | EmptyString => (EmptyString, EmptyString, false)
  | String c r =>
      if Byte_.eqb c sep then (EmptyString, r, true)
      else
        let '(b, a, found) := Cut r sep in
        (String c b, (if found then a else EmptyString), found)
  end.

(** [strings.Contains(s, sep)] for a one-byte [sep]. *)
Definition Contains (s : string) (sep : ascii) : bool :=
  any (Byte_.eqb sep) s.

(** [strings.Count(s, sep)] for a one-byte [sep]. *)
Fixpoint Count (s : string) (sep : ascii) : Z :=
  match s with
  | EmptyString => 0
  | String c r => (if Byte_.eqb c sep then 1 else 0) + Count r sep
  end.

(** [strings.Index(s, sep)] for a one-byte [sep]; [-1] when absent. *)
Fixpoint Index (s : string) (sep : ascii) : Z :=
  match s with
  | EmptyString => -1
  | String c r =>
      if Byte_.eqb c sep then 0
      else let i := Index r sep in if i <? 0 then -1 else i + 1
  end.

(** [strings.LastIndex(s, sep)] for a one-byte [sep]; [-1] when absent. *)
Fixpoint LastIndex (s : string) (sep : ascii) : Z :=
  match s with
  | EmptyString => -1
  | String c r =>
      let i := LastIndex r sep in
      if 0 <=? i then i + 1
      else if Byte_.eqb c sep then 0 else -1
  end.

(** The slices [s[:i]] and [s[i:]] for [0 <= i <= len(s)]. *)
Definition take (i : Z) (s : string) : string :=
  String.substring 0 (Z.to_nat i) s.
Definition drop (i : Z) (s : string) : string :=
  String.substring (Z.to_nat i) (String.length s - Z.to_nat i) s.

(** [strings.Split(s, sep)] for a one-byte [sep]: one more part than
    there are separators, in order; the empty string splits into one
    empty part. *)
Fixpoint Split (s : string) (sep : ascii) : list string :=
  match s with
  | EmptyString => [EmptyString]
  | String c r =>
      if Byte_.eqb c sep then EmptyString :: Split r sep
      else
        match Split r sep with
        | p :: ps => String c p :: ps
        | [] => [String c EmptyString]
        end
  end.

(** [strings.Join(elems, sep)] *)
Fixpoint Join (elems : list string) (sep : string) : string :=
  match elems with
  | [] => EmptyString
  | [e] => e
  | e :: es => e +:+ sep +:+ Join es sep
  end.

(** The ASCII path of [strings.ToLower]: [c += 'a' - 'A'] on ['A'..'Z']. *)
Definition lower_byte (c : ascii) : ascii :=
  if Byte_.is_upper c then ascii_of_N (N_of_ascii c + 32) else c.

Fixpoint map_bytes (f : ascii -> ascii) (s : string) : string :=
  match s with
  | EmptyString => EmptyString
  | String c r => String (f c) (map_bytes f r)
  end.

(** The table [asciiSpace] of package strings. *)
Definition asciiSpace (c : ascii) : bool :=
  Byte_.mem c (String "009" (String "010" (String "011"
              (String "012" (String "013" (String " " EmptyString)))))).

End Strings_.

(** ** [strconv.Atoi] for a 64-bit [int] *)

Module Strconv.

Definition intSize : Z := 64.
Definition maxUint64 : Z := 2 ^ 64 - 1.

(** [*NumError]: the two errors of the package. *)
Inductive NumError := ErrSyntax | ErrRange.

(** The digit loop of the fast path of [Atoi]: [ch -= '0'; if ch > 9]
    (as a byte, so anything below ['0'] wraps above 9) is a syntax
    error, otherwise [n = n*10 + int(ch)]. *)
Fixpoint fast_digits (s : string) (n : Z) : option Z :=
  match s with
  | EmptyString => Some n
  | String ch r =>
      let ch' := (Byte_.val ch - Byte_.val "0") mod 256 in
      if 9 <? ch' then None else fast_digits r (n * 10 + ch')
  end.

(** The digit loop of [ParseUint(s, 10, 0)].  With base 10 no prefix is
    read and no underscore is accepted; a letter is a digit of value at
    least 10, hence refused by [d >= base].  [n] is a [uint64]. *)
Fixpoint ParseUint_loop (s : string) (n : Z) : Z * option NumError :=
  match s with
  | EmptyString => (n, None)
  | String c r =>
      if negb (Byte_.is_digit c) then (0, Some ErrSyntax)
      else
        let d := Byte_.val c - Byte_.val "0" in
        let cutoff := maxUint64 / 10 + 1 in
        if cutoff <=? n then (maxUint64, Some ErrRange)
        else
          let n10 := (n * 10) mod 2 ^ 64 in
          let n1 := (n10 + d) mod 2 ^ 64 in
          if (n1 <? n10) || (maxUint64 <? n1) then (maxUint64, Some ErrRange)
          else ParseUint_loop r n1
  end.

Definition ParseUint (s : string) : Z * option NumError :=
  match s with
  | EmptyString => (0, Some ErrSyntax)
  | _ => ParseUint_loop s 0
  end.

(** [ParseInt(s, 10, 0)]: the value and the error, as Go returns them. *)
Definition ParseInt (s : string) : Z * option NumError :=
  match s with
  | EmptyString => (0, Some ErrSyntax)
  | String c0 r =>
      let neg := Byte_.eqb c0 "-" in
      let s' := if Byte_.eqb c0 "+" || neg then r else s in
      match ParseUint s' with
      | (_, Some ErrSyntax) => (0, Some ErrSyntax)
      | (un, _) =>
          let cutoff := 2 ^ (intSize - 1) in
          if negb neg && (cutoff <=? un) then (cutoff - 1, Some ErrRange)
          else if neg && (cutoff <? un) then (- cutoff, Some ErrRange)
          else ((if neg then - un else un), None)
      end
  end.

(** [Atoi(s)]: [Some n] when the error is [nil]. *)
Definition Atoi (s : string) : option Z :=
  let sLen := Strings_.len s in
  if (0 <? sLen) && (sLen <? 19) then
    match s with
    | EmptyString => None
    | String c0 r =>
        let signed := Byte_.eqb c0 "-" || Byte_.eqb c0 "+" in
        let s' := if signed then r else s in
        if signed && (Strings_.len s' <? 1) then None
        else
          match fast_digits s' 0 with
          | None => None
          | Some n => Some (if Byte_.eqb c0 "-" then - n else n)
          end
    end
  else
    match ParseInt s with
    | (i64, None) => Some i64
    | (_, Some _) => None
    end.

End Strconv.

(** ** [url.Parse] of net/url: the error it returns

    [Validate] keeps only the error of [url.Parse], so the model computes
    the error and not the fields of the [*URL].  The functions follow
    net/url as of Go 1.21-1.24 ([Parse], [parse] with [viaRequest] false,
    [getScheme], [parseAuthority], [parseHost], [unescape], [shouldEscape],
    [validUserinfo], [validOptionalPort], [stringContainsCTLByte]). *)

Module Url.

Inductive encoding :=
  | encodePath | encodeHost | encodeZone | encodeUserPassword | encodeFragment.

Inductive Error :=
  | ErrControlCharacter            (* "net/url: invalid control character in URL" *)
  | ErrMissingProtocolScheme       (* "missing protocol scheme" *)
  | ErrFirstSegmentColon           (* "first path segment in URL cannot contain colon" *)
  | ErrMissingBracket              (* "missing ']' in host" *)
  | ErrInvalidPort (port : string) (* "invalid port %q after host" *)
  | ErrInvalidUserinfo             (* "net/url: invalid userinfo" *)
  | EscapeError (s : string)
  | InvalidHostError (s : string).

Definition stringContainsCTLByte (s : string) : bool :=
  Strings_.any (fun b => (Byte_.val b <? Byte_.val " ") || (Byte_.val b =? 127)) s.

(** [shouldEscape(c, encodeHost)] *)
Definition shouldEscape_host (c : ascii) : bool :=
  if Byte_.is_letter c || Byte_.is_digit c then false
  else if Byte_.mem c "!$&'()*+,;=:[]<>" || Byte_.eqb c "034" then false
  else if Byte_.mem c "-_.~" then false
  else true.

Definition is_host_mode (mode : encoding) : bool :=
  match mode with encodeHost | encodeZone => true | _ => false end.

(** The checking loop of [unescape(s, mode)]: [None] when every escape is
    well formed and, in the host modes, every byte is allowed. *)
Fixpoint unescape_err (s : string) (mode : encoding) : option Error :=
  match s with
  | EmptyString => None
  | String c r =>
      if Byte_.eqb c "%" then
        match r with
        | String h1 (String h2 r') =>
            if negb (Byte_.ishex h1) || negb (Byte_.ishex h2) then
              Some (EscapeError (String c (String h1 (String h2 EmptyString))))
            else
              let triple := String c (String h1 (String h2 EmptyString)) in
              let is25 := String.eqb triple "%25" in
              match mode with
              | encodeHost =>
                  if (Byte_.unhex h1 <? 8) && negb is25
                  then Some (EscapeError triple)
                  else unescape_err r' mode
              | encodeZone =>
                  let v := Z.lor (Z.shiftl (Byte_.unhex h1) 4) (Byte_.unhex h2) in
                  if negb is25 && negb (v =? Byte_.val " ")
                     && shouldEscape_host (ascii_of_N (Z.to_N v))
                  then Some (EscapeError triple)
                  else unescape_err r' mode
              | _ => unescape_err r' mode
              end
        | _ => Some (EscapeError s)
        end
      else if Byte_.eqb c "+" then unescape_err r mode
      else if is_host_mode mode && Byte_.is_ascii c && shouldEscape_host c
      then Some (InvalidHostError (String c EmptyString))
      else unescape_err r mode
  end.

Definition validUserinfo (s : string) : bool :=
  Strings_.all (fun r =>
    Byte_.is_upper r || Byte_.is_lower r || Byte_.is_digit r
    || Byte_.mem r "-._:~!$&'()*+,;=%@") s.

Definition validOptionalPort (port : string) : bool :=
  match port with
  | EmptyString => true
  | String c r => Byte_.eqb c ":" && Strings_.all Byte_.is_digit r
  end.

Definition first_error (es : list (option Error)) : option Error :=
  List.fold_right (fun e acc => match e with Some _ => e | None => acc end) None es.

(** [parseHost(host)] *)
Definition parseHost_err (host : string) : option Error :=
  if Strings_.HasPrefix host "[" then
    let i := Strings_.LastIndex host "]" in
    if i <? 0 then Some ErrMissingBracket
    else
      let colonPort := Strings_.drop (i + 1) host in
      if negb (validOptionalPort colonPort) then Some (ErrInvalidPort colonPort)
      else
        match index 0 "%25" (Strings_.take i host) with
        | Some zone =>
            let zone := Z.of_nat zone in
            first_error
              [ unescape_err (Strings_.take zone host) encodeHost;
                unescape_err (Strings_.drop zone (Strings_.take i host)) encodeZone;
                unescape_err (Strings_.drop i host) encodeHost ]
        | None => unescape_err host encodeHost
        end
  else
    let i := Strings_.LastIndex host ":" in
    if (0 <=? i) && negb (validOptionalPort (Strings_.drop i host))
    then Some (ErrInvalidPort (Strings_.drop i host))
    else unescape_err host encodeHost.

(** [parseAuthority(authority)] *)
Definition parseAuthority_err (authority : string) : option Error :=
  let i := Strings_.LastIndex authority "@" in
  let host_err :=
    if i <? 0 then parseHost_err authority
    else parseHost_err (Strings_.drop (i + 1) authority) in
  match host_err with
  | Some e => Some e
  | None =>
      if i <? 0 then None
      else
        let userinfo := Strings_.take i authority in
        if negb (validUserinfo userinfo) then Some ErrInvalidUserinfo
        else if negb (Strings_.Contains userinfo ":")
        then unescape_err userinfo encodeUserPassword
        else
          let '(username, password, _) := Strings_.Cut userinfo ":" in
          first_error [ unescape_err username encodeUserPassword;
                        unescape_err password encodeUserPassword ]
  end.

(** [getScheme(rawURL)]: the scheme and the rest, or the error.  [seen]
    is [rawURL[:i]] and [s] is [rawURL[i:]]. *)
Fixpoint getScheme_loop (rawURL seen s : string) : Error + (string * string) :=
  match s with
  | EmptyString => inr (EmptyString, rawURL)
  | String c r =>
      if Byte_.is_letter c then getScheme_loop rawURL (seen +:+ String c EmptyString) r
      else if Byte_.is_digit c || Byte_.mem c "+-." then
        if Strings_.is_empty seen then inr (EmptyString, rawURL)
        else getScheme_loop rawURL (seen +:+ String c EmptyString) r
      else if Byte_.eqb c ":" then
        if Strings_.is_empty seen then inl ErrMissingProtocolScheme
        else inr (seen, r)
      else inr (EmptyString, rawURL)
  end.

Definition getScheme (rawURL : string) : Error + (string * string) :=
  getScheme_loop rawURL EmptyString rawURL.

(** [strings.HasSuffix(rest, "?") && strings.Count(rest, "?") == 1], then
    the rest without its query. *)
Definition strip_query (rest : string) : string :=
  if (Strings_.Count rest "?" =? 1)
     && String.eqb (Strings_.drop (Strings_.len rest - 1) rest) "?"
  then Strings_.take (Strings_.len rest - 1) rest
  else let '(before, _, _) := Strings_.Cut rest "?" in before.

(** [parse(rawURL, false)] *)
Definition parse_err (rawURL : string) : option Error :=
  if stringContainsCTLByte rawURL then Some ErrControlCharacter
  else if String.eqb rawURL "*" then None
  else
    match getScheme rawURL with
    | inl e => Some e
    | inr (scheme, rest) =>
        let rest := strip_query rest in
        let rootless := negb (Strings_.HasPrefix rest "/") in
        if rootless && negb (Strings_.is_empty scheme) then None
        else
          let '(segment, _, _) := Strings_.Cut rest "/" in
          if rootless && Strings_.Contains segment ":" then Some ErrFirstSegmentColon
          else if (negb (Strings_.is_empty scheme) || negb (Strings_.HasPrefix rest "///"))
                  && Strings_.HasPrefix rest "//"
          then
            let authority := Strings_.drop 2 rest in
            let i := Strings_.Index authority "/" in
            let '(authority, rest) :=
              if 0 <=? i then (Strings_.take i authority, Strings_.drop i authority)
              else (authority, EmptyString) in
            match parseAuthority_err authority with
            | Some e => Some e
            | None => unescape_err rest encodePath
            end
          else unescape_err rest encodePath
    end.

(** [Parse(rawURL)]: [None] when the error is [nil]. *)
Definition Parse (rawURL : string) : option Error :=
  let '(u, frag, _) := Strings_.Cut rawURL "#" in
  match parse_err u with
  | Some e => Some e
  | None =>
      if Strings_.is_empty frag then None
      else unescape_err frag encodeFragment
  end.

End Url.

(** ** The packages [pkg/types] and [internal/errors] *)

(** Modelled from the spec: the section records of package [pkg/types],
    whose declarations are not among the sources; the fields are the ones
    [manager.go] reads and writes, integers for [int], [string] for
    [string], lists for slices.  [Enabled] of [CORSConfig] is spelt
    [CORSEnabled], since [AuthConfig] has a field of that name too. *)
Module types.

Record ServerConfig := {
  Port : Z;
  Host : string;
  ReadTimeout : Z;
  WriteTimeout : Z;
  IdleTimeout : Z;
  GracefulShutdownTimeout : Z }.

Record KeysConfig := {
  APIKeys : list string;
  StartIndex : Z;
  BlacklistThreshold : Z;
  MaxRetries : Z }.

Record OpenAIConfig := {
  BaseURL : string;
  BaseURLs : list string;
  RequestTimeout : Z;
  ResponseTimeout : Z;
  IdleConnTimeout : Z }.

Record AuthConfig := {
  Key : string;
  Enabled : bool }.

Record CORSConfig := {
  CORSEnabled : bool;
  AllowedOrigins : list string;
  AllowedMethods : list string;
  AllowedHeaders : list string;
  AllowCredentials : bool }.

Record PerformanceConfig := {
  MaxConcurrentRequests : Z;
  EnableGzip : bool }.

Record LogConfig := {
  Level : string;
  Format : string;
  EnableFile : bool;
  FilePath : string;
  EnableRequest : bool }.

End types.
Import types.

(** Modelled from the spec: the error value of package [internal/errors],
    whose source is not among the sources.  [NewAppErrorWithDetails] is
    taken to store its three arguments; [ErrConfigValidation] is the kind
    the spec calls [ConfigValidationError]. *)
Module errors.

Inductive ErrorCode := ErrConfigValidation.

Record AppError := {
  Code : ErrorCode;
  Message : string;
  Details : string }.

Definition NewAppErrorWithDetails (code : ErrorCode) (message details : string) : AppError :=
  {| Code := code; Message := message; Details := details |}.

End errors.

(** ** Package config *)

Record Constants := {
  MinPort : Z;
  MaxPort : Z;
  MinTimeout : Z;
  DefaultTimeout : Z;
  DefaultMaxSockets : Z;
  DefaultMaxFreeSockets : Z }.

Definition DefaultConstants : Constants := {|
  MinPort := 1;
  MaxPort := 65535;
  MinTimeout := 1;
  DefaultTimeout := 30;
  DefaultMaxSockets := 50;
  DefaultMaxFreeSockets := 10 |}.

Record Config := {
  Server : ServerConfig;
  Keys : KeysConfig;
  OpenAI : OpenAIConfig;
  Auth : AuthConfig;
  CORS : CORSConfig;
  Performance : PerformanceConfig;
  Log : LogConfig }.

Record Manager := {
  config : Config;
  roundRobinCounter : Z (* uint64 *) }.

(** [fmt.Sprintf] with the verb [%d]: the decimal text of an [int]. *)
Fixpoint itoa_pos (fuel : nat) (n : Z) (acc : string) : string :=
  match fuel with
  | O => acc
  | S fuel' =>
      let acc' := String (ascii_of_N (Z.to_N (48 + n mod 10))) acc in
      if n <? 10 then acc' else itoa_pos fuel' (n / 10) acc'
  end.

Definition itoa (n : Z) : string :=
  if n <? 0 then String "-" (itoa_pos 20 (- n) EmptyString)
  else itoa_pos 20 n EmptyString.

(** Go's [append(s, x)]. *)
Definition append {A} (s : list A) (x : A) : list A := (s ++ [x])%list.

(** *** [Validate] *)

(** The slice [validationErrors] as [Validate] builds it, one [append]
    after the other.  The lines written to the log are not part of the
    model. *)
Definition validationErrors (m : Manager) : list string :=
  let errs : list string := [] in
  (* Validate port *)
  let errs :=
    if (Port (Server (config m)) <? MinPort DefaultConstants)
       || (MaxPort DefaultConstants <? Port (Server (config m)))
    then append errs ("port must be between " +:+ itoa (MinPort DefaultConstants)
                       +:+ "-" +:+ itoa (MaxPort DefaultConstants))
    else errs in
  (* Validate start index *)
  let errs :=
    if StartIndex (Keys (config m)) <? 0
    then append errs "start index cannot be less than 0" else errs in
  (* Validate blacklist threshold *)
  let errs :=
    if BlacklistThreshold (Keys (config m)) <? 1
    then append errs "blacklist threshold cannot be less than 1" else errs in
  (* Validate timeout *)
  let errs :=
    if RequestTimeout (OpenAI (config m)) <? MinTimeout DefaultConstants
    then append errs ("request timeout cannot be less than "
                       +:+ itoa (MinTimeout DefaultConstants) +:+ "s")
    else errs in
  (* Validate upstream URL format *)
  let errs :=
    if Z.of_nat (length (BaseURLs (OpenAI (config m)))) =? 0
    then append errs "at least one upstream API URL is required" else errs in
  let errs :=
    fold_left
      (fun errs baseURL =>
         match Url.Parse baseURL with
         | Some _ => append errs ("invalid upstream API URL format: " +:+ baseURL)
         | None => errs
         end)
      (BaseURLs (OpenAI (config m))) errs in
  (* Validate performance configuration *)
  let errs :=
    if MaxConcurrentRequests (Performance (config m)) <? 1
    then append errs "max concurrent requests cannot be less than 1" else errs in
  errs.

(** [Validate]: [None] is the [nil] error. *)
Definition Validate (m : Manager) : option errors.AppError :=
  let errs := validationErrors m in
  if 0 <? Z.of_nat (length errs) then
    Some (errors.NewAppErrorWithDetails errors.ErrConfigValidation
            "Configuration validation failed" (Strings_.Join errs "; "))
  else None.

(** *** [GetOpenAIConfig] *)

Definition uint64 (z : Z) : Z := z mod 2 ^ 64.

(** [atomic.AddUint64(addr, delta)]: the new content of [addr], which is
    also the value returned. *)
Definition atomic_AddUint64 (old delta : Z) : Z := uint64 (old + delta).

Definition set_BaseURL (c : OpenAIConfig) (u : string) : OpenAIConfig :=
  {| BaseURL := u;
     BaseURLs := BaseURLs c;
     RequestTimeout := RequestTimeout c;
     ResponseTimeout := ResponseTimeout c;
     IdleConnTimeout := IdleConnTimeout c |}.

Definition set_roundRobinCounter (m : Manager) (v : Z) : Manager :=
  {| config := config m; roundRobinCounter := v |}.

(** A method of the manager: it reads and writes the manager and either
    returns or panics ([None]). *)
Definition M (A : Type) : Type := Manager -> option (A * Manager).

Definition ret {A} (a : A) : M A := fun m => Some (a, m).
Definition bind {A B} (c : M A) (k : A -> M B) : M B :=
  fun m => match c m with Some (a, m') => k a m' | None => None end.
Definition panic {A} : M A := fun _ => None.

Notation "'let!' x ':=' c 'in' k" := (bind c (fun x => k))
  (at level 10, x name, c at level 100, k at level 200).

(** [s[i]] on a slice: a run-time panic when [i] is out of range. *)
Definition slice_index (s : list string) (i : Z) : M string :=
  match s !! Z.to_nat i with
  | Some x => if 0 <=? i then ret x else panic
  | None => panic
  end.

Definition GetOpenAIConfig : M OpenAIConfig :=
  fun m =>
    let config := OpenAI (config m) in
    let n := Z.of_nat (length (BaseURLs config)) in
    if 1 <? n then
      (* Use atomic counter for thread-safe round-robin *)
      let new := atomic_AddUint64 (roundRobinCounter m) 1 in
      let index := uint64 (new - 1) in
      (* uint64(len(config.BaseURLs)) is n itself: a length is a
         non-negative int *)
      (let! u := slice_index (BaseURLs config) (index mod n) in
       ret (set_BaseURL config u)) (set_roundRobinCounter m new)
    else if n =? 1 then
      (let! u := slice_index (BaseURLs config) 0 in
       ret (set_BaseURL config u)) m
    else ret config m.

(** [k] calls in a row by one caller: the values returned, in order. *)
Fixpoint calls (k : nat) : M (list OpenAIConfig) :=
  match k with
  | O => ret []
  | S k' =>
      let! c := GetOpenAIConfig in
      let! cs := calls k' in
      ret (c :: cs)
  end.

(** The manager after [k] calls, and the value the [k]-th call returns
    ([k >= 1]). *)
Fixpoint after_calls (k : nat) (m : Manager) : option Manager :=
  match k with
  | O => Some m
  | S k' =>
      match GetOpenAIConfig m with
      | Some (_, m') => after_calls k' m'
      | None => None
      end
  end.

Definition kth_call (k : nat) (m : Manager) : option OpenAIConfig :=
  match after_calls (k - 1) m with
  | Some m' => fst <$> GetOpenAIConfig m'
  | None => None
  end.

(** ** The parsers and [NewManager]

    [strings.ToLower] and [strings.TrimSpace] leave their ASCII fast path
    as soon as they meet a byte outside ASCII and then go through the
    Unicode tables of package [unicode], which are not reproduced here:
    what the two functions do from there on is an interface the
    development is parametric in. *)

Class Unicode := {
  (** [strings.Map(unicode.ToLower, s)] *)
  Map_unicode_ToLower : string -> string;
  (** [strings.TrimFunc(s, unicode.IsSpace)] *)
  TrimFunc_unicode_IsSpace : string -> string;
  (** [strings.TrimRightFunc(s, unicode.IsSpace)] *)
  TrimRightFunc_unicode_IsSpace : string -> string }.

Section config.

Context `{Unicode}.

(** [strings.ToLower(s)] *)
Definition strings_ToLower (s : string) : string :=
  let isASCII := Strings_.all Byte_.is_ascii s in
  let hasUpper := Strings_.any Byte_.is_upper s in
  if isASCII then
    if negb hasUpper then s else Strings_.map_bytes Strings_.lower_byte s
  else Map_unicode_ToLower s.

(** The second loop of [strings.TrimSpace], which walks back from the
    end; [rs] is [s[start:stop]] reversed. *)
Fixpoint TrimSpace_stop (rs : list ascii) : string :=
  match rs with
  | [] => EmptyString
  | c :: rs' =>
      if negb (Byte_.is_ascii c)
      then TrimRightFunc_unicode_IsSpace (string_of_list_ascii (rev rs))
      else if Strings_.asciiSpace c then TrimSpace_stop rs'
      else string_of_list_ascii (rev rs)
  end.

(** [strings.TrimSpace(s)]; the recursion is the first loop, on [start]. *)
Fixpoint strings_TrimSpace (s : string) : string :=
  match s with
  | EmptyString => EmptyString
  | String c r =>
      if negb (Byte_.is_ascii c) then TrimFunc_unicode_IsSpace s
      else if Strings_.asciiSpace c then strings_TrimSpace r
      else TrimSpace_stop (rev (list_ascii_of_string s))
  end.

(** parseInteger parses integer environment variable *)
Definition parseInteger (value : string) (defaultValue : Z) : Z :=
  if Strings_.is_empty value then defaultValue
  else
    match Strconv.Atoi value with
    | Some parsed => parsed
    | None => defaultValue
    end.

(** parseBoolean parses boolean environment variable *)
Definition parseBoolean (value : string) (defaultValue : bool) : bool :=
  if Strings_.is_empty value then defaultValue
  else
    let lowerValue := strings_ToLower value in
    if String.eqb lowerValue "true" || String.eqb lowerValue "1"
       || String.eqb lowerValue "yes" || String.eqb lowerValue "on"
    then true
    else if String.eqb lowerValue "false" || String.eqb lowerValue "0"
            || String.eqb lowerValue "no" || String.eqb lowerValue "off"
    then false
    else defaultValue.

(** parseArray parses array environment variable (comma-separated) *)
Definition parseArray (value : string) (defaultValue : list string) : list string :=
  if Strings_.is_empty value then defaultValue
  else
    let parts := Strings_.Split value "," in
    let result :=
      fold_left
        (fun result part =>
           let trimmed := strings_TrimSpace part in
           if negb (Strings_.is_empty trimmed) then append result trimmed
           else result)
        parts [] in
    if Z.of_nat (length result) =? 0 then defaultValue else result.

(** The process environment, after [godotenv.Load] has run. *)
Definition Env : Type := gmap string string.

(** [os.Getenv(key)]: the empty string when the variable is not set. *)
Definition os_Getenv (env : Env) (key : string) : string :=
  match env !! key with
  | Some v => v
  | None => EmptyString
  end.

(** getEnvOrDefault gets environment variable or default value *)
Definition getEnvOrDefault (env : Env) (key defaultValue : string) : string :=
  let value := os_Getenv env key in
  if negb (Strings_.is_empty value) then value else defaultValue.

(** The [config := &Config{...}] of [NewManager]. *)
Definition loadConfig (env : Env) : Config := {|
  Server := {|
    Port := parseInteger (os_Getenv env "PORT") 7860;
    Host := getEnvOrDefault env "HOST" "0.0.0.0";
    ReadTimeout := parseInteger (os_Getenv env "SERVER_READ_TIMEOUT") 120;
    WriteTimeout := parseInteger (os_Getenv env "SERVER_WRITE_TIMEOUT") 1800;
    IdleTimeout := parseInteger (os_Getenv env "SERVER_IDLE_TIMEOUT") 120;
    GracefulShutdownTimeout :=
      parseInteger (os_Getenv env "SERVER_GRACEFUL_SHUTDOWN_TIMEOUT") 60 |};
  Keys := {|
    APIKeys := parseArray (os_Getenv env "API_KEYS") [];
    StartIndex := parseInteger (os_Getenv env "START_INDEX") 0;
    BlacklistThreshold := parseInteger (os_Getenv env "BLACKLIST_THRESHOLD") 1;
    MaxRetries := parseInteger (os_Getenv env "MAX_RETRIES") 3 |};
  OpenAI := {|
    BaseURL := EmptyString;
    BaseURLs := parseArray (os_Getenv env "OPENAI_BASE_URL") ["https://api.openai.com"];
    RequestTimeout :=
      parseInteger (os_Getenv env "REQUEST_TIMEOUT") (DefaultTimeout DefaultConstants);
    ResponseTimeout := parseInteger (os_Getenv env "RESPONSE_TIMEOUT") 30;
    IdleConnTimeout := parseInteger (os_Getenv env "IDLE_CONN_TIMEOUT") 120 |};
  Auth := {|
    Key := os_Getenv env "AUTH_KEY";
    Enabled := negb (Strings_.is_empty (os_Getenv env "AUTH_KEY")) |};
  CORS := {|
    CORSEnabled := parseBoolean (os_Getenv env "ENABLE_CORS") true;
    AllowedOrigins := parseArray (os_Getenv env "ALLOWED_ORIGINS") ["*"];
    AllowedMethods :=
      parseArray (os_Getenv env "ALLOWED_METHODS") ["GET"; "POST"; "PUT"; "DELETE"; "OPTIONS"];
    AllowedHeaders := parseArray (os_Getenv env "ALLOWED_HEADERS") ["*"];
    AllowCredentials := parseBoolean (os_Getenv env "ALLOW_CREDENTIALS") false |};
  Performance := {|
    MaxConcurrentRequests := parseInteger (os_Getenv env "MAX_CONCURRENT_REQUESTS") 100;
    EnableGzip := parseBoolean (os_Getenv env "ENABLE_GZIP") true |};
  Log := {|
    Level := getEnvOrDefault env "LOG_LEVEL" "info";
    Format := getEnvOrDefault env "LOG_FORMAT" "text";
    EnableFile := parseBoolean (os_Getenv env "LOG_ENABLE_FILE") false;
    FilePath := getEnvOrDefault env "LOG_FILE_PATH" "logs/app.log";
    EnableRequest := parseBoolean (os_Getenv env "LOG_ENABLE_REQUEST") true |} |}.

(** NewManager creates a new configuration manager: the manager, or the
    error of [Validate].  [env] is the environment as the load of the
    [.env] file leaves it, which is the one [os.Getenv] reads here; the load
    itself is [godotenv_Load], further down. *)
Definition NewManager (env : Env) : errors.AppError + Manager :=
  let manager := {| config := loadConfig env; roundRobinCounter := 0 |} in
  match Validate manager with
  | Some err => inl err
  | None => inr manager
  end.

End config.

(** ** The validator, check by check

    The seven checks of [Validate], each as the list of messages it
    contributes on its own; they are what the theorems below compare the
    code with. *)

Definition msg_port : string := "port must be between 1-65535".
Definition msg_startIndex : string := "start index cannot be less than 0".
Definition msg_blacklist : string := "blacklist threshold cannot be less than 1".
Definition msg_timeout : string := "request timeout cannot be less than 1s".
Definition msg_noUpstream : string := "at least one upstream API URL is required".
Definition msg_url (baseURL : string) : string :=
  "invalid upstream API URL format: " +:+ baseURL.
Definition msg_performance : string := "max concurrent requests cannot be less than 1".

Definition when (b : bool) (msg : string) : list string := if b then [msg] else [].

Definition port_errors (m : Manager) : list string :=
  when ((Port (Server (config m)) <? 1) || (65535 <? Port (Server (config m)))) msg_port.
Definition startIndex_errors (m : Manager) : list string :=
  when (StartIndex (Keys (config m)) <? 0) msg_startIndex.
Definition blacklist_errors (m : Manager) : list string :=
  when (BlacklistThreshold (Keys (config m)) <? 1) msg_blacklist.
Definition timeout_errors (m : Manager) : list string :=
  when (RequestTimeout (OpenAI (config m)) <? 1) msg_timeout.
Definition noUpstream_errors (m : Manager) : list string :=
  when (Z.of_nat (length (BaseURLs (OpenAI (config m)))) =? 0) msg_noUpstream.
Fixpoint url_errors (baseURLs : list string) : list string :=
  match baseURLs with
  | [] => []
  | baseURL :: rest =>
      match Url.Parse baseURL with
      | Some _ => msg_url baseURL :: url_errors rest
      | None => url_errors rest
      end
  end.
Definition performance_errors (m : Manager) : list string :=
  when (MaxConcurrentRequests (Performance (config m)) <? 1) msg_performance.

(** The error [Validate] returns for a non-empty list of messages. *)
Definition ConfigValidationError (errs : list string) : errors.AppError :=
  errors.NewAppErrorWithDetails errors.ErrConfigValidation
    "Configuration validation failed" (Strings_.Join errs "; ").

(** Record updates used to state the theorems. *)
Definition set_Server (m : Manager) (s : ServerConfig) : Manager :=
  {| config := {| Server := s; Keys := Keys (config m); OpenAI := OpenAI (config m);
                  Auth := Auth (config m); CORS := CORS (config m);
                  Performance := Performance (config m); Log := Log (config m) |};
     roundRobinCounter := roundRobinCounter m |}.

Definition set_Port (m : Manager) (p : Z) : Manager :=
  set_Server m
    {| Port := p; Host := Host (Server (config m));
       ReadTimeout := ReadTimeout (Server (config m));
       WriteTimeout := WriteTimeout (Server (config m));
       IdleTimeout := IdleTimeout (Server (config m));
       GracefulShutdownTimeout := GracefulShutdownTimeout (Server (config m)) |}.

Definition set_timeouts (m : Manager) (read write idle : Z) : Manager :=
  set_Server m
    {| Port := Port (Server (config m)); Host := Host (Server (config m));
       ReadTimeout := read; WriteTimeout := write; IdleTimeout := idle;
       GracefulShutdownTimeout := GracefulShutdownTimeout (Server (config m)) |}.

(** A manager over the default configuration (every variable unset) with
    the given port, start index, server timeouts and upstream list. *)
Definition manager_of (port startIndex read write idle : Z) (baseURLs : list string) : Manager :=
  {| config := {|
       Server := {| Port := port; Host := "0.0.0.0"; ReadTimeout := read;
                    WriteTimeout := write; IdleTimeout := idle;
                    GracefulShutdownTimeout := 60 |};
       Keys := {| APIKeys := []; StartIndex := startIndex; BlacklistThreshold := 1;
                  MaxRetries := 3 |};
       OpenAI := {| BaseURL := EmptyString; BaseURLs := baseURLs; RequestTimeout := 30;
                    ResponseTimeout := 30; IdleConnTimeout := 120 |};
       Auth := {| Key := EmptyString; Enabled := false |};
       CORS := {| CORSEnabled := true; AllowedOrigins := ["*"];
                  AllowedMethods := ["GET"; "POST"; "PUT"; "DELETE"; "OPTIONS"];
                  AllowedHeaders := ["*"]; AllowCredentials := false |};
       Performance := {| MaxConcurrentRequests := 100; EnableGzip := true |};
       Log := {| Level := "info"; Format := "text"; EnableFile := false;
                 FilePath := "logs/app.log"; EnableRequest := true |} |};
     roundRobinCounter := 0 |}.

(** ** Definitions used to state the theorems *)

(** What [Validate] requires of a configuration. *)
Definition validated (m : Manager) : Prop :=
  1 <= Port (Server (config m)) <= 65535
  /\ 0 <= StartIndex (Keys (config m))
  /\ 1 <= BlacklistThreshold (Keys (config m))
  /\ 1 <= RequestTimeout (OpenAI (config m))
  /\ BaseURLs (OpenAI (config m)) <> []
  /\ Forall (fun u => Url.Parse u = None) (BaseURLs (OpenAI (config m)))
  /\ 1 <= MaxConcurrentRequests (Performance (config m)).

(** Following the spec's words, for comparison with the code: a URL whose
    "scheme+host" is well formed has a non-empty scheme, then [://], then a
    non-empty authority (the text up to the next [/], [?] or [#]). *)
Definition spec_scheme_host_wellformed (u : string) : bool :=
  match Url.getScheme u with
  | inl _ => false
  | inr (scheme, rest) =>
      let after := Strings_.drop 2 rest in
      let '(a1, _, _) := Strings_.Cut after "/" in
      let '(a2, _, _) := Strings_.Cut a1 "?" in
      let '(authority, _, _) := Strings_.Cut a2 "#" in
      negb (Strings_.is_empty scheme) && Strings_.HasPrefix rest "//"
      && negb (Strings_.is_empty authority)
  end.

(** The default configuration but for its server timeouts: -5 seconds to
    read, -1 to write, -1 idle. *)
Definition negative_timeouts : Manager :=
  manager_of 7860 0 (-5) (-1) (-1) ["https://api.openai.com"].

(** A validated manager over three upstream URLs, with a fresh counter. *)
Definition three_upstreams : Manager :=
  manager_of 7860 0 120 1800 120
    ["https://a.example"; "https://b.example"; "https://c.example"].

(** The number a string of decimal digits denotes, read after [acc]. *)
Fixpoint digits_val (s : string) (acc : Z) : Z :=
  match s with
  | EmptyString => acc
  | String c r => digits_val r (acc * 10 + (Byte_.val c - 48))
  end.

(** The two sets of words [parseBoolean] recognises. *)
Definition truthy : list string := ["true"; "1"; "yes"; "on"].
Definition falsy : list string := ["false"; "0"; "no"; "off"].

(** ** Concurrent callers

    Several callers run [GetOpenAIConfig] on the same manager.  A call is
    cut at its statements: the copy of the configuration, the branch with
    the atomic add, the indexing, the return.  Only the atomic add touches
    memory that is written (the counter); [atomic.AddUint64] is one step,
    and an execution is a schedule, the list of the callers in the order in
    which they take their next step. *)

Inductive pc : Type :=
  | AtEntry
      (* before [config := m.config.OpenAI] *)
  | AtBranch (config : OpenAIConfig)
      (* before [if len(config.BaseURLs) > 1] *)
  | AtIndex (config : OpenAIConfig) (index : Z)
      (* after [index := atomic.AddUint64(&m.roundRobinCounter, 1) - 1] *)
  | AtReturn (config : OpenAIConfig)
      (* before [return config] *)
  | Panicked.

Record Caller := {
  todo : nat;                     (* calls still to make, the one in flight included *)
  at_pc : pc;
  observed : list Z;              (* the counter values its atomic adds found *)
  returned : list OpenAIConfig }. (* what its calls returned, in order *)

(** The next step of a caller; [None] when it has nothing left to do. *)
Definition step (c : Caller) (m : Manager) : option (Caller * Manager) :=
  match at_pc c with
  | AtEntry =>
      match todo c with
      | O => None
      | S _ =>
          Some ({| todo := todo c; at_pc := AtBranch (OpenAI (config m));
                   observed := observed c; returned := returned c |}, m)
      end
  | AtBranch config =>
      let n := Z.of_nat (length (BaseURLs config)) in
      if 1 <? n then
        let new := atomic_AddUint64 (roundRobinCounter m) 1 in
        let index := uint64 (new - 1) in
        Some ({| todo := todo c; at_pc := AtIndex config index;
                 observed := append (observed c) index; returned := returned c |},
              set_roundRobinCounter m new)
      else if n =? 1 then
        match BaseURLs config !! 0%nat with
        | Some u =>
            Some ({| todo := todo c; at_pc := AtReturn (set_BaseURL config u);
                     observed := observed c; returned := returned c |}, m)
        | None =>
            Some ({| todo := todo c; at_pc := Panicked;
                     observed := observed c; returned := returned c |}, m)
        end
      else
        Some ({| todo := todo c; at_pc := AtReturn config;
                 observed := observed c; returned := returned c |}, m)
  | AtIndex config index =>
      let n := Z.of_nat (length (BaseURLs config)) in
      match BaseURLs config !! Z.to_nat (index mod n) with
      | Some u =>
          Some ({| todo := todo c; at_pc := AtReturn (set_BaseURL config u);
                   observed := observed c; returned := returned c |}, m)
      | None =>
          Some ({| todo := todo c; at_pc := Panicked;
                   observed := observed c; returned := returned c |}, m)
      end
  | AtReturn config =>
      Some ({| todo := pred (todo c); at_pc := AtEntry;
               observed := observed c; returned := append (returned c) config |}, m)
  | Panicked => None
  end.

Record System := {
  shared : Manager;
  callers : list Caller }.

(** Caller [i] takes its next step, if it has one. *)
Definition sched_step (st : System) (i : nat) : System :=
  match callers st !! i with
  | Some c =>
      match step c (shared st) with
      | Some (c', m') => {| shared := m'; callers := <[i := c']> (callers st) |}
      | None => st
      end
  | None => st
  end.

Definition run (schedule : list nat) (st : System) : System :=
  fold_left sched_step schedule st.

(** One caller per quota, each about to make that many calls. *)
Definition spawn (m : Manager) (quotas : list nat) : System :=
  {| shared := m;
     callers := map (fun q => {| todo := q; at_pc := AtEntry;
                                 observed := []; returned := [] |}) quotas |}.

Definition finished (st : System) : Prop :=
  Forall (fun c => todo c = 0%nat /\ at_pc c = AtEntry) (callers st).

Definition all_observed (cs : list Caller) : list Z := concat (map observed cs).
Definition all_returned (cs : list Caller) : list OpenAIConfig := concat (map returned cs).

(** The entry a counter value selects. *)
Definition selects (config : OpenAIConfig) (index : Z) (r : OpenAIConfig) : Prop :=
  exists u,
    BaseURLs config !! Z.to_nat (index mod Z.of_nat (length (BaseURLs config))) = Some u
    /\ r = set_BaseURL config u.

(** How often the entry at index [j] was selected. *)
Definition times_selected (config : OpenAIConfig) (j : Z) (cs : list Caller) : nat :=
  count_occ Z.eq_dec
    (map (fun index => index mod Z.of_nat (length (BaseURLs config))) (all_observed cs)) j.

Definition total (quotas : list nat) : nat := fold_right Nat.add 0%nat quotas.

(** What holds of a caller with quota [q] at each program point, when
    the shared configuration is [config0]: its returned values are the
    entries its observed counter values select, and its quota is what it has
    done plus what it has left. *)
Definition caller_inv (config0 : OpenAIConfig) (q : nat) (c : Caller) : Prop :=
  match at_pc c with
  | AtEntry =>
      Forall2 (selects config0) (observed c) (returned c)
      /\ (length (observed c) + todo c = q)%nat
  | AtBranch config =>
      config = config0
      /\ Forall2 (selects config0) (observed c) (returned c)
      /\ (length (observed c) + todo c = q)%nat
      /\ (1 <= todo c)%nat
  | AtIndex config index =>
      config = config0
      /\ exists seen,
           observed c = (seen ++ [index])%list
           /\ Forall2 (selects config0) seen (returned c)
           /\ (length seen + todo c = q)%nat
           /\ (1 <= todo c)%nat
  | AtReturn config =>
      exists seen index,
        observed c = (seen ++ [index])%list
        /\ selects config0 index config
        /\ Forall2 (selects config0) seen (returned c)
        /\ (length seen + todo c = q)%nat
        /\ (1 <= todo c)%nat
  | Panicked => False
  end.

(** What holds of the system started on manager [m0]: the configuration
    is the one of [m0], every caller is as above, and the counter values
    observed so far are, in some order, the first ones after the initial
    counter, each modulo [2^64]; the counter is the next one. *)
Definition sys_inv (m0 : Manager) (quotas : list nat) (st : System) : Prop :=
  config (shared st) = config m0
  /\ Forall2 (caller_inv (OpenAI (config m0))) quotas (callers st)
  /\ all_observed (callers st)
     ≡ₚ map (fun i => uint64 (roundRobinCounter m0 + Z.of_nat i))
          (seq 0 (length (all_observed (callers st))))
  /\ uint64 (roundRobinCounter (shared st))
     = uint64 (roundRobinCounter m0 + Z.of_nat (length (all_observed (callers st)))).

(** The steps a caller still has to take. *)
Definition work_of (c : Caller) : nat :=
  match at_pc c with
  | AtEntry => 4 * todo c
  | AtBranch _ => 4 * todo c - 1
  | AtIndex _ _ => 4 * todo c - 2
  | AtReturn _ => 4 * todo c - 3
  | Panicked => 0
  end.

Fixpoint work (cs : list Caller) : nat :=
  match cs with
  | [] => 0%nat
  | c :: cs' => (work_of c + work cs')%nat
  end.

(** ** The accessors and [DisplayConfig] *)

(** GetServerConfig returns server configuration *)
Definition GetServerConfig : M ServerConfig := fun m => ret (Server (config m)) m.

(** GetKeysConfig returns keys configuration *)
Definition GetKeysConfig : M KeysConfig := fun m => ret (Keys (config m)) m.

(** GetAuthConfig returns authentication configuration *)
Definition GetAuthConfig : M AuthConfig := fun m => ret (Auth (config m)) m.

(** GetCORSConfig returns CORS configuration *)
Definition GetCORSConfig : M CORSConfig := fun m => ret (CORS (config m)) m.

(** GetPerformanceConfig returns performance configuration *)
Definition GetPerformanceConfig : M PerformanceConfig :=
  fun m => ret (Performance (config m)) m.

(** GetLogConfig returns logging configuration *)
Definition GetLogConfig : M LogConfig := fun m => ret (Log (config m)) m.

(** DisplayConfig displays current configuration information: the lines
    it hands to the logger at level Info, in order, each as [fmt.Sprintf]
    formats it. *)
Definition DisplayConfig (m : Manager) : list string :=
  let log : list string := [] in
  let log := append log "Current Configuration:" in
  let log := append log ("   Server: " +:+ Host (Server (config m)) +:+ ":"
                         +:+ itoa (Port (Server (config m)))) in
  let log := append log ("   API Keys loaded: "
                         +:+ itoa (Z.of_nat (length (APIKeys (Keys (config m)))))) in
  let log := append log ("   Start index: " +:+ itoa (StartIndex (Keys (config m)))) in
  let log := append log ("   Blacklist threshold: "
                         +:+ itoa (BlacklistThreshold (Keys (config m))) +:+ " errors") in
  let log := append log ("   Max retries: " +:+ itoa (MaxRetries (Keys (config m)))) in
  let log := append log ("   Upstream URLs: "
                         +:+ Strings_.Join (BaseURLs (OpenAI (config m))) ", ") in
  let log := append log ("   Request timeout: "
                         +:+ itoa (RequestTimeout (OpenAI (config m))) +:+ "s") in
  let log := append log ("   Response timeout: "
                         +:+ itoa (ResponseTimeout (OpenAI (config m))) +:+ "s") in
  let log := append log ("   Idle connection timeout: "
                         +:+ itoa (IdleConnTimeout (OpenAI (config m))) +:+ "s") in
  let authStatus := "disabled" in
  let authStatus := if Enabled (Auth (config m)) then "enabled" else authStatus in
  let log := append log ("   Authentication: " +:+ authStatus) in
  let corsStatus := "disabled" in
  let corsStatus := if CORSEnabled (CORS (config m)) then "enabled" else corsStatus in
  let log := append log ("   CORS: " +:+ corsStatus) in
  let log := append log ("   Max concurrent requests: "
                         +:+ itoa (MaxConcurrentRequests (Performance (config m)))) in
  let gzipStatus := "disabled" in
  let gzipStatus := if EnableGzip (Performance (config m)) then "enabled" else gzipStatus in
  let log := append log ("   Gzip compression: " +:+ gzipStatus) in
  let requestLogStatus := "enabled" in
  let requestLogStatus :=
    if negb (EnableRequest (Log (config m))) then "disabled" else requestLogStatus in
  let log := append log ("   Request logging: " +:+ requestLogStatus) in
  log.

(** The methods of the manager, as a caller holding the manager can
    invoke them one after the other, and what each hands back. *)
Inductive Method : Type :=
  | CallGetServerConfig
  | CallGetKeysConfig
  | CallGetOpenAIConfig
  | CallGetAuthConfig
  | CallGetCORSConfig
  | CallGetPerformanceConfig
  | CallGetLogConfig
  | CallValidate
  | CallDisplayConfig.

Inductive Result : Type :=
  | OfServer (c : ServerConfig)
  | OfKeys (c : KeysConfig)
  | OfOpenAI (c : OpenAIConfig)
  | OfAuth (c : AuthConfig)
  | OfCORS (c : CORSConfig)
  | OfPerformance (c : PerformanceConfig)
  | OfLog (c : LogConfig)
  | OfValidate (err : option errors.AppError)
  | OfDisplay (log : list string).

Definition invoke (f : Method) : M Result :=
  match f with
  | CallGetServerConfig => let! c := GetServerConfig in ret (OfServer c)
  | CallGetKeysConfig => let! c := GetKeysConfig in ret (OfKeys c)
  | CallGetOpenAIConfig => let! c := GetOpenAIConfig in ret (OfOpenAI c)
  | CallGetAuthConfig => let! c := GetAuthConfig in ret (OfAuth c)
  | CallGetCORSConfig => let! c := GetCORSConfig in ret (OfCORS c)
  | CallGetPerformanceConfig => let! c := GetPerformanceConfig in ret (OfPerformance c)
  | CallGetLogConfig => let! c := GetLogConfig in ret (OfLog c)
  | CallValidate => fun m => ret (OfValidate (Validate m)) m
  | CallDisplayConfig => fun m => ret (OfDisplay (DisplayConfig m)) m
  end.

Fixpoint invoke_all (fs : list Method) : M (list Result) :=
  match fs with
  | [] => ret []
  | f :: fs' =>
      let! r := invoke f in
      let! rs := invoke_all fs' in
      ret (r :: rs)
  end.

Definition is_GetOpenAIConfig (f : Method) : bool :=
  match f with CallGetOpenAIConfig => true | _ => false end.

(** The upstream configurations among a list of results, in order. *)
Fixpoint upstream_results (rs : list Result) : list OpenAIConfig :=
  match rs with
  | [] => []
  | OfOpenAI c :: rs' => c :: upstream_results rs'
  | _ :: rs' => upstream_results rs'
  end.

(** ** Definitions used to state the further theorems *)

(** [manager := &Manager{config: config}]: the counter starts at zero. *)
Definition new_manager (config : Config) : Manager :=
  {| config := config; roundRobinCounter := 0 |}.

(** What a call returns when the counter value it read is [index]. *)
Definition select (config : OpenAIConfig) (index : Z) : OpenAIConfig :=
  match BaseURLs config !! Z.to_nat (index mod Z.of_nat (length (BaseURLs config))) with
  | Some u => set_BaseURL config u
  | None => config
  end.

(** [s] is a decimal numeral of [n]: an optional sign, then one digit at
    least. *)
Definition numeral (s : string) (n : Z) : Prop :=
  exists ds,
    ds <> EmptyString
    /\ Strings_.all Byte_.is_digit ds = true
    /\ ((s = ds /\ n = digits_val ds 0)
        \/ (s = String "+" ds /\ n = digits_val ds 0)
        \/ (s = String "-" ds /\ n = - digits_val ds 0)).

(** A byte that ends the trimming of [strings.TrimSpace] on its fast
    path: ASCII and not white space. *)
Definition solid (c : ascii) : bool :=
  Byte_.is_ascii c && negb (Strings_.asciiSpace c).

(** An entry that [parseArray] reads back as it is: no comma, and a first
    and a last byte that are ASCII and not white space. *)
Definition plain (u : string) : bool :=
  negb (Strings_.Contains u ",")
  && match list_ascii_of_string u with
     | [] => false
     | c :: _ => solid c
     end
  && match rev (list_ascii_of_string u) with
     | [] => false
     | c :: _ => solid c
     end.

(** The variables [NewManager] reads. *)
Definition config_variables : list string :=
  [ "PORT"; "HOST"; "SERVER_READ_TIMEOUT"; "SERVER_WRITE_TIMEOUT"; "SERVER_IDLE_TIMEOUT";
    "SERVER_GRACEFUL_SHUTDOWN_TIMEOUT"; "API_KEYS"; "START_INDEX"; "BLACKLIST_THRESHOLD";
    "MAX_RETRIES"; "OPENAI_BASE_URL"; "REQUEST_TIMEOUT"; "RESPONSE_TIMEOUT";
    "IDLE_CONN_TIMEOUT"; "AUTH_KEY"; "ENABLE_CORS"; "ALLOWED_ORIGINS"; "ALLOWED_METHODS";
    "ALLOWED_HEADERS"; "ALLOW_CREDENTIALS"; "MAX_CONCURRENT_REQUESTS"; "ENABLE_GZIP";
    "LOG_LEVEL"; "LOG_FORMAT"; "LOG_ENABLE_FILE"; "LOG_FILE_PATH"; "LOG_ENABLE_REQUEST" ].

(** The fields [Validate] reads. *)
Definition validated_fields (m : Manager) : Z * Z * Z * Z * list string * Z :=
  (Port (Server (config m)), StartIndex (Keys (config m)),
   BlacklistThreshold (Keys (config m)), RequestTimeout (OpenAI (config m)),
   BaseURLs (OpenAI (config m)), MaxConcurrentRequests (Performance (config m))).

(** The fields [DisplayConfig] prints; of the API keys, their number. *)
Definition displayed_fields (m : Manager)
  : string * Z * nat * Z * Z * Z * list string * Z * Z * Z * bool * bool * Z * bool * bool :=
  (Host (Server (config m)), Port (Server (config m)),
   length (APIKeys (Keys (config m))), StartIndex (Keys (config m)),
   BlacklistThreshold (Keys (config m)), MaxRetries (Keys (config m)),
   BaseURLs (OpenAI (config m)), RequestTimeout (OpenAI (config m)),
   ResponseTimeout (OpenAI (config m)), IdleConnTimeout (OpenAI (config m)),
   Enabled (Auth (config m)), CORSEnabled (CORS (config m)),
   MaxConcurrentRequests (Performance (config m)), EnableGzip (Performance (config m)),
   EnableRequest (Log (config m))).

(** A configuration that is in order where [Validate] looks and nowhere
    else: no host, negative server timeouts, a negative number of retries,
    negative response and idle timeouts, authentication enabled without a
    key, no allowed method, no log level. *)
Definition in_order_where_checked : Manager :=
  {| config := {|
       Server := {| Port := 7860; Host := EmptyString; ReadTimeout := -5;
                    WriteTimeout := -1; IdleTimeout := -1;
                    GracefulShutdownTimeout := -60 |};
       Keys := {| APIKeys := []; StartIndex := 0; BlacklistThreshold := 1;
                  MaxRetries := -3 |};
       OpenAI := {| BaseURL := EmptyString; BaseURLs := ["https://api.openai.com"];
                    RequestTimeout := 30; ResponseTimeout := -30;
                    IdleConnTimeout := -120 |};
       Auth := {| Key := EmptyString; Enabled := true |};
       CORS := {| CORSEnabled := true; AllowedOrigins := []; AllowedMethods := [];
                  AllowedHeaders := []; AllowCredentials := true |};
       Performance := {| MaxConcurrentRequests := 100; EnableGzip := true |};
       Log := {| Level := EmptyString; Format := EmptyString; EnableFile := true;
                 FilePath := EmptyString; EnableRequest := true |} |};
     roundRobinCounter := 0 |}.

(** The default configuration with the given API keys and, for
    authentication, the given key. *)
Definition with_secrets (keys : list string) (key : string) : Manager :=
  {| config := {|
       Server := Server (config three_upstreams);
       Keys := {| APIKeys := keys; StartIndex := 0; BlacklistThreshold := 1;
                  MaxRetries := 3 |};
       OpenAI := OpenAI (config three_upstreams);
       Auth := {| Key := key; Enabled := true |};
       CORS := CORS (config three_upstreams);
       Performance := Performance (config three_upstreams);
       Log := Log (config three_upstreams) |};
     roundRobinCounter := 0 |}.

(** What holds of a caller with quota [q] when the upstream list has at
    most one entry: it has observed no counter value, every value it got is
    the one a call on the initial manager returns, and its quota is what it
    has done plus what it has left. *)
Definition quiet_inv (config0 : OpenAIConfig) (q : nat) (c : Caller) : Prop :=
  observed c = []
  /\ Forall (fun r => r = select config0 0) (returned c)
  /\ match at_pc c with
     | AtEntry => (length (returned c) + todo c = q)%nat
     | AtBranch config =>
         config = config0 /\ (length (returned c) + todo c = q)%nat /\ (1 <= todo c)%nat
     | AtIndex _ _ => False
     | AtReturn config =>
         config = select config0 0
         /\ (length (returned c) + todo c = q)%nat /\ (1 <= todo c)%nat
     | Panicked => False
     end.

(** ** The [.env] file

    [godotenv.Load()] reads the file [.env] of the working directory and
    adds its variables to the process environment, except those the
    environment already holds, be it with an empty value: it calls
    [os.Setenv] only for a key that [os.Environ()] does not list.  The
    syntax of the file is the library's; [dotenv] is the map the library
    read from it, and [None] is a file that is missing or cannot be read,
    in which case the load fails and the environment stays as it is. *)
Definition godotenv_Load (dotenv : option Env) (environ : Env) : Env :=
  match dotenv with
  | Some envMap => environ ∪ envMap
  | None => environ
  end.

(** [NewManager] from its first line on: the load of the [.env] file,
    whose failure is logged and otherwise ignored, then the assembly and
    the validation, which [NewManager] above describes for the environment
    as the load leaves it. *)
Definition NewManager_with_dotenv `{Unicode} (dotenv : option Env) (environ : Env)
  : errors.AppError + Manager :=
  NewManager (godotenv_Load dotenv environ).

(** * Theorems *)

(** ** The library models on examples *)

Example Atoi_ex1 :
  Strconv.Atoi "7860" = Some 7860.
Proof. reflexivity. Qed.
Example Atoi_ex2 :
  Strconv.Atoi "-5" = Some (-5).
Proof. reflexivity. Qed.
Example Atoi_ex3 :
  Strconv.Atoi "+12" = Some 12.
Proof. reflexivity. Qed.
Example Atoi_ex4 :
  Strconv.Atoi "12abc" = None.
Proof. reflexivity. Qed.
Example Atoi_ex5 :
  Strconv.Atoi EmptyString = None.
Proof. reflexivity. Qed.
Example Atoi_ex6 :
  Strconv.Atoi "-" = None.
Proof. reflexivity. Qed.
Example Atoi_ex7 :
  Strconv.Atoi " 7" = None.
Proof. reflexivity. Qed.
Example Atoi_ex8 :
  Strconv.Atoi "9223372036854775807" = Some 9223372036854775807.
Proof. vm_compute. reflexivity. Qed.
Example Atoi_ex9 :
  Strconv.Atoi "9223372036854775808" = None.
Proof. vm_compute. reflexivity. Qed.
Example Atoi_ex10 :
  Strconv.Atoi "-9223372036854775808" = Some (-9223372036854775808).
Proof. vm_compute. reflexivity. Qed.
Example Atoi_ex11 :
  Strconv.Atoi "99999999999999999999999" = None.
Proof. vm_compute. reflexivity. Qed.
Example Atoi_ex12 :
  Strconv.Atoi "0000000000000000000000012" = Some 12.
Proof. vm_compute. reflexivity. Qed.
Example Atoi_ex13 :
  Strconv.Atoi "1_000" = None.
Proof. vm_compute. reflexivity. Qed.

Example Parse_ex1 :
  Url.Parse "https://api.openai.com" = None.
Proof. vm_compute. reflexivity. Qed.
Example Parse_ex2 :
  Url.Parse "api.openai.com" = None.
Proof. vm_compute. reflexivity. Qed.
Example Parse_ex3 :
  Url.Parse "not a url" = None.
Proof. vm_compute. reflexivity. Qed.
Example Parse_ex4 :
  Url.Parse "://api.openai.com" = Some Url.ErrMissingProtocolScheme.
Proof. vm_compute. reflexivity. Qed.
Example Parse_ex5 :
  Url.Parse "http://api.example.com:port" = Some (Url.ErrInvalidPort ":port").
Proof. vm_compute. reflexivity. Qed.
Example Parse_ex6 :
  Url.Parse "http://a b.com/" = Some (Url.InvalidHostError " ").
Proof. vm_compute. reflexivity. Qed.
Example Parse_ex7 :
  Url.Parse "http://host/%zz" = Some (Url.EscapeError "%zz").
Proof. vm_compute. reflexivity. Qed.
Example Parse_ex8 :
  Url.Parse "localhost:8080" = None.
Proof. vm_compute. reflexivity. Qed.
Example Parse_ex9 :
  Url.Parse "1.2.3.4:8080" = Some Url.ErrFirstSegmentColon.
Proof. vm_compute. reflexivity. Qed.
Example Parse_ex10 :
  Url.Parse "http://[::1]:80/x?y=1#frag" = None.
Proof. vm_compute. reflexivity. Qed.
Example Parse_ex11 :
  Url.Parse "http://user:pw@host:80/p%41" = None.
Proof. vm_compute. reflexivity. Qed.
Example Parse_ex12 :
  Url.Parse "http://[::1" = Some Url.ErrMissingBracket.
Proof. vm_compute. reflexivity. Qed.
Example Parse_ex13 :
  Url.Parse "http://host/a%2" = Some (Url.EscapeError "%2").
Proof. vm_compute. reflexivity. Qed.

(** ** The validator *)

Example itoa_MinPort : itoa (MinPort DefaultConstants) = "1".
Proof. reflexivity. Qed.

Example itoa_MaxPort : itoa (MaxPort DefaultConstants) = "65535".
Proof. reflexivity. Qed.

Example itoa_negative : itoa (-120) = "-120".
Proof. reflexivity. Qed.

Example itoa_zero : itoa 0 = "0".
Proof. reflexivity. Qed.

Lemma fold_url_errors (baseURLs : list string) (errs : list string) :
  fold_left
    (fun errs baseURL =>
       match Url.Parse baseURL with
       | Some _ => append errs ("invalid upstream API URL format: " +:+ baseURL)
       | None => errs
       end) baseURLs errs
  = (errs ++ url_errors baseURLs)%list.
Proof.
  revert errs. induction baseURLs as [|u us IH]; intros errs; cbn [fold_left url_errors].
  - now rewrite app_nil_r.
  - destruct (Url.Parse u).
    + rewrite IH. unfold append, msg_url. now rewrite <- app_assoc.
    + apply IH.
Qed.

(** Every check runs, whatever the checks before it found: the list is
    the concatenation of what each check finds on its own. *)
Lemma validationErrors_checks (m : Manager) :
  validationErrors m
  = (port_errors m ++ startIndex_errors m ++ blacklist_errors m ++ timeout_errors m
     ++ noUpstream_errors m ++ url_errors (BaseURLs (OpenAI (config m)))
     ++ performance_errors m)%list.
Proof.
  unfold validationErrors. cbv zeta. rewrite fold_url_errors.
  unfold port_errors, startIndex_errors, blacklist_errors, timeout_errors,
    noUpstream_errors, performance_errors, when, append.
  change (MinPort DefaultConstants) with 1. change (MaxPort DefaultConstants) with 65535.
  change (MinTimeout DefaultConstants) with 1.
  change ("port must be between " +:+ itoa 1 +:+ "-" +:+ itoa 65535) with msg_port.
  change ("request timeout cannot be less than " +:+ itoa 1 +:+ "s") with msg_timeout.
  fold msg_startIndex msg_blacklist msg_noUpstream msg_performance.
  destruct ((Port (Server (config m)) <? 1) || (65535 <? Port (Server (config m))));
    destruct (StartIndex (Keys (config m)) <? 0);
    destruct (BlacklistThreshold (Keys (config m)) <? 1);
    destruct (RequestTimeout (OpenAI (config m)) <? 1);
    destruct (Z.of_nat (length (BaseURLs (OpenAI (config m)))) =? 0);
    destruct (MaxConcurrentRequests (Performance (config m)) <? 1);
    cbn [app]; rewrite <- ?app_assoc, ?app_nil_r; reflexivity.
Qed.

Lemma Validate_eq (m : Manager) :
  Validate m
  = match validationErrors m with
    | [] => None
    | errs => Some (ConfigValidationError errs)
    end.
Proof.
  unfold Validate. destruct (validationErrors m) as [|e errs]; [reflexivity|].
  cbn [length]. now rewrite Nat2Z.inj_succ, (proj2 (Z.ltb_lt _ _)) by lia.
Qed.

Lemma when_In (b : bool) (msg x : string) : In x (when b msg) <-> b = true /\ x = msg.
Proof.
  destruct b; cbn; split; try tauto.
  - intros [<-|[]]. tauto.
  - intros [_ ->]. now left.
  - intros [? _]. discriminate.
Qed.

Lemma url_errors_In (baseURLs : list string) (x : string) :
  In x (url_errors baseURLs)
  <-> exists u, In u baseURLs /\ Url.Parse u <> None /\ x = msg_url u.
Proof.
  induction baseURLs as [|u us IH]; cbn [url_errors In].
  - split; [tauto | intros (u & [] & _)].
  - destruct (Url.Parse u) eqn:E; cbn [In]; rewrite ?IH; split.
    + intros [<-|(v & Hv & Hp & ->)]; [exists u | exists v]; repeat split; auto; congruence.
    + intros (v & [->|Hv] & Hp & ->); [now left | right; eauto].
    + intros (v & Hv & Hp & ->). eauto.
    + intros (v & [->|Hv] & Hp & ->); [congruence | eauto].
Qed.

Lemma url_errors_nil (baseURLs : list string) :
  url_errors baseURLs = [] <-> Forall (fun u => Url.Parse u = None) baseURLs.
Proof.
  induction baseURLs as [|u us IH]; cbn [url_errors].
  - split; auto.
  - destruct (Url.Parse u) eqn:E; split.
    + discriminate.
    + intros HF. inversion HF; congruence.
    + intros Hn. constructor; [assumption | now apply IH].
    + intros HF. inversion HF; subst. now apply IH.
Qed.

(** The message of the port check is the message of no other check. *)
Lemma msg_port_In (m : Manager) :
  In msg_port (validationErrors m) <-> port_errors m = [msg_port].
Proof.
  rewrite validationErrors_checks, !in_app_iff.
  unfold port_errors, startIndex_errors, blacklist_errors, timeout_errors,
    noUpstream_errors, performance_errors.
  rewrite !when_In, url_errors_In. split.
  - intros [[-> _]|[[_ Hx]|[[_ Hx]|[[_ Hx]|[[_ Hx]|[(u & _ & _ & Hx)|[_ Hx]]]]]]];
      try reflexivity; discriminate Hx.
  - intros Hp. left. split; [|reflexivity].
    destruct ((Port (Server (config m)) <? 1) || (65535 <? Port (Server (config m))));
      [reflexivity | discriminate Hp].
Qed.

Lemma port_errors_iff (m : Manager) :
  port_errors m = [msg_port]
  <-> Port (Server (config m)) < 1 \/ 65535 < Port (Server (config m)).
Proof.
  unfold port_errors, when.
  destruct (Port (Server (config m)) <? 1) eqn:E1;
    destruct (65535 <? Port (Server (config m))) eqn:E2; cbn [orb];
    rewrite ?Z.ltb_lt, ?Z.ltb_ge in E1, E2; split; intros; try reflexivity; try lia;
    discriminate.
Qed.

Lemma validationErrors_Validate (m : Manager) (x : string) :
  In x (validationErrors m) -> Validate m = Some (ConfigValidationError (validationErrors m)).
Proof.
  rewrite Validate_eq. destruct (validationErrors m); [intros [] | reflexivity].
Qed.

Lemma Validate_None (m : Manager) : Validate m = None <-> validationErrors m = [].
Proof.
  rewrite Validate_eq. destruct (validationErrors m); split; congruence.
Qed.

(** C6. Port validation has inclusive bounds 1 and 65535: whatever the
    rest of the configuration, the port message is among the violations
    exactly when the port is below 1 or above 65535; with port 0 or 65536
    validation fails and reports it, with port 7860 or 65535 the port check
    adds no message, and a configuration with nothing else wrong then passes
    while one with port 0 or 65536 fails with the port message alone. *)
Theorem port_bounds_inclusive (m : Manager) :
  (In msg_port (validationErrors m)
   <-> Port (Server (config m)) < 1 \/ 65535 < Port (Server (config m)))
  /\ (In msg_port (validationErrors (set_Port m 0)) /\ Validate (set_Port m 0) <> None)
  /\ (In msg_port (validationErrors (set_Port m 65536))
      /\ Validate (set_Port m 65536) <> None)
  /\ (port_errors (set_Port m 7860) = []
      /\ ~ In msg_port (validationErrors (set_Port m 7860)))
  /\ (port_errors (set_Port m 65535) = []
      /\ ~ In msg_port (validationErrors (set_Port m 65535)))
  /\ Validate (manager_of 7860 0 120 1800 120 ["https://api.openai.com"]) = None
  /\ Validate (manager_of 65535 0 120 1800 120 ["https://api.openai.com"]) = None
  /\ Validate (manager_of 0 0 120 1800 120 ["https://api.openai.com"])
     = Some (ConfigValidationError [msg_port])
  /\ Validate (manager_of 65536 0 120 1800 120 ["https://api.openai.com"])
     = Some (ConfigValidationError [msg_port]).
Proof.
  assert (Hfail : forall p, p < 1 \/ 65535 < p ->
            In msg_port (validationErrors (set_Port m p))
            /\ Validate (set_Port m p) <> None).
  { intros p Hp.
    assert (Hin : In msg_port (validationErrors (set_Port m p)))
      by (apply msg_port_In, port_errors_iff; exact Hp).
    split; [exact Hin|]. now rewrite (validationErrors_Validate _ _ Hin). }
  assert (Hpass : forall p, 1 <= p <= 65535 ->
            port_errors (set_Port m p) = []
            /\ ~ In msg_port (validationErrors (set_Port m p))).
  { intros p Hp. split.
    - unfold port_errors, when. cbn [set_Port set_Server config Server Port].
      now rewrite (proj2 (Z.ltb_ge _ _)), (proj2 (Z.ltb_ge _ _)) by lia.
    - rewrite msg_port_In, port_errors_iff. cbn [set_Port set_Server config Server Port].
      lia. }
  split; [now rewrite msg_port_In, port_errors_iff|].
  split; [apply Hfail; lia|]. split; [apply Hfail; lia|].
  split; [apply Hpass; lia|]. split; [apply Hpass; lia|].
  repeat split; vm_compute; reflexivity.
Qed.

Lemma string_app_assoc (a b c : string) : (a +:+ b) +:+ c = a +:+ (b +:+ c).
Proof.
  induction a as [|x a IH]; [reflexivity|].
  change (String x ((a +:+ b) +:+ c) = String x (a +:+ (b +:+ c))). now rewrite IH.
Qed.

Lemma string_app_nil_r (a : string) : a +:+ EmptyString = a.
Proof.
  induction a as [|x a IH]; [reflexivity|].
  change (String x (a +:+ EmptyString) = String x a). now rewrite IH.
Qed.

(** A message of the list is a piece of the joined text. *)
Lemma Join_In (elems : list string) (sep x : string) :
  In x elems -> exists pre post, Strings_.Join elems sep = pre +:+ x +:+ post.
Proof.
  induction elems as [|e es IH]; [intros []|].
  intros [->|Hin].
  - exists EmptyString. destruct es as [|e' es'].
    + exists EmptyString. cbn. now rewrite string_app_nil_r.
    + eexists. cbn [Strings_.Join]. reflexivity.
  - destruct (IH Hin) as (pre & post & E). destruct es as [|e' es']; [destruct Hin|].
    exists (e +:+ sep +:+ pre), post.
    change (Strings_.Join (e :: e' :: es') sep)
      with (e +:+ sep +:+ Strings_.Join (e' :: es') sep).
    now rewrite E, !string_app_assoc.
Qed.

(** C2. The validator runs its seven checks whatever the earlier ones
    found (the list of violations is the concatenation of what each check
    contributes on its own) and returns either no error or one
    [ConfigValidationError] whose details join every message, so that each
    message is a piece of the details; a
    configuration whose port is out of range, whose start index is negative
    and whose upstream list is empty, the other checks passing, yields
    exactly these three messages in one error; and [NewManager] returns
    either that error or the manager holding the configuration exactly as
    it was assembled. *)
Theorem Validate_aggregates_every_violation `{Unicode} (m : Manager) (env : Env) :
  validationErrors m
  = (port_errors m ++ startIndex_errors m ++ blacklist_errors m ++ timeout_errors m
     ++ noUpstream_errors m ++ url_errors (BaseURLs (OpenAI (config m)))
     ++ performance_errors m)%list
  /\ Validate m
     = match validationErrors m with
       | [] => None
       | errs => Some (ConfigValidationError errs)
       end
  /\ (forall x,
        In x (validationErrors m) ->
        exists pre post,
          errors.Details (ConfigValidationError (validationErrors m)) = pre +:+ x +:+ post)
  /\ (Port (Server (config m)) < 1 \/ 65535 < Port (Server (config m)) ->
      StartIndex (Keys (config m)) < 0 ->
      BaseURLs (OpenAI (config m)) = [] ->
      1 <= BlacklistThreshold (Keys (config m)) ->
      1 <= RequestTimeout (OpenAI (config m)) ->
      1 <= MaxConcurrentRequests (Performance (config m)) ->
      validationErrors m = [msg_port; msg_startIndex; msg_noUpstream]
      /\ Validate m
         = Some (ConfigValidationError [msg_port; msg_startIndex; msg_noUpstream]))
  /\ (validationErrors (manager_of 0 (-1) 120 1800 120 [])
      = [msg_port; msg_startIndex; msg_noUpstream]
      /\ errors.Details <$> Validate (manager_of 0 (-1) 120 1800 120 [])
         = Some ("port must be between 1-65535; start index cannot be less than 0; "
                 +:+ "at least one upstream API URL is required"))
  /\ NewManager env
     = match Validate {| config := loadConfig env; roundRobinCounter := 0 |} with
       | Some err => inl err
       | None => inr {| config := loadConfig env; roundRobinCounter := 0 |}
       end.
Proof.
  split; [apply validationErrors_checks|].
  split; [apply Validate_eq|].
  split; [intros x Hx; exact (Join_In _ "; " _ Hx)|].
  split; [|split; [split; vm_compute; reflexivity | reflexivity]].
  intros Hport Hstart Hurls Hbl Hto Hperf.
  assert (E : validationErrors m = [msg_port; msg_startIndex; msg_noUpstream]).
  { rewrite validationErrors_checks, (proj2 (port_errors_iff m) Hport).
    unfold startIndex_errors, blacklist_errors, timeout_errors, noUpstream_errors,
      performance_errors, when.
    rewrite Hurls. cbn [length url_errors].
    rewrite (proj2 (Z.ltb_lt _ _) Hstart).
    now rewrite !(proj2 (Z.ltb_ge _ _)) by lia. }
  split; [exact E|]. now rewrite Validate_eq, E.
Qed.

(** ** Server timeouts *)

Lemma when_nil (b : bool) (msg : string) : when b msg = [] <-> b = false.
Proof. destruct b; cbn; split; congruence. Qed.

Lemma Validate_None_iff (m : Manager) : Validate m = None <-> validated m.
Proof.
  rewrite Validate_None, validationErrors_checks. unfold validated.
  rewrite <- url_errors_nil.
  unfold port_errors, startIndex_errors, blacklist_errors, timeout_errors,
    noUpstream_errors, performance_errors.
  split.
  - intros E.
    apply app_eq_nil in E as [E1%when_nil E]. apply app_eq_nil in E as [E2%when_nil E].
    apply app_eq_nil in E as [E3%when_nil E]. apply app_eq_nil in E as [E4%when_nil E].
    apply app_eq_nil in E as [E5%when_nil E]. apply app_eq_nil in E as [E6 E7%when_nil].
    rewrite ?orb_false_iff, ?Z.ltb_ge, ?Z.eqb_neq in *.
    repeat split; try lia; try assumption.
    intros Hn. rewrite Hn in *. cbn in *. lia.
  - intros (Hp & Hs & Hb & Ht & Hne & Hu & Hperf). rewrite Hu.
    assert (Hlen : Z.of_nat (length (BaseURLs (OpenAI (config m)))) <> 0)
      by (destruct (BaseURLs (OpenAI (config m))); [congruence | cbn [length]; lia]).
    rewrite !(proj2 (when_nil _ _)); try reflexivity;
      rewrite ?orb_false_iff, ?Z.ltb_ge, ?Z.eqb_neq; try lia.
Qed.

(** C5, against the claim: the configuration that differs from the
    default one only by its three server timeouts, -5, -1 and -1, passes
    validation. *)
Lemma negative_server_timeouts_pass_validation :
  Validate negative_timeouts = None
  /\ ReadTimeout (Server (config negative_timeouts)) = -5
  /\ WriteTimeout (Server (config negative_timeouts)) = -1
  /\ IdleTimeout (Server (config negative_timeouts)) = -1.
Proof. repeat split. Qed.

(** C5, as amended. The outcome of validation does not depend on the
    read, write and idle timeouts of the server section: replacing them by
    any integers, negative ones included, leaves the result of [Validate]
    as it was.  A configuration passes exactly when its port is in
    1..65535, its start index is at least 0, its blacklist threshold, its
    request timeout and its maximum of concurrent requests are at least 1,
    and its upstream list is not empty and holds only URLs [url.Parse]
    accepts.  With SERVER_READ_TIMEOUT set to -5 and nothing else set,
    [NewManager] returns a manager whose read timeout is -5. *)
Theorem Validate_ignores_server_timeouts `{Unicode} (m : Manager) (read write idle : Z) :
  Validate (set_timeouts m read write idle) = Validate m
  /\ (Validate m = None <-> validated m)
  /\ exists m', NewManager {[ "SERVER_READ_TIMEOUT" := "-5" ]} = inr m'
                /\ ReadTimeout (Server (config m')) = -5.
Proof.
  split; [|split; [apply Validate_None_iff|]].
  - rewrite !Validate_eq, !validationErrors_checks. reflexivity.
  - eexists. split; [vm_compute; reflexivity | reflexivity].
Qed.

(** ** Upstream URLs *)

Example spec_scheme_host_wellformed_default :
  spec_scheme_host_wellformed "https://api.openai.com" = true.
Proof. vm_compute. reflexivity. Qed.

Example spec_scheme_host_wellformed_no_host :
  spec_scheme_host_wellformed "https:///v1" = false.
Proof. vm_compute. reflexivity. Qed.

(** C3, against the claim: [api.openai.com] has neither a scheme nor a
    host, and the configuration that lists it after a well-formed URL, or
    alone, passes validation: [url.Parse] reads it as a relative path. *)
Lemma url_without_scheme_and_host_passes_validation :
  spec_scheme_host_wellformed "api.openai.com" = false
  /\ Url.Parse "api.openai.com" = None
  /\ Validate (manager_of 7860 0 120 1800 120 ["https://api.openai.com"; "api.openai.com"])
     = None
  /\ Validate (manager_of 7860 0 120 1800 120 ["api.openai.com"]) = None.
Proof. repeat split; vm_compute; reflexivity. Qed.

(** C3, as amended. Validation fails for any configuration whose upstream
    list holds a URL that [url.Parse] rejects, wherever it stands in the
    list and whatever the other URLs are; the message
    "invalid upstream API URL format: " followed by that URL is among the
    violations, and the details of the error returned contain it.  For
    the list of [https://api.openai.com], [://api.example.com] (no scheme
    before the colon) and [https://b.example], that message is the only
    violation. *)
Theorem rejected_url_is_reported_by_value (m : Manager) (u : string) :
  In u (BaseURLs (OpenAI (config m))) ->
  Url.Parse u <> None ->
  In ("invalid upstream API URL format: " +:+ u) (validationErrors m)
  /\ Validate m = Some (ConfigValidationError (validationErrors m))
  /\ (exists pre post,
        errors.Details (ConfigValidationError (validationErrors m))
        = pre +:+ ("invalid upstream API URL format: " +:+ u) +:+ post)
  /\ validationErrors
       (manager_of 7860 0 120 1800 120
          ["https://api.openai.com"; "://api.example.com"; "https://b.example"])
     = ["invalid upstream API URL format: ://api.example.com"].
Proof.
  intros Hin Hrej.
  assert (Hmsg : In (msg_url u) (validationErrors m)).
  { rewrite validationErrors_checks, !in_app_iff.
    do 5 right. left. apply url_errors_In. eauto. }
  split; [exact Hmsg|]. split; [exact (validationErrors_Validate _ _ Hmsg)|].
  split; [exact (Join_In _ "; " _ Hmsg) | vm_compute; reflexivity].
Qed.

Lemma rejected_url_is_reported_by_value_witness :
  In ("invalid upstream API URL format: " +:+ "://api.example.com")
     (validationErrors
        (manager_of 7860 0 120 1800 120
           ["https://api.openai.com"; "://api.example.com"; "https://b.example"]))
  /\ Validate (manager_of 7860 0 120 1800 120
                 ["https://api.openai.com"; "://api.example.com"; "https://b.example"])
     <> None.
Proof.
  destruct (rejected_url_is_reported_by_value
              (manager_of 7860 0 120 1800 120
                 ["https://api.openai.com"; "://api.example.com"; "https://b.example"])
              "://api.example.com") as (H1 & H2 & _).
  - cbn. right. left. reflexivity.
  - vm_compute. discriminate.
  - split; [exact H1 | rewrite H2; discriminate].
Defined.

(** ** Round-robin selection by a single caller *)

Lemma uint64_pred_succ (c : Z) : uint64 (atomic_AddUint64 c 1 - 1) = uint64 c.
Proof.
  unfold atomic_AddUint64, uint64. rewrite Zminus_mod_idemp_l. f_equal. lia.
Qed.

Lemma slice_index_Some (s : list string) (i : Z) (m : Manager) :
  0 <= i < Z.of_nat (length s) ->
  exists u, s !! Z.to_nat i = Some u /\ In u s /\ slice_index s i m = Some (u, m).
Proof.
  intros Hi. destruct (lookup_lt_is_Some_2 s (Z.to_nat i)) as [u Hu]; [lia|].
  exists u. split; [exact Hu|]. split.
  - apply list_elem_of_In, list_elem_of_lookup. eauto.
  - unfold slice_index. rewrite Hu. now rewrite (proj2 (Z.leb_le _ _)) by lia.
Qed.

(** With more than one upstream URL, a call adds one to the counter,
    modulo [2^64], and selects the entry at the old counter modulo the
    length. *)
Lemma GetOpenAIConfig_many (m : Manager) :
  1 < Z.of_nat (length (BaseURLs (OpenAI (config m)))) ->
  exists u,
    BaseURLs (OpenAI (config m))
      !! Z.to_nat (uint64 (roundRobinCounter m)
                   mod Z.of_nat (length (BaseURLs (OpenAI (config m))))) = Some u
    /\ In u (BaseURLs (OpenAI (config m)))
    /\ GetOpenAIConfig m
       = Some (set_BaseURL (OpenAI (config m)) u,
               set_roundRobinCounter m (uint64 (roundRobinCounter m + 1))).
Proof.
  intros Hn. unfold GetOpenAIConfig.
  rewrite (proj2 (Z.ltb_lt _ _) Hn), uint64_pred_succ.
  destruct (slice_index_Some (BaseURLs (OpenAI (config m)))
              (uint64 (roundRobinCounter m)
               mod Z.of_nat (length (BaseURLs (OpenAI (config m)))))
              (set_roundRobinCounter m (atomic_AddUint64 (roundRobinCounter m) 1)))
    as (u & Hu & Hin & Hs).
  { apply Z.mod_pos_bound. lia. }
  exists u. split; [exact Hu|]. split; [exact Hin|].
  unfold bind. rewrite Hs. reflexivity.
Qed.

(** With exactly one upstream URL, a call returns it and leaves the
    manager as it is. *)
Lemma GetOpenAIConfig_one (m : Manager) (u : string) :
  BaseURLs (OpenAI (config m)) = [u] ->
  GetOpenAIConfig m = Some (set_BaseURL (OpenAI (config m)) u, m).
Proof.
  intros E. unfold GetOpenAIConfig. rewrite E. reflexivity.
Qed.

Lemma after_calls_many (k : nat) (m : Manager) :
  1 < Z.of_nat (length (BaseURLs (OpenAI (config m)))) ->
  exists m',
    after_calls k m = Some m'
    /\ config m' = config m
    /\ uint64 (roundRobinCounter m') = uint64 (roundRobinCounter m + Z.of_nat k).
Proof.
  revert m. induction k as [|k IH]; intros m Hn.
  - exists m. cbn [after_calls]. repeat split. f_equal. lia.
  - destruct (GetOpenAIConfig_many m Hn) as (u & _ & _ & Hg).
    cbn [after_calls]. rewrite Hg.
    destruct (IH (set_roundRobinCounter m (uint64 (roundRobinCounter m + 1))))
      as (m' & Ha & Hc & Hr); [exact Hn|].
    exists m'. split; [exact Ha|]. split; [exact Hc|].
    rewrite Hr. cbn [set_roundRobinCounter roundRobinCounter].
    unfold uint64. rewrite Zplus_mod_idemp_l. f_equal. lia.
Qed.

(** The [k]-th call of a single caller, from a counter [c]: the entry at
    index [((c + k - 1) mod 2^64) mod n]. *)
Lemma kth_call_many (k : nat) (m : Manager) :
  1 < Z.of_nat (length (BaseURLs (OpenAI (config m)))) ->
  (1 <= k)%nat ->
  exists u,
    BaseURLs (OpenAI (config m))
      !! Z.to_nat (uint64 (roundRobinCounter m + Z.of_nat k - 1)
                   mod Z.of_nat (length (BaseURLs (OpenAI (config m))))) = Some u
    /\ kth_call k m = Some (set_BaseURL (OpenAI (config m)) u).
Proof.
  intros Hn Hk. unfold kth_call.
  destruct (after_calls_many (k - 1) m Hn) as (m' & Ha & Hc & Hr).
  rewrite Ha.
  destruct (GetOpenAIConfig_many m') as (u & Hu & _ & Hg); [now rewrite Hc|].
  rewrite Hc, Hr in Hu. rewrite Hc in Hg.
  replace (roundRobinCounter m + Z.of_nat (k - 1))
    with (roundRobinCounter m + Z.of_nat k - 1) in Hu by lia.
  exists u. split; [exact Hu|]. now rewrite Hg.
Qed.

(** C1, against the claim: over three entries, call number [2^64 + 1]
    returns the entry at index 0, since the counter has wrapped to 0, whereas
    index [(k - 1) mod 3] is 1 for this [k]. *)
Lemma round_robin_restarts_after_2_64_calls :
  Validate three_upstreams = None
  /\ roundRobinCounter three_upstreams = 0
  /\ BaseURL <$> kth_call (Z.to_nat (2 ^ 64 + 1)) three_upstreams
     = Some "https://a.example"
  /\ BaseURLs (OpenAI (config three_upstreams)) !! Z.to_nat ((2 ^ 64 + 1 - 1) mod 3)
     = Some "https://b.example".
Proof.
  split; [vm_compute; reflexivity|]. split; [reflexivity|].
  split; [|vm_compute; reflexivity].
  destruct (kth_call_many (Z.to_nat (2 ^ 64 + 1)) three_upstreams) as (u & Hu & Hk).
  - vm_compute. reflexivity.
  - apply Nat2Z.inj_le. rewrite Z2Nat.id; vm_compute; discriminate.
  - rewrite Z2Nat.id in Hu by (vm_compute; discriminate).
    vm_compute in Hu. injection Hu as <-. rewrite Hk. reflexivity.
Qed.

(** C1, as amended. With at least two upstream URLs and the counter at
    zero, the [k]-th call of a single caller ([k >= 1]) returns the entry at
    index [((k - 1) mod 2^64) mod n], which is the entry at index
    [(k - 1) mod n] for every [k] up to [2^64]; over a list of three
    entries, nine calls in a row return the three entries in order, three
    times over. *)
Theorem round_robin_single_caller (m : Manager) (k : nat) :
  2 <= Z.of_nat (length (BaseURLs (OpenAI (config m)))) ->
  roundRobinCounter m = 0 ->
  (1 <= k)%nat ->
  (exists u,
     BaseURLs (OpenAI (config m))
       !! Z.to_nat (((Z.of_nat k - 1) mod 2 ^ 64)
                    mod Z.of_nat (length (BaseURLs (OpenAI (config m))))) = Some u
     /\ kth_call k m = Some (set_BaseURL (OpenAI (config m)) u))
  /\ (Z.of_nat k <= 2 ^ 64 ->
      ((Z.of_nat k - 1) mod 2 ^ 64) mod Z.of_nat (length (BaseURLs (OpenAI (config m))))
      = (Z.of_nat k - 1) mod Z.of_nat (length (BaseURLs (OpenAI (config m)))))
  /\ (forall u0 u1 u2,
        BaseURLs (OpenAI (config m)) = [u0; u1; u2] ->
        fst <$> calls 9 m
        = Some (map (set_BaseURL (OpenAI (config m)))
                  [u0; u1; u2; u0; u1; u2; u0; u1; u2])).
Proof.
  intros Hn Hc Hk. split; [|split].
  - destruct (kth_call_many k m) as (u & Hu & Hcall); [lia | exact Hk |].
    rewrite Hc in Hu. exists u. split; [|exact Hcall].
    replace (Z.of_nat k - 1) with (0 + Z.of_nat k - 1) by lia. exact Hu.
  - intros Hle. rewrite (Z.mod_small (Z.of_nat k - 1)) by lia. reflexivity.
  - intros u0 u1 u2 E.
    destruct m as [[srv keys [bu bus rt rst ict] auth cors perf lg] c].
    cbn in E, Hc. subst bus c. vm_compute. reflexivity.
Qed.

Lemma round_robin_single_caller_witness :
  exists u,
    BaseURLs (OpenAI (config three_upstreams))
      !! Z.to_nat (((Z.of_nat 5 - 1) mod 2 ^ 64)
                   mod Z.of_nat (length (BaseURLs (OpenAI (config three_upstreams)))))
    = Some u
    /\ kth_call 5 three_upstreams = Some (set_BaseURL (OpenAI (config three_upstreams)) u).
Proof.
  apply (round_robin_single_caller three_upstreams 5).
  - vm_compute. discriminate.
  - reflexivity.
  - lia.
Defined.

Example kth_call_5_of_three :
  BaseURL <$> kth_call 5 three_upstreams = Some "https://b.example".
Proof. vm_compute. reflexivity. Qed.

(** C4. When the upstream list has exactly one entry, a call returns
    that entry as the selected URL and leaves the manager, its counter
    included, as it was; so does any number of calls in a row. *)
Theorem single_upstream_never_touches_counter (m : Manager) (u : string) (k : nat) :
  BaseURLs (OpenAI (config m)) = [u] ->
  (exists c m',
     GetOpenAIConfig m = Some (c, m')
     /\ BaseURL c = u
     /\ roundRobinCounter m' = roundRobinCounter m
     /\ m' = m)
  /\ calls k m = Some (repeat (set_BaseURL (OpenAI (config m)) u) k, m).
Proof.
  intros E. pose proof (GetOpenAIConfig_one m u E) as Hg. split.
  - exists (set_BaseURL (OpenAI (config m)) u), m. repeat split. exact Hg.
  - induction k as [|k IH]; [reflexivity|].
    cbn [calls repeat]. unfold bind at 1. rewrite Hg.
    unfold bind at 1. rewrite IH. reflexivity.
Qed.

Lemma single_upstream_never_touches_counter_witness :
  calls 4 (manager_of 7860 0 120 1800 120 ["https://api.openai.com"])
  = Some (repeat
            (set_BaseURL
               (OpenAI (config (manager_of 7860 0 120 1800 120 ["https://api.openai.com"])))
               "https://api.openai.com") 4,
          manager_of 7860 0 120 1800 120 ["https://api.openai.com"]).
Proof.
  apply (single_upstream_never_touches_counter
           (manager_of 7860 0 120 1800 120 ["https://api.openai.com"])
           "https://api.openai.com" 4).
  reflexivity.
Defined.

(** A call on a non-empty upstream list returns, selects an entry of the
    list and changes nothing of the configuration. *)
Lemma GetOpenAIConfig_selects_member (m : Manager) :
  BaseURLs (OpenAI (config m)) <> [] ->
  exists u m',
    GetOpenAIConfig m = Some (set_BaseURL (OpenAI (config m)) u, m')
    /\ In u (BaseURLs (OpenAI (config m)))
    /\ config m' = config m.
Proof.
  intros Hne.
  destruct (BaseURLs (OpenAI (config m))) as [|u0 [|u1 us]] eqn:E; [congruence | |].
  - exists u0, m. split; [now apply GetOpenAIConfig_one|]. split; [now left | reflexivity].
  - destruct (GetOpenAIConfig_many m) as (u & _ & Hin & Hg).
    { rewrite E. cbn [length]. lia. }
    rewrite E in Hin. eauto.
Qed.

Lemma calls_select_members (k : nat) (m : Manager) :
  BaseURLs (OpenAI (config m)) <> [] ->
  exists cs m',
    calls k m = Some (cs, m')
    /\ config m' = config m
    /\ length cs = k
    /\ Forall (fun c => In (BaseURL c) (BaseURLs (OpenAI (config m)))
                        /\ BaseURLs c = BaseURLs (OpenAI (config m))) cs.
Proof.
  revert m. induction k as [|k IH]; intros m Hne.
  - exists [], m. repeat split. constructor.
  - destruct (GetOpenAIConfig_selects_member m Hne) as (u & m1 & Hg & Hin & Hc).
    destruct (IH m1) as (cs & m' & Hcs & Hc' & Hlen & Hall); [now rewrite Hc|].
    exists (set_BaseURL (OpenAI (config m)) u :: cs), m'.
    cbn [calls]. unfold bind at 1. rewrite Hg. unfold bind at 1. rewrite Hcs.
    split; [reflexivity|]. split; [congruence|]. split; [cbn; congruence|].
    constructor; [split; [exact Hin | reflexivity]|]. now rewrite Hc in Hall.
Qed.

(** C10. For a manager whose configuration passed validation, any number
    of calls in a row all return (none panics), the configuration stays as
    it was, and the URL selected by each call is an entry of the configured
    list, which the returned value carries unchanged. *)
Theorem selected_url_is_a_configured_one (m : Manager) (k : nat) :
  Validate m = None ->
  exists cs m',
    calls k m = Some (cs, m')
    /\ config m' = config m
    /\ length cs = k
    /\ Forall (fun c => In (BaseURL c) (BaseURLs (OpenAI (config m)))
                        /\ BaseURLs c = BaseURLs (OpenAI (config m))) cs.
Proof.
  intros Hv. apply calls_select_members.
  apply Validate_None_iff in Hv. apply Hv.
Qed.

Lemma selected_url_is_a_configured_one_witness :
  exists cs m',
    calls 7 three_upstreams = Some (cs, m')
    /\ config m' = config three_upstreams
    /\ length cs = 7%nat
    /\ Forall (fun c => In (BaseURL c) (BaseURLs (OpenAI (config three_upstreams)))
                        /\ BaseURLs c = BaseURLs (OpenAI (config three_upstreams))) cs.
Proof.
  apply (selected_url_is_a_configured_one three_upstreams 7).
  vm_compute. reflexivity.
Defined.

(** ** The primitive parsers *)

Lemma eqb_In4 (x a b c d : string) :
  String.eqb x a || String.eqb x b || String.eqb x c || String.eqb x d = true
  <-> In x [a; b; c; d].
Proof.
  rewrite !orb_true_iff, !String.eqb_eq. cbn [In]. intuition congruence.
Qed.

Lemma is_empty_true (s : string) : Strings_.is_empty s = true <-> s = EmptyString.
Proof. destruct s; cbn; split; congruence. Qed.

Lemma parseBoolean_cases `{Unicode} (value : string) (b : bool) :
  parseBoolean value b
  = if Strings_.is_empty value then b
    else if bool_decide (In (strings_ToLower value) truthy) then true
    else if bool_decide (In (strings_ToLower value) falsy) then false
    else b.
Proof.
  unfold parseBoolean. destruct (Strings_.is_empty value); [reflexivity|].
  cbv zeta.
  destruct (String.eqb _ "true" || _ || _ || _) eqn:Et.
  - apply eqb_In4 in Et. now rewrite bool_decide_eq_true_2.
  - rewrite bool_decide_eq_false_2
      by (intros Hin; apply eqb_In4 in Hin; unfold truthy in *; congruence).
    destruct (String.eqb _ "false" || _ || _ || _) eqn:Ef.
    + apply eqb_In4 in Ef. now rewrite bool_decide_eq_true_2.
    + now rewrite bool_decide_eq_false_2
        by (intros Hin; apply eqb_In4 in Hin; unfold falsy in *; congruence).
Qed.

(** On a string of ASCII bytes [strings.ToLower] lowers each byte. *)
Lemma strings_ToLower_ascii `{Unicode} (s : string) :
  Strings_.all Byte_.is_ascii s = true ->
  strings_ToLower s = Strings_.map_bytes Strings_.lower_byte s.
Proof.
  intros Ha. unfold strings_ToLower. rewrite Ha.
  destruct (Strings_.any Byte_.is_upper s) eqn:Eu; [reflexivity|]. cbn [negb].
  clear Ha. induction s as [|c s IH]; [reflexivity|].
  cbn [Strings_.any] in Eu. apply orb_false_iff in Eu as [Ec Es].
  cbn [Strings_.map_bytes]. unfold Strings_.lower_byte at 1. rewrite Ec.
  f_equal. now apply IH.
Qed.

(** *** [strconv.Atoi] reads back what [%d] prints *)

Lemma digit_byte (d : Z) :
  0 <= d <= 9 ->
  Byte_.val (ascii_of_N (Z.to_N (48 + d))) = 48 + d
  /\ Byte_.is_digit (ascii_of_N (Z.to_N (48 + d))) = true.
Proof.
  intros Hd.
  assert (E : Byte_.val (ascii_of_N (Z.to_N (48 + d))) = 48 + d).
  { unfold Byte_.val. rewrite N_ascii_embedding by lia. lia. }
  split; [exact E|].
  unfold Byte_.is_digit, Byte_.between. rewrite E.
  change (Byte_.val "0") with 48. change (Byte_.val "9") with 57.
  apply andb_true_iff. split; apply Z.leb_le; lia.
Qed.

Lemma is_digit_val (c : ascii) :
  Byte_.is_digit c = true -> 48 <= Byte_.val c <= 57.
Proof.
  unfold Byte_.is_digit, Byte_.between.
  change (Byte_.val "0") with 48. change (Byte_.val "9") with 57.
  intros [H1 H2]%andb_true_iff. apply Z.leb_le in H1, H2. lia.
Qed.

Lemma digits_val_ge (s : string) (acc : Z) :
  Strings_.all Byte_.is_digit s = true -> 0 <= acc -> acc <= digits_val s acc.
Proof.
  revert acc. induction s as [|c s IH]; intros acc Hs Hacc; cbn [digits_val]; [lia|].
  cbn [Strings_.all] in Hs. apply andb_true_iff in Hs as [Hc Hs].
  pose proof (is_digit_val c Hc). specialize (IH (acc * 10 + (Byte_.val c - 48)) Hs). lia.
Qed.

Lemma digits_val_app (a b : string) (acc : Z) :
  digits_val (a +:+ b) acc = digits_val b (digits_val a acc).
Proof.
  revert acc. induction a as [|c a IH]; intros acc; [reflexivity|].
  change (String c a +:+ b) with (String c (a +:+ b)). cbn [digits_val]. apply IH.
Qed.

Lemma all_app (p : ascii -> bool) (a b : string) :
  Strings_.all p (a +:+ b) = Strings_.all p a && Strings_.all p b.
Proof.
  induction a as [|c a IH]; [reflexivity|].
  change (String c a +:+ b) with (String c (a +:+ b)). cbn [Strings_.all].
  now rewrite IH, andb_assoc.
Qed.

Lemma fast_digits_digits (s : string) (acc : Z) :
  Strings_.all Byte_.is_digit s = true ->
  Strconv.fast_digits s acc = Some (digits_val s acc).
Proof.
  revert acc. induction s as [|c s IH]; intros acc Hs; [reflexivity|].
  cbn [Strings_.all] in Hs. apply andb_true_iff in Hs as [Hc Hs].
  pose proof (is_digit_val c Hc) as Hv.
  cbn [Strconv.fast_digits digits_val]. change (Byte_.val "0") with 48.
  rewrite (Z.mod_small (Byte_.val c - 48)) by lia.
  rewrite (proj2 (Z.ltb_ge _ _)) by lia. now apply IH.
Qed.

Lemma ParseUint_loop_digits (s : string) (acc : Z) :
  Strings_.all Byte_.is_digit s = true ->
  0 <= acc ->
  digits_val s acc < 2 ^ 64 ->
  Strconv.ParseUint_loop s acc = (digits_val s acc, None).
Proof.
  revert acc. induction s as [|c s IH]; intros acc Hs Hacc Hlt; [reflexivity|].
  cbn [Strings_.all] in Hs. apply andb_true_iff in Hs as [Hc Hs].
  pose proof (is_digit_val c Hc) as Hv.
  cbn [digits_val] in Hlt.
  pose proof (digits_val_ge s (acc * 10 + (Byte_.val c - 48)) Hs ltac:(lia)) as Hge.
  cbn [Strconv.ParseUint_loop digits_val]. rewrite Hc. cbn [negb].
  change (Byte_.val "0") with 48.
  change (Strconv.maxUint64 / 10 + 1) with 1844674407370955162.
  change Strconv.maxUint64 with 18446744073709551615.
  change (2 ^ 64) with 18446744073709551616 in *.
  rewrite (proj2 (Z.leb_gt _ _)) by lia.
  rewrite (Z.mod_small (acc * 10)) by lia.
  rewrite (Z.mod_small (acc * 10 + (Byte_.val c - 48))) by lia.
  rewrite (proj2 (Z.ltb_ge _ _)) by lia. rewrite (proj2 (Z.ltb_ge _ _)) by lia.
  cbn [orb]. apply IH; [exact Hs | lia | exact Hlt].
Qed.

Lemma itoa_pos_S (fuel : nat) (n : Z) (acc : string) :
  itoa_pos (S fuel) n acc
  = if n <? 10 then String (ascii_of_N (Z.to_N (48 + n mod 10))) acc
    else itoa_pos fuel (n / 10) (String (ascii_of_N (Z.to_N (48 + n mod 10))) acc).
Proof. reflexivity. Qed.

Lemma itoa_pos_one_digit (fuel : nat) (n : Z) (acc : string) :
  0 <= n < 10 ->
  exists ds c r,
    itoa_pos (S fuel) n acc = ds +:+ acc
    /\ ds = String c r
    /\ Strings_.all Byte_.is_digit ds = true
    /\ forall a, digits_val ds a = a * 10 ^ Strings_.len ds + n.
Proof.
  intros Hn. rewrite itoa_pos_S.
  destruct (digit_byte (n mod 10)) as (Hval & Hdig);
    [pose proof (Z.mod_pos_bound n 10); lia|].
  rewrite (proj2 (Z.ltb_lt _ _)) by lia.
  exists (String (ascii_of_N (Z.to_N (48 + n mod 10))) EmptyString),
    (ascii_of_N (Z.to_N (48 + n mod 10))), EmptyString.
  split; [reflexivity|]. split; [reflexivity|]. split.
  - cbn [Strings_.all]. now rewrite Hdig.
  - intros a. cbn [digits_val]. rewrite Hval.
    change (Strings_.len _) with 1. rewrite Z.mod_small by lia. lia.
Qed.

(** [itoa_pos] writes the decimal digits of [n] in front of [acc]. *)
Lemma itoa_pos_digits (fuel : nat) (n : Z) (acc : string) :
  0 <= n < 10 ^ Z.of_nat (S fuel) ->
  exists ds c r,
    itoa_pos (S fuel) n acc = ds +:+ acc
    /\ ds = String c r
    /\ Strings_.all Byte_.is_digit ds = true
    /\ forall a, digits_val ds a = a * 10 ^ Strings_.len ds + n.
Proof.
  revert n acc. induction fuel as [|fuel IH]; intros n acc Hn.
  - apply itoa_pos_one_digit. change (10 ^ Z.of_nat 1) with 10 in Hn. exact Hn.
  - destruct (n <? 10) eqn:Hsmall;
      [apply itoa_pos_one_digit; apply Z.ltb_lt in Hsmall; lia|].
    rewrite itoa_pos_S, Hsmall.
    assert (Hd : 0 <= n mod 10 <= 9) by (pose proof (Z.mod_pos_bound n 10); lia).
    destruct (digit_byte (n mod 10) Hd) as (Hval & Hdig).
    + apply Z.ltb_ge in Hsmall.
      destruct (IH (n / 10) (String (ascii_of_N (Z.to_N (48 + n mod 10))) acc))
        as (ds & c & r & E & Eds & Hall & Hvalds).
      { rewrite (Nat2Z.inj_succ (S fuel)), Z.pow_succ_r in Hn by lia.
        split; [apply Z.div_pos; lia | apply Z.div_lt_upper_bound; lia]. }
      exists (ds +:+ String (ascii_of_N (Z.to_N (48 + n mod 10))) EmptyString), c,
        (r +:+ String (ascii_of_N (Z.to_N (48 + n mod 10))) EmptyString).
      split; [now rewrite E, string_app_assoc|].
      split; [now rewrite Eds|]. split.
      * rewrite all_app, Hall. cbn [Strings_.all]. now rewrite Hdig.
      * intros a. rewrite digits_val_app, Hvalds. cbn [digits_val]. rewrite Hval.
        assert (Hlen : Strings_.len
                         (ds +:+ String (ascii_of_N (Z.to_N (48 + n mod 10))) EmptyString)
                       = Strings_.len ds + 1).
        { unfold Strings_.len. clear. induction ds as [|x ds IHds]; [reflexivity|].
          change (String x ds +:+ ?t) with (String x (ds +:+ t)).
          cbn [String.length]. lia. }
        rewrite Hlen, Z.pow_add_r by (unfold Strings_.len; lia).
        pose proof (Z.div_mod n 10 ltac:(lia)). lia.
Qed.

Lemma ParseUint_digits (ds : string) (c : ascii) (r : string) :
  ds = String c r ->
  Strings_.all Byte_.is_digit ds = true ->
  digits_val ds 0 < 2 ^ 64 ->
  Strconv.ParseUint ds = (digits_val ds 0, None).
Proof.
  intros -> Hall Hlt. unfold Strconv.ParseUint.
  apply ParseUint_loop_digits; [exact Hall | lia | exact Hlt].
Qed.

Lemma Atoi_digits (ds : string) (c : ascii) (r : string) :
  ds = String c r ->
  Strings_.all Byte_.is_digit ds = true ->
  digits_val ds 0 < 2 ^ 63 ->
  Strconv.Atoi ds = Some (digits_val ds 0).
Proof.
  intros Eds Hall Hlt. pose proof Hall as Hall'. rewrite Eds in Hall'.
  cbn [Strings_.all] in Hall'. apply andb_true_iff in Hall' as [Hc _].
  pose proof (is_digit_val c Hc) as Hv.
  assert (Hm : Byte_.eqb c "-" = false).
  { unfold Byte_.eqb. apply Ascii.eqb_neq. intros ->.
    change (Byte_.val "-") with 45 in Hv. lia. }
  assert (Hp : Byte_.eqb c "+" = false).
  { unfold Byte_.eqb. apply Ascii.eqb_neq. intros ->.
    change (Byte_.val "+") with 43 in Hv. lia. }
  pose proof (digits_val_ge ds 0 Hall ltac:(lia)) as Hge.
  unfold Strconv.Atoi. cbv zeta.
  destruct ((0 <? Strings_.len ds) && (Strings_.len ds <? 19)).
  - rewrite Eds, Hm, Hp. cbn [orb andb]. rewrite <- Eds.
    now rewrite fast_digits_digits.
  - unfold Strconv.ParseInt. rewrite Eds, Hm, Hp. cbn [orb]. rewrite <- Eds.
    rewrite (ParseUint_digits ds c r Eds Hall)
      by (change (2 ^ 64) with (2 * 2 ^ 63); lia).
    cbn [negb andb]. change (2 ^ (Strconv.intSize - 1)) with (2 ^ 63).
    now rewrite (proj2 (Z.leb_gt _ _)) by lia.
Qed.

Lemma Atoi_minus_digits (ds : string) (c : ascii) (r : string) :
  ds = String c r ->
  Strings_.all Byte_.is_digit ds = true ->
  digits_val ds 0 <= 2 ^ 63 ->
  Strconv.Atoi (String "-" ds) = Some (- digits_val ds 0).
Proof.
  intros Eds Hall Hlt.
  pose proof (digits_val_ge ds 0 Hall ltac:(lia)) as Hge.
  unfold Strconv.Atoi. cbv zeta.
  destruct ((0 <? Strings_.len (String "-" ds)) && (Strings_.len (String "-" ds) <? 19)).
  - change (Byte_.eqb "-" "-") with true. cbn [orb andb].
    assert (Hl : (Strings_.len ds <? 1) = false).
    { rewrite Eds. unfold Strings_.len. cbn [String.length]. apply Z.ltb_ge. lia. }
    rewrite Hl. now rewrite fast_digits_digits.
  - unfold Strconv.ParseInt. change (Byte_.eqb "-" "-") with true.
    change (Byte_.eqb "-" "+") with false. cbn [orb].
    rewrite (ParseUint_digits ds c r Eds Hall)
      by (change (2 ^ 64) with (2 * 2 ^ 63); lia).
    cbn [negb andb]. change (2 ^ (Strconv.intSize - 1)) with (2 ^ 63).
    now rewrite (proj2 (Z.ltb_ge _ _)) by lia.
Qed.

(** Every [int], printed in decimal, is read back as itself. *)
Lemma Atoi_itoa (n : Z) :
  - 2 ^ 63 <= n < 2 ^ 63 -> Strconv.Atoi (itoa n) = Some n.
Proof.
  intros Hn. unfold itoa.
  assert (Hpow : 2 ^ 63 < 10 ^ Z.of_nat 20) by (vm_compute; reflexivity).
  destruct (n <? 0) eqn:Hneg.
  - apply Z.ltb_lt in Hneg.
    destruct (itoa_pos_digits 19 (- n) EmptyString) as (ds & c & r & E & Eds & Hall & Hval);
      [lia|].
    rewrite E, string_app_nil_r. specialize (Hval 0). rewrite Z.mul_0_l, Z.add_0_l in Hval.
    rewrite (Atoi_minus_digits ds c r Eds Hall) by lia. f_equal. lia.
  - apply Z.ltb_ge in Hneg.
    destruct (itoa_pos_digits 19 n EmptyString) as (ds & c & r & E & Eds & Hall & Hval);
      [lia|].
    rewrite E, string_app_nil_r. specialize (Hval 0). rewrite Z.mul_0_l, Z.add_0_l in Hval.
    rewrite (Atoi_digits ds c r Eds Hall) by lia. f_equal. lia.
Qed.

(** The integer parser returns any [int] written in decimal, whatever
    the default and whatever the range the validator later asks for. *)
Lemma parseInteger_itoa (n d : Z) :
  - 2 ^ 63 <= n < 2 ^ 63 -> parseInteger (itoa n) d = n.
Proof.
  intros Hn. pose proof (Atoi_itoa n Hn) as Ha. unfold parseInteger.
  destruct (Strings_.is_empty (itoa n)) eqn:E.
  - apply is_empty_true in E. rewrite E in Ha. discriminate Ha.
  - now rewrite Ha.
Qed.

(** C7. The integer parser returns the default on the empty string and
    on every string [strconv.Atoi] refuses, and the integer [Atoi] read
    otherwise, with no check of its range: 70000 and -5 are returned as they
    are, and so is every [int] written in decimal; a string with trailing
    letters or beyond the [int] range gives the default.  The boolean parser
    returns the default on the empty string, [true] when the lowered input
    is one of true, 1, yes, on, [false] when it is one of false, 0, no, off,
    and the default in every other case; on ASCII input, lowering is byte by
    byte.  Both are total functions: no input raises an error. *)
Theorem parsers_degrade_to_default `{Unicode} (value : string) (d : Z) (b : bool) :
  parseInteger EmptyString d = d
  /\ parseInteger value d
     = match Strconv.Atoi value with Some parsed => parsed | None => d end
  /\ (parseInteger "70000" 7860 = 70000
      /\ parseInteger "-5" 120 = -5
      /\ parseInteger "12abc" d = d
      /\ parseInteger " 12" d = d
      /\ parseInteger "9223372036854775808" d = d)
  /\ (forall n, - 2 ^ 63 <= n < 2 ^ 63 -> parseInteger (itoa n) d = n)
  /\ parseBoolean EmptyString b = b
  /\ (value <> EmptyString ->
      (In (strings_ToLower value) truthy -> parseBoolean value b = true)
      /\ (In (strings_ToLower value) falsy -> parseBoolean value b = false))
  /\ (~ In (strings_ToLower value) truthy -> ~ In (strings_ToLower value) falsy ->
      parseBoolean value b = b)
  /\ (parseBoolean value (negb b) = parseBoolean value b
      <-> value <> EmptyString
          /\ (In (strings_ToLower value) truthy \/ In (strings_ToLower value) falsy))
  /\ (Strings_.all Byte_.is_ascii value = true ->
      strings_ToLower value = Strings_.map_bytes Strings_.lower_byte value)
  /\ (parseBoolean "TRUE" false = true /\ parseBoolean "Yes" false = true
      /\ parseBoolean "oN" false = true /\ parseBoolean "1" false = true
      /\ parseBoolean "False" true = false /\ parseBoolean "NO" true = false
      /\ parseBoolean "Off" true = false /\ parseBoolean "0" true = false
      /\ parseBoolean "maybe" b = b /\ parseBoolean "truee" b = b
      /\ parseBoolean " true" b = b).
Proof.
  split; [reflexivity|].
  split. { unfold parseInteger. destruct value; reflexivity. }
  split. { repeat split; vm_compute; reflexivity. }
  split; [intros n Hn; now apply parseInteger_itoa|].
  split; [reflexivity|].
  assert (Hdisj : forall x, In x truthy -> In x falsy -> False).
  { intros x Ht Hf. unfold truthy, falsy in *. cbn [In] in *.
    intuition (subst; discriminate). }
  split; [|split; [|split; [|split; [apply strings_ToLower_ascii|]]]].
  - intros Hne. rewrite parseBoolean_cases.
    destruct (Strings_.is_empty value) eqn:Ee; [apply is_empty_true in Ee; congruence|].
    split; intros Hin.
    + now rewrite bool_decide_eq_true_2.
    + rewrite bool_decide_eq_false_2 by eauto. now rewrite bool_decide_eq_true_2.
  - intros Ht Hf. rewrite parseBoolean_cases.
    destruct (Strings_.is_empty value); [reflexivity|].
    now rewrite !bool_decide_eq_false_2.
  - rewrite !parseBoolean_cases.
    destruct (Strings_.is_empty value) eqn:Ee.
    + apply is_empty_true in Ee. split; [destruct b; discriminate | tauto].
    + assert (value <> EmptyString) by (intros ->; discriminate).
      destruct (bool_decide_reflect (In (strings_ToLower value) truthy));
        [tauto|].
      destruct (bool_decide_reflect (In (strings_ToLower value) falsy));
        [tauto|].
      split; [destruct b; discriminate | tauto].
  - destruct b; repeat split; vm_compute; reflexivity.
Qed.

(** *** [strings.TrimSpace] on ASCII text *)

Lemma string_of_list_ascii_app (a b : list ascii) :
  string_of_list_ascii (a ++ b) = string_of_list_ascii a +:+ string_of_list_ascii b.
Proof.
  induction a as [|x a IH]; [reflexivity|].
  change (String x (string_of_list_ascii (a ++ b))
          = String x (string_of_list_ascii a +:+ string_of_list_ascii b)).
  now rewrite IH.
Qed.

Lemma list_ascii_of_string_app (a b : string) :
  list_ascii_of_string (a +:+ b) = (list_ascii_of_string a ++ list_ascii_of_string b)%list.
Proof.
  induction a as [|x a IH]; [reflexivity|].
  change (x :: list_ascii_of_string (a +:+ b)
          = x :: (list_ascii_of_string a ++ list_ascii_of_string b)%list).
  now rewrite IH.
Qed.

Lemma all_Forall (p : ascii -> bool) (s : string) :
  Strings_.all p s = true <-> List.Forall (fun c => p c = true) (list_ascii_of_string s).
Proof.
  induction s as [|c s IH]; cbn [Strings_.all list_ascii_of_string].
  - split; [constructor | reflexivity].
  - rewrite andb_true_iff, IH. split.
    + intros [? ?]. now constructor.
    + intros HF. inversion HF. auto.
Qed.

Lemma TrimSpace_stop_ascii `{Unicode} (rs : list ascii) :
  List.Forall (fun c => Byte_.is_ascii c = true) rs ->
  exists sp keep,
    rs = (sp ++ keep)%list
    /\ List.Forall (fun c => Strings_.asciiSpace c = true) sp
    /\ TrimSpace_stop rs = string_of_list_ascii (rev keep)
    /\ (forall c k, keep = c :: k -> Strings_.asciiSpace c = false).
Proof.
  induction 1 as [|c rs Hc _ IH].
  - exists [], []. repeat split; [constructor | discriminate].
  - cbn [TrimSpace_stop]. rewrite Hc. cbn [negb].
    destruct (Strings_.asciiSpace c) eqn:Hsp.
    + destruct IH as (sp & keep & -> & Hsps & Hstop & Hkeep).
      exists (c :: sp), keep. repeat split; auto.
    + exists [], (c :: rs). repeat split; [constructor|].
      intros c' k [= <- <-]. exact Hsp.
Qed.

(** On ASCII text [strings.TrimSpace] removes a run of white space at
    each end, and what it returns neither starts nor ends with white space. *)
Lemma strings_TrimSpace_ascii `{Unicode} (s : string) :
  Strings_.all Byte_.is_ascii s = true ->
  exists pre post,
    s = pre +:+ strings_TrimSpace s +:+ post
    /\ Strings_.all Strings_.asciiSpace pre = true
    /\ Strings_.all Strings_.asciiSpace post = true
    /\ (forall c r, strings_TrimSpace s = String c r -> Strings_.asciiSpace c = false)
    /\ (forall r c, strings_TrimSpace s = r +:+ String c EmptyString ->
                    Strings_.asciiSpace c = false).
Proof.
  induction s as [|c s IH]; intros Ha.
  - exists EmptyString, EmptyString. repeat split; try discriminate.
    intros [|? ?] ? ?; discriminate.
  - pose proof Ha as Ha'. cbn [Strings_.all] in Ha. apply andb_true_iff in Ha as [Hc Hs].
    cbn [strings_TrimSpace]. rewrite Hc. cbn [negb].
    destruct (Strings_.asciiSpace c) eqn:Hsp.
    + destruct (IH Hs) as (pre & post & E & Hpre & Hpost & Hfirst & Hlast).
      exists (String c pre), post. split; [|split; [|repeat split; auto]].
      * change (String c s = String c (pre +:+ strings_TrimSpace s +:+ post)).
        now rewrite <- E.
      * cbn [Strings_.all]. now rewrite Hsp, Hpre.
    + apply all_Forall in Ha'.
      destruct (TrimSpace_stop_ascii (rev (list_ascii_of_string (String c s))))
        as (sp & keep & Erev & Hsps & -> & Hkeep).
      { now apply List.Forall_rev. }
      assert (El : list_ascii_of_string (String c s) = (rev keep ++ rev sp)%list).
      { rewrite <- (rev_involutive (list_ascii_of_string (String c s))), Erev.
        apply rev_app_distr. }
      exists EmptyString, (string_of_list_ascii (rev sp)).
      split; [|split; [reflexivity | split; [|split]]].
      * change (String c s
                = string_of_list_ascii (rev keep) +:+ string_of_list_ascii (rev sp)).
        now rewrite <- string_of_list_ascii_app, <- El, string_of_list_ascii_of_string.
      * apply all_Forall. rewrite list_ascii_of_string_of_list_ascii.
        now apply List.Forall_rev.
      * intros c0 r0 E0. cbn [list_ascii_of_string] in El.
        destruct (rev keep) as [|x xs]; [discriminate E0|].
        cbn in E0, El. injection E0 as <- _. injection El as <- _. exact Hsp.
      * intros r0 c1 E1. apply (Hkeep c1 (rev (list_ascii_of_string r0))).
        rewrite <- (rev_involutive keep).
        rewrite <- (list_ascii_of_string_of_list_ascii (rev keep)), E1.
        rewrite list_ascii_of_string_app. cbn [list_ascii_of_string].
        now rewrite rev_app_distr.
Qed.

(** The loop of [parseArray] keeps, in order, the trimmed parts that are
    not empty. *)
Lemma parseArray_loop `{Unicode} (parts result : list string) :
  fold_left
    (fun result part =>
       let trimmed := strings_TrimSpace part in
       if negb (Strings_.is_empty trimmed) then append result trimmed else result)
    parts result
  = (result
     ++ List.filter (fun t => negb (Strings_.is_empty t)) (map strings_TrimSpace parts))%list.
Proof.
  revert result. induction parts as [|p ps IH]; intros result; cbn [fold_left map List.filter].
  - now rewrite app_nil_r.
  - rewrite IH. destruct (negb (Strings_.is_empty (strings_TrimSpace p))).
    + unfold append. now rewrite <- app_assoc.
    + reflexivity.
Qed.

Lemma parseArray_eq `{Unicode} (value : string) (d : list string) :
  parseArray value d
  = if Strings_.is_empty value then d
    else
      match List.filter (fun t => negb (Strings_.is_empty t))
              (map strings_TrimSpace (Strings_.Split value ",")) with
      | [] => d
      | result => result
      end.
Proof.
  unfold parseArray. destruct (Strings_.is_empty value); [reflexivity|].
  cbv zeta. rewrite parseArray_loop. cbn [app].
  destruct (List.filter _ _) as [|x xs]; [reflexivity|].
  cbn [length]. now rewrite (proj2 (Z.eqb_neq _ _)) by lia.
Qed.

(** C8, against the claim: when the default list is empty, an input of
    blanks and commas gives an empty list, whatever the Unicode tables; and
    the default for API_KEYS is the empty list, so that API_KEYS set to
    blanks and commas configures no key at all. *)
Lemma parseArray_returns_an_empty_default :
  (forall U : Unicode, @parseArray U " , ," [] = [])
  /\ (forall U : Unicode, @parseArray U "," [] = [])
  /\ (forall U : Unicode, APIKeys (Keys (@loadConfig U {[ "API_KEYS" := " , ," ]})) = []).
Proof.
  split; [|split]; intros U; vm_compute; reflexivity.
Qed.

(** C8, as amended. The list parser returns the default on the empty
    string; otherwise it splits at the commas, trims each part and keeps the
    parts that are not empty, in order, and returns them unless none is
    left, in which case it returns the default list.  So the result is the
    default or a non-empty list of non-empty strings: it is never empty
    when the default is not empty, and with an empty default it is empty
    exactly when the input is empty or leaves nothing after trimming.
    "a, ,b" gives a and b, and an input of blanks and commas gives the
    default.  Trimming an ASCII part removes a run of white space at each
    of its ends and leaves a text that neither starts nor ends with white
    space. *)
Theorem parseArray_splits_trims_and_falls_back `{Unicode}
    (value : string) (d : list string) :
  parseArray EmptyString d = d
  /\ parseArray value d
     = (if Strings_.is_empty value then d
        else
          match List.filter (fun t => negb (Strings_.is_empty t))
                  (map strings_TrimSpace (Strings_.Split value ",")) with
          | [] => d
          | result => result
          end)
  /\ (parseArray value d = d
      \/ (parseArray value d <> []
          /\ Forall (fun x => x <> EmptyString) (parseArray value d)))
  /\ (d <> [] -> parseArray value d <> [])
  /\ (parseArray value [] = []
      <-> Strings_.is_empty value = true
          \/ List.filter (fun t => negb (Strings_.is_empty t))
               (map strings_TrimSpace (Strings_.Split value ",")) = [])
  /\ parseArray "a, ,b" d = ["a"; "b"]
  /\ parseArray " , ," d = d
  /\ parseArray "," d = d
  /\ parseArray " , ," ["*"] = ["*"]
  /\ parseArray "  https://a.example/v1 ,, https://b.example  " d
     = ["https://a.example/v1"; "https://b.example"]
  /\ (forall part,
        Strings_.all Byte_.is_ascii part = true ->
        exists pre post,
          part = pre +:+ strings_TrimSpace part +:+ post
          /\ Strings_.all Strings_.asciiSpace pre = true
          /\ Strings_.all Strings_.asciiSpace post = true
          /\ (forall c r, strings_TrimSpace part = String c r ->
                          Strings_.asciiSpace c = false)
          /\ (forall r c, strings_TrimSpace part = r +:+ String c EmptyString ->
                          Strings_.asciiSpace c = false)).
Proof.
  split; [reflexivity|]. split; [apply parseArray_eq|].
  split; [|split; [|split]].
  - rewrite parseArray_eq. destruct (Strings_.is_empty value); [now left|].
    destruct (List.filter _ _) as [|x xs] eqn:E; [now left|].
    right. split; [discriminate|]. rewrite <- E.
    apply List.Forall_forall. intros t Ht. apply filter_In in Ht as [_ Ht].
    intros ->. discriminate.
  - intros Hd. rewrite parseArray_eq. destruct (Strings_.is_empty value); [exact Hd|].
    destruct (List.filter _ _); [exact Hd | discriminate].
  - rewrite parseArray_eq. destruct (Strings_.is_empty value); [split; auto|].
    destruct (List.filter _ _) as [|x xs]; split; intros Hx; try reflexivity.
    + now right.
    + discriminate Hx.
    + destruct Hx as [Hx|Hx]; discriminate Hx.
  - split; [|split; [|split; [|split; [|split; [|apply strings_TrimSpace_ascii]]]]];
      vm_compute; reflexivity.
Qed.

(** ** Concurrent callers *)

Example run_two_callers :
  let st := run [0; 1; 0; 1; 1; 0; 0; 1; 1; 1; 1; 1]%nat (spawn three_upstreams [1; 2]%nat) in
  map observed (callers st) = [[0]; [1; 2]]
  /\ map (map BaseURL) (map returned (callers st))
     = [["https://a.example"]; ["https://b.example"; "https://c.example"]]
  /\ roundRobinCounter (shared st) = 3.
Proof. vm_compute. repeat split. Qed.

Lemma all_observed_insert_same (cs : list Caller) (i : nat) (c c' : Caller) :
  cs !! i = Some c -> observed c' = observed c ->
  all_observed (<[i := c']> cs) = all_observed cs.
Proof.
  intros Hc Ho. unfold all_observed. rewrite list_fmap_insert, Ho.
  rewrite list_insert_id; [reflexivity|]. now rewrite list_lookup_fmap, Hc.
Qed.

Lemma all_observed_insert_app (cs : list Caller) (i : nat) (c c' : Caller) (x : Z) :
  cs !! i = Some c -> observed c' = (observed c ++ [x])%list ->
  all_observed (<[i := c']> cs) ≡ₚ x :: all_observed cs.
Proof.
  revert i. induction cs as [|d cs IH]; intros i Hc Ho; [discriminate|].
  destruct i as [|i]; cbn in Hc.
  - injection Hc as ->. unfold all_observed. cbn. rewrite Ho, <- app_assoc. cbn.
    symmetry. apply Permutation_middle.
  - unfold all_observed in *. cbn. rewrite (IH i Hc Ho).
    symmetry. apply Permutation_middle.
Qed.

Lemma seq_S_perm {A} (f : nat -> A) (k : nat) :
  f k :: map f (seq 0 k) ≡ₚ map f (seq 0 (S k)).
Proof.
  rewrite seq_S, map_app. cbn. apply Permutation_cons_append.
Qed.

Lemma Forall2_insert_r {A B} (P : A -> B -> Prop) (l : list A) (k : list B)
    (i : nat) (x : A) (y : B) :
  Forall2 P l k -> l !! i = Some x -> P x y -> Forall2 P l (<[i := y]> k).
Proof.
  intros HF Hx HP. rewrite <- (list_insert_id l i x Hx). now apply Forall2_insert.
Qed.

Section interleaving.

Variable m0 : Manager.
Variable quotas : list nat.
Hypothesis many : 1 < Z.of_nat (length (BaseURLs (OpenAI (config m0)))).

Lemma index_selects (index : Z) :
  exists u,
    BaseURLs (OpenAI (config m0))
      !! Z.to_nat (index mod Z.of_nat (length (BaseURLs (OpenAI (config m0))))) = Some u.
Proof.
  apply lookup_lt_is_Some_2.
  pose proof (Z.mod_pos_bound index (Z.of_nat (length (BaseURLs (OpenAI (config m0)))))).
  lia.
Qed.

(** One step of one caller: the caller stays as described, the
    configuration is not written, and either nothing shared changes or the
    step is the atomic add, which observes the counter and adds one to it. *)
Lemma step_caller_inv (q : nat) (c c' : Caller) (m m' : Manager) :
  config m = config m0 ->
  caller_inv (OpenAI (config m0)) q c ->
  step c m = Some (c', m') ->
  caller_inv (OpenAI (config m0)) q c'
  /\ config m' = config m0
  /\ ((observed c' = observed c /\ m' = m)
      \/ (observed c' = (observed c ++ [uint64 (roundRobinCounter m)])%list
          /\ m' = set_roundRobinCounter m (uint64 (roundRobinCounter m + 1)))).
Proof.
  intros Hcfg Hinv Hstep. unfold step in Hstep. unfold caller_inv in Hinv.
  destruct (at_pc c) as [|cfg|cfg index|cfg|] eqn:Hpc.
  - destruct Hinv as (HF & Hq). destruct (todo c) as [|t] eqn:Ht; [discriminate|].
    injection Hstep as <- <-. split; [|split; [exact Hcfg | left; split; reflexivity]].
    unfold caller_inv. cbn. rewrite Hcfg. repeat split; auto. lia.
  - destruct Hinv as (-> & HF & Hq & Ht).
    cbv zeta in Hstep. rewrite (proj2 (Z.ltb_lt _ _) many) in Hstep.
    injection Hstep as <- <-. rewrite uint64_pred_succ.
    split; [|split; [exact Hcfg | right; split; reflexivity]].
    unfold caller_inv. cbn. split; [reflexivity|].
    exists (observed c). repeat split; auto.
  - destruct Hinv as (-> & seen & Ho & HF & Hq & Ht).
    cbv zeta in Hstep. destruct (index_selects index) as [u Hu]. rewrite Hu in Hstep.
    injection Hstep as <- <-. split; [|split; [exact Hcfg | left; split; reflexivity]].
    unfold caller_inv. cbn. exists seen, index. repeat split; auto.
    exists u. split; [exact Hu | reflexivity].
  - destruct Hinv as (seen & index & Ho & Hsel & HF & Hq & Ht).
    injection Hstep as <- <-. split; [|split; [exact Hcfg | left; split; reflexivity]].
    unfold caller_inv. cbn. rewrite Ho. split.
    + unfold append. apply Forall2_app; [exact HF|]. constructor; [exact Hsel | constructor].
    + rewrite length_app. cbn. lia.
  - destruct Hinv.
Qed.

Lemma sched_step_inv (st : System) (i : nat) :
  sys_inv m0 quotas st -> sys_inv m0 quotas (sched_step st i).
Proof.
  intros (Hcfg & Hcs & Hobs & Hctr). unfold sched_step.
  destruct (callers st !! i) as [c|] eqn:Hc; [|repeat split; assumption].
  destruct (step c (shared st)) as [[c' m']|] eqn:Hstep; [|repeat split; assumption].
  destruct (Forall2_lookup_r _ _ _ _ _ Hcs Hc) as (q & Hq & Hinv).
  destruct (step_caller_inv q c c' (shared st) m' Hcfg Hinv Hstep)
    as (Hinv' & Hcfg' & [[Ho ->]|[Ho ->]]).
  - unfold sys_inv. cbn [shared callers].
    rewrite (all_observed_insert_same _ _ _ _ Hc Ho).
    split; [exact Hcfg|]. split; [|split; assumption].
    eapply Forall2_insert_r; eauto.
  - pose proof (all_observed_insert_app _ _ _ _ _ Hc Ho) as Hperm.
    assert (Hlen : length (all_observed (<[i := c']> (callers st)))
                   = S (length (all_observed (callers st))))
      by (now rewrite Hperm).
    unfold sys_inv. cbn [shared callers set_roundRobinCounter config roundRobinCounter].
    split; [exact Hcfg|]. split; [eapply Forall2_insert_r; eauto|].
    rewrite Hlen. split.
    + rewrite Hperm, <- seq_S_perm, Hctr. apply perm_skip. exact Hobs.
    + unfold uint64 in *. rewrite Z.mod_mod by discriminate.
      rewrite <- Zplus_mod_idemp_l, Hctr, Zplus_mod_idemp_l. f_equal. lia.
Qed.

Lemma spawn_inv : sys_inv m0 quotas (spawn m0 quotas).
Proof.
  unfold sys_inv, spawn. cbn [shared callers]. split; [reflexivity|].
  assert (Hnil : all_observed
                   (map (fun q => {| todo := q; at_pc := AtEntry;
                                     observed := []; returned := [] |}) quotas) = []).
  { unfold all_observed. induction quotas as [|q qs IH]; [reflexivity | exact IH]. }
  rewrite Hnil. cbn. split; [|split; [reflexivity | f_equal; lia]].
  clear. induction quotas as [|q qs IH]; constructor; [|exact IH].
  unfold caller_inv. cbn. split; [constructor | reflexivity].
Qed.

Lemma run_inv (schedule : list nat) (st : System) :
  sys_inv m0 quotas st -> sys_inv m0 quotas (run schedule st).
Proof.
  revert st. induction schedule as [|i s IH]; intros st Hst; [exact Hst|].
  cbn [run fold_left]. apply IH, sched_step_inv, Hst.
Qed.

End interleaving.

(** *** Counting residues *)

Lemma map_seq_shift {A} (f : nat -> A) (a b k : nat) :
  map f (seq (a + b) k) = map (fun i => f (a + i)%nat) (seq b k).
Proof.
  revert b. induction k as [|k IH]; intros b; [reflexivity|].
  cbn [seq map]. f_equal. rewrite <- IH. f_equal. f_equal. lia.
Qed.

Lemma count_occ_one (x j : Z) :
  count_occ Z.eq_dec [x] j = if x =? j then 1%nat else 0%nat.
Proof.
  cbn. destruct (Z.eq_dec x j) as [->|Hne].
  - now rewrite Z.eqb_refl.
  - now rewrite (proj2 (Z.eqb_neq _ _) Hne).
Qed.

(** Among [0 .. r-1] the value [j] occurs once if [j < r], and not
    otherwise. *)
Lemma count_prefix (r : nat) (j : Z) :
  0 <= j ->
  count_occ Z.eq_dec (map Z.of_nat (seq 0 r)) j
  = if j <? Z.of_nat r then 1%nat else 0%nat.
Proof.
  intros Hj. induction r as [|r IH].
  { change (0%nat = if j <? 0 then 1%nat else 0%nat).
    now rewrite (proj2 (Z.ltb_ge j 0)) by lia. }
  rewrite seq_S, map_app, count_occ_app, IH. cbn [map Nat.add]. rewrite count_occ_one.
  destruct (j <? Z.of_nat r) eqn:E1; destruct (Z.of_nat r =? j) eqn:E2;
    destruct (j <? Z.of_nat (S r)) eqn:E3; try reflexivity;
    rewrite ?Z.ltb_lt, ?Z.ltb_ge, ?Z.eqb_eq, ?Z.eqb_neq in *; lia.
Qed.

(** Any [n] consecutive integers, from [a] on, hold each residue modulo
    [n] exactly once. *)
Lemma count_window (n a : nat) (j : Z) :
  0 <= j < Z.of_nat n ->
  count_occ Z.eq_dec
    (map (fun i => (Z.of_nat a + Z.of_nat i) mod Z.of_nat n) (seq 0 n)) j = 1%nat.
Proof.
  intros Hj. induction a as [|a IH].
  - rewrite (map_ext_in _ Z.of_nat).
    + rewrite count_prefix by lia. now rewrite (proj2 (Z.ltb_lt _ _)) by lia.
    + intros i Hi%in_seq. cbn [Z.of_nat Z.add]. apply Z.mod_small. lia.
  - pose proof (seq_S n 0) as E1. cbn [Nat.add] in E1.
    assert (E2 : seq 0 (S n) = 0%nat :: seq 1 n) by reflexivity.
    assert (Hc : count_occ Z.eq_dec
                   (map (fun i => (Z.of_nat a + Z.of_nat i) mod Z.of_nat n) (seq 0 (S n))) j
                 = S (if (Z.of_nat a + 0) mod Z.of_nat n =? j then 1%nat else 0%nat)).
    { rewrite E1, map_app, count_occ_app, IH. cbn [map]. rewrite count_occ_one.
      replace ((Z.of_nat a + Z.of_nat n) mod Z.of_nat n)
        with ((Z.of_nat a + 0) mod Z.of_nat n); [lia|].
      rewrite Z.add_0_r, <- (Z.add_mod_idemp_r (Z.of_nat a) (Z.of_nat n)) by lia.
      now rewrite Z.mod_same, Z.add_0_r by lia. }
    rewrite E2 in Hc. cbn [map] in Hc.
    change (?x :: ?l) with ([x] ++ l)%list in Hc. rewrite count_occ_app, count_occ_one in Hc.
    change 1%nat with (1 + 0)%nat in Hc at 1. rewrite (map_seq_shift _ 1 0 n) in Hc.
    rewrite (map_ext _ (fun i => (Z.of_nat (S a) + Z.of_nat i) mod Z.of_nat n)) in Hc
      by (intros i; f_equal; lia).
    cbn [Z.of_nat] in Hc. destruct (_ =? j); lia.
Qed.

(** [n * N] consecutive integers hold each residue modulo [n] exactly
    [N] times. *)
Lemma count_windows (n N a : nat) (j : Z) :
  0 <= j < Z.of_nat n ->
  count_occ Z.eq_dec
    (map (fun i => (Z.of_nat a + Z.of_nat i) mod Z.of_nat n) (seq 0 (N * n))) j = N.
Proof.
  intros Hj. induction N as [|N IH]; [reflexivity|].
  cbn [Nat.mul]. rewrite seq_app, map_app, count_occ_app, count_window by exact Hj.
  replace (0 + n)%nat with (n + 0)%nat by lia. rewrite (map_seq_shift _ n 0 (N * n)).
  rewrite (map_ext_in _ (fun i => (Z.of_nat a + Z.of_nat i) mod Z.of_nat n)).
  - now rewrite IH.
  - intros i _. rewrite Nat2Z.inj_add, Z.add_assoc, (Z.add_comm (Z.of_nat a)),
      <- Z.add_assoc, <- Z.add_mod_idemp_l, Z.mod_same, Z.add_0_l by lia.
    reflexivity.
Qed.

(** *** Executions that ran to completion *)

Lemma finished_callers (config0 : OpenAIConfig) (quotas : list nat) (cs : list Caller) :
  Forall2 (caller_inv config0) quotas cs ->
  Forall (fun c => todo c = 0%nat /\ at_pc c = AtEntry) cs ->
  Forall2 (fun q c => length (returned c) = q
                      /\ Forall2 (selects config0) (observed c) (returned c)) quotas cs
  /\ length (all_observed cs) = total quotas.
Proof.
  induction 1 as [|q c qs cs Hc _ IH]; intros Hfin.
  - split; [constructor | reflexivity].
  - inversion Hfin as [|? ? [Ht Hpc] Hfin']; subst.
    destruct (IH Hfin') as (IH1 & IH2).
    unfold caller_inv in Hc. rewrite Hpc, Ht in Hc. destruct Hc as (HF & Hq).
    split.
    + constructor; [|exact IH1]. split; [|exact HF].
      rewrite <- (Forall2_length _ _ _ HF). lia.
    + unfold all_observed in *. cbn [map concat total fold_right].
      rewrite length_app, IH2. unfold total. lia.
Qed.

(** Whatever the schedule, once every caller is done: the counter values
    observed are, in some order, the [T] values that follow the initial
    counter, modulo [2^64], where [T] is the number of calls; and every caller
    got, call by call, the entry its counter value selects. *)
Lemma interleaved_calls (m0 : Manager) (quotas schedule : list nat) :
  1 < Z.of_nat (length (BaseURLs (OpenAI (config m0)))) ->
  finished (run schedule (spawn m0 quotas)) ->
  all_observed (callers (run schedule (spawn m0 quotas)))
  ≡ₚ map (fun i => uint64 (roundRobinCounter m0 + Z.of_nat i)) (seq 0 (total quotas))
  /\ Forall2 (fun q c => length (returned c) = q
                         /\ Forall2 (selects (OpenAI (config m0))) (observed c) (returned c))
       quotas (callers (run schedule (spawn m0 quotas))).
Proof.
  intros Hn Hfin.
  destruct (run_inv m0 quotas Hn schedule _ (spawn_inv m0 quotas))
    as (_ & Hcs & Hobs & _).
  destruct (finished_callers _ _ _ Hcs Hfin) as (Hret & Hlen).
  rewrite Hlen in Hobs. split; assumption.
Qed.

(** Without wrap-around: [n * N] calls over [n >= 2] entries, started
    at a counter that leaves room for them below [2^64]. *)
Lemma interleaved_calls_balanced (m0 : Manager) (quotas schedule : list nat) (n N : nat) :
  length (BaseURLs (OpenAI (config m0))) = n ->
  (2 <= n)%nat ->
  0 <= roundRobinCounter m0 ->
  total quotas = (N * n)%nat ->
  roundRobinCounter m0 + Z.of_nat (N * n) <= 2 ^ 64 ->
  finished (run schedule (spawn m0 quotas)) ->
  NoDup (all_observed (callers (run schedule (spawn m0 quotas))))
  /\ (forall j, 0 <= j < Z.of_nat n ->
        times_selected (OpenAI (config m0)) j (callers (run schedule (spawn m0 quotas))) = N)
  /\ Forall2 (fun q c => length (returned c) = q
                         /\ Forall2 (selects (OpenAI (config m0))) (observed c) (returned c))
       quotas (callers (run schedule (spawn m0 quotas))).
Proof.
  intros Hlen Hn Hc0 Htot Hroom Hfin.
  destruct (interleaved_calls m0 quotas schedule) as (Hobs & Hret); [lia | exact Hfin |].
  rewrite Htot in Hobs.
  rewrite (map_ext_in _ (fun i => roundRobinCounter m0 + Z.of_nat i)) in Hobs.
  2:{ intros i Hi%in_seq. unfold uint64. apply Z.mod_small. lia. }
  split; [|split; [|exact Hret]].
  - rewrite Hobs. apply NoDup_fmap_2; [|apply NoDup_seq].
    intros i i' Hii. lia.
  - intros j Hj. unfold times_selected. rewrite Hlen.
    rewrite (Permutation_count_occ Z.eq_dec) in Hobs.
    erewrite (proj1 (Permutation_count_occ Z.eq_dec _ _)
                (Permutation_map _ (proj2 (Permutation_count_occ Z.eq_dec _ _) Hobs))).
    rewrite map_map.
    rewrite (map_ext _ (fun i => (Z.of_nat (Z.to_nat (roundRobinCounter m0)) + Z.of_nat i)
                                 mod Z.of_nat n))
      by (intros i; now rewrite Z2Nat.id).
    now apply count_windows.
Qed.

(** The only write to the shared manager is the atomic add: a step
    leaves the manager as it is, or it replaces the counter by the counter
    plus one (modulo [2^64]) and hands the caller the value the counter had. *)
Lemma step_writes_by_atomic_add_only (c c' : Caller) (m m' : Manager) :
  step c m = Some (c', m') ->
  (m' = m /\ observed c' = observed c)
  \/ (m' = set_roundRobinCounter m (atomic_AddUint64 (roundRobinCounter m) 1)
      /\ observed c' = (observed c ++ [uint64 (roundRobinCounter m)])%list).
Proof.
  unfold step. intros Hstep.
  destruct (at_pc c) as [|cfg|cfg index|cfg|].
  - destruct (todo c); [discriminate|]. injection Hstep as <- <-. now left.
  - cbv zeta in Hstep.
    destruct (1 <? Z.of_nat (length (BaseURLs cfg))).
    + injection Hstep as <- <-. right. split; [reflexivity|].
      cbn [observed]. unfold append. now rewrite uint64_pred_succ.
    + destruct (Z.of_nat (length (BaseURLs cfg)) =? 1);
        [destruct (BaseURLs cfg !! 0%nat)|]; injection Hstep as <- <-; now left.
  - cbv zeta in Hstep.
    destruct (BaseURLs cfg !! _); injection Hstep as <- <-; now left.
  - injection Hstep as <- <-. now left.
  - discriminate.
Qed.

(** C9, as amended. Callers run [GetOpenAIConfig] concurrently on a
    manager with three upstream URLs, the steps of their calls interleaved
    in any order and the add to the counter being one atomic step.  When
    [N] callers have made [3 * N] calls between them and the counter, which
    started at [c0 >= 0], had room for them ([c0 + 3 * N <= 2^64]), then no
    two calls observed the same counter value, each of the three entries was
    selected exactly [N] times, and each call returned the entry its counter
    value selects.  No step of a call writes the shared manager except the
    atomic add. *)
Theorem concurrent_round_robin_is_balanced
    (m0 : Manager) (quotas schedule : list nat) (N : nat) :
  length (BaseURLs (OpenAI (config m0))) = 3%nat ->
  0 <= roundRobinCounter m0 ->
  length quotas = N ->
  total quotas = (N * 3)%nat ->
  roundRobinCounter m0 + 3 * Z.of_nat N <= 2 ^ 64 ->
  finished (run schedule (spawn m0 quotas)) ->
  NoDup (all_observed (callers (run schedule (spawn m0 quotas))))
  /\ (forall j, 0 <= j < 3 ->
        times_selected (OpenAI (config m0)) j (callers (run schedule (spawn m0 quotas))) = N)
  /\ Forall2 (fun q c => length (returned c) = q
                         /\ Forall2 (selects (OpenAI (config m0))) (observed c) (returned c))
       quotas (callers (run schedule (spawn m0 quotas)))
  /\ (forall c c' m m',
        step c m = Some (c', m') ->
        (m' = m /\ observed c' = observed c)
        \/ (m' = set_roundRobinCounter m (atomic_AddUint64 (roundRobinCounter m) 1)
            /\ observed c' = (observed c ++ [uint64 (roundRobinCounter m)])%list)).
Proof.
  intros Hlen Hc0 _ Htot Hroom Hfin.
  destruct (interleaved_calls_balanced m0 quotas schedule 3 N) as (H1 & H2 & H3);
    auto; try lia.
  repeat split; auto. apply step_writes_by_atomic_add_only.
Qed.

Lemma concurrent_round_robin_is_balanced_witness :
  NoDup (all_observed
           (callers (run [0; 1; 0; 0; 1; 1; 0; 0; 0; 1; 0; 0; 1; 0; 1; 0; 0; 1; 0; 0;
                          1; 0; 0; 0]%nat
                       (spawn three_upstreams [4; 2]%nat))))
  /\ (forall j, 0 <= j < 3 ->
        times_selected (OpenAI (config three_upstreams)) j
          (callers (run [0; 1; 0; 0; 1; 1; 0; 0; 0; 1; 0; 0; 1; 0; 1; 0; 0; 1; 0; 0;
                         1; 0; 0; 0]%nat
                      (spawn three_upstreams [4; 2]%nat))) = 2%nat)
  /\ Forall2 (fun q c => length (returned c) = q
                         /\ Forall2 (selects (OpenAI (config three_upstreams)))
                              (observed c) (returned c))
       [4; 2]%nat
       (callers (run [0; 1; 0; 0; 1; 1; 0; 0; 0; 1; 0; 0; 1; 0; 1; 0; 0; 1; 0; 0;
                      1; 0; 0; 0]%nat
                   (spawn three_upstreams [4; 2]%nat))).
Proof.
  destruct (concurrent_round_robin_is_balanced three_upstreams [4; 2]%nat
              [0; 1; 0; 0; 1; 1; 0; 0; 0; 1; 0; 0; 1; 0; 1; 0; 0; 1; 0; 0; 1; 0; 0; 0]%nat
              2%nat) as (H1 & H2 & H3 & _); [| | | | | | repeat split; assumption].
  - reflexivity.
  - vm_compute. discriminate.
  - reflexivity.
  - reflexivity.
  - vm_compute. discriminate.
  - vm_compute. repeat constructor.
Defined.

(** *** Every system can run to completion *)

Lemma work_pending (cs : list Caller) :
  work cs <> 0%nat -> exists i c, cs !! i = Some c /\ work_of c <> 0%nat.
Proof.
  induction cs as [|c cs IH]; cbn [work]; [congruence|].
  intros Hw. destruct (Nat.eq_dec (work_of c) 0%nat) as [E|E].
  - destruct IH as (i & d & Hd & Hwd); [lia|].
    exists (S i), d. split; assumption.
  - exists 0%nat, c. split; [reflexivity | exact E].
Qed.

Lemma work_insert (cs : list Caller) (i : nat) (c c' : Caller) :
  cs !! i = Some c -> S (work_of c') = work_of c ->
  S (work (<[i := c']> cs)) = work cs.
Proof.
  revert i. induction cs as [|d cs IH]; intros i Hc Hw; [discriminate|].
  destruct i as [|i]; cbn in Hc.
  - injection Hc as ->. cbn [work insert list_insert]. lia.
  - change (<[S i := c']> (d :: cs)) with (d :: <[i := c']> cs). cbn [work].
    rewrite <- (IH i Hc Hw). lia.
Qed.

Lemma work_done (config0 : OpenAIConfig) (quotas : list nat) (cs : list Caller) :
  Forall2 (caller_inv config0) quotas cs ->
  work cs = 0%nat ->
  Forall (fun c => todo c = 0%nat /\ at_pc c = AtEntry) cs.
Proof.
  induction 1 as [|q c qs cs Hc _ IH]; intros Hw; constructor.
  - cbn [work] in Hw. unfold work_of, caller_inv in *.
    destruct (at_pc c); try (split; [lia | reflexivity]);
      [destruct Hc as (_ & _ & _ & ?) | destruct Hc as (_ & ? & _ & _ & _ & ?)
       | destruct Hc as (? & ? & _ & _ & _ & _ & ?) | destruct Hc]; lia.
  - apply IH. cbn [work] in Hw. lia.
Qed.

Section progress.

Variable m0 : Manager.
Variable quotas : list nat.
Hypothesis many : 1 < Z.of_nat (length (BaseURLs (OpenAI (config m0)))).

Lemma step_progress (q : nat) (c : Caller) (m : Manager) :
  caller_inv (OpenAI (config m0)) q c ->
  work_of c <> 0%nat ->
  exists c' m', step c m = Some (c', m') /\ S (work_of c') = work_of c.
Proof.
  unfold caller_inv, work_of, step. intros Hinv Hw.
  destruct (at_pc c) as [|cfg|cfg index|cfg|] eqn:Hpc.
  - destruct (todo c) as [|t] eqn:Ht; [lia|]. eexists _, _. split; [reflexivity|].
    cbn. lia.
  - destruct Hinv as (-> & _ & _ & Ht). cbv zeta.
    rewrite (proj2 (Z.ltb_lt _ _) many). eexists _, _. split; [reflexivity|]. cbn. lia.
  - destruct Hinv as (-> & _ & _ & _ & _ & Ht). cbv zeta.
    destruct (index_selects m0 many index) as [u Hu]. rewrite Hu.
    eexists _, _. split; [reflexivity|]. cbn. lia.
  - destruct Hinv as (_ & _ & _ & _ & _ & _ & Ht).
    eexists _, _. split; [reflexivity|]. cbn. lia.
  - destruct Hinv.
Qed.

Lemma completing_schedule (k : nat) (st : System) :
  sys_inv m0 quotas st ->
  work (callers st) = k ->
  exists schedule, finished (run schedule st).
Proof.
  revert st. induction k as [|k IH]; intros st Hinv Hw.
  - exists []. destruct Hinv as (_ & Hcs & _). exact (work_done _ _ _ Hcs Hw).
  - destruct (work_pending (callers st)) as (i & c & Hc & Hwc); [lia|].
    pose proof Hinv as (_ & Hcs & _).
    destruct (Forall2_lookup_r _ _ _ _ _ Hcs Hc) as (q & _ & Hci).
    destruct (step_progress q c (shared st) Hci Hwc) as (c' & m' & Hstep & Hdec).
    destruct (IH (sched_step st i)) as [schedule Hfin].
    + now apply sched_step_inv.
    + unfold sched_step. rewrite Hc, Hstep. cbn [callers].
      pose proof (work_insert _ _ _ _ Hc Hdec). lia.
    + exists (i :: schedule). exact Hfin.
Qed.

End progress.

Lemma total_repeat (q N : nat) : total (repeat q N) = (N * q)%nat.
Proof.
  unfold total. induction N as [|N IH]; [reflexivity|].
  cbn [repeat fold_right]. rewrite IH. reflexivity.
Qed.

(** Past the wrap-around: [2^64 + 2] counter values from zero on, taken
    modulo [2^64] and then modulo 3, hold the residue 0 once more than a
    third of the time. *)
Lemma count_after_wrap (N : nat) :
  3 * Z.of_nat N = 2 ^ 64 + 2 ->
  count_occ Z.eq_dec
    (map (fun index => index mod 3)
       (map (fun i => uint64 (0 + Z.of_nat i)) (seq 0 (N * 3)))) 0
  = S N.
Proof.
  intros HN. destruct N as [|N]; [exfalso; revert HN; vm_compute; discriminate|].
  assert (H3N : Z.of_nat (N * 3) = 2 ^ 64 - 1) by lia.
  replace (S N * 3)%nat with (N * 3 + (1 + 2))%nat by lia.
  rewrite map_map, seq_app, map_app, count_occ_app. cbn [Nat.add].
  rewrite (map_ext_in _ (fun i => (Z.of_nat 0 + Z.of_nat i) mod Z.of_nat 3)).
  2:{ intros i Hi%in_seq. cbn [Z.of_nat Z.add]. unfold uint64.
      rewrite (Z.mod_small (Z.of_nat i)) by lia. reflexivity. }
  rewrite count_windows by (cbn; lia).
  cbn [seq map]. replace (Z.of_nat (S (N * 3))) with (2 ^ 64) by lia.
  replace (Z.of_nat (S (S (N * 3)))) with (2 ^ 64 + 1) by lia.
  rewrite H3N. vm_compute count_occ. lia.
Qed.

Lemma wrap_around_skews (N : nat) :
  3 * Z.of_nat N = 2 ^ 64 + 2 ->
  exists schedule,
    finished (run schedule (spawn three_upstreams (repeat 3%nat N)))
    /\ times_selected (OpenAI (config three_upstreams)) 0
         (callers (run schedule (spawn three_upstreams (repeat 3%nat N))))
       = S N.
Proof.
  intros HN.
  assert (many : 1 < Z.of_nat (length (BaseURLs (OpenAI (config three_upstreams)))))
    by (vm_compute; reflexivity).
  destruct (completing_schedule three_upstreams (repeat 3%nat N) many _ _
              (spawn_inv three_upstreams (repeat 3%nat N)) eq_refl)
    as [schedule Hfin].
  exists schedule. split; [exact Hfin|].
  destruct (interleaved_calls three_upstreams (repeat 3%nat N) schedule many Hfin)
    as (Hobs & _).
  rewrite total_repeat in Hobs. unfold times_selected.
  change (Z.of_nat (length (BaseURLs (OpenAI (config three_upstreams))))) with 3.
  change (roundRobinCounter three_upstreams) with 0 in Hobs.
  rewrite (proj1 (Permutation_count_occ Z.eq_dec _ _)
             (Permutation_map (fun index => index mod 3) Hobs)).
  now apply count_after_wrap.
Qed.

(** C9, against the claim: [6148914691236517206] callers making three
    calls each, [2^64 + 2] calls in all, on a fresh manager over three
    entries can run to completion, and the entry at index 0 has then been
    selected once more than there are callers. *)
Lemma concurrent_round_robin_skews_after_2_64_calls :
  exists schedule,
    length (repeat 3%nat (Z.to_nat 6148914691236517206)) = Z.to_nat 6148914691236517206
    /\ total (repeat 3%nat (Z.to_nat 6148914691236517206))
       = (Z.to_nat 6148914691236517206 * 3)%nat
    /\ roundRobinCounter three_upstreams = 0
    /\ finished (run schedule
                   (spawn three_upstreams (repeat 3%nat (Z.to_nat 6148914691236517206))))
    /\ times_selected (OpenAI (config three_upstreams)) 0
         (callers (run schedule
                     (spawn three_upstreams
                        (repeat 3%nat (Z.to_nat 6148914691236517206)))))
       = S (Z.to_nat 6148914691236517206).
Proof.
  destruct (wrap_around_skews (Z.to_nat 6148914691236517206)) as (schedule & Hfin & Hsel).
  - rewrite Z2Nat.id by discriminate. reflexivity.
  - exists schedule. split; [apply repeat_length|]. split; [apply total_repeat|].
    split; [reflexivity|]. split; assumption.
Qed.

(** A caller that runs alone makes exactly the call [GetOpenAIConfig]
    describes: same value returned, same manager afterwards; the counter
    value it observes is the one the manager held. *)
Lemma call_alone_is_GetOpenAIConfig (m m' : Manager) (r : OpenAIConfig)
    (t : nat) (obs : list Z) (rets : list OpenAIConfig) :
  GetOpenAIConfig m = Some (r, m') ->
  run (repeat 0%nat
         (if 1 <? Z.of_nat (length (BaseURLs (OpenAI (config m)))) then 4 else 3))
    {| shared := m;
       callers := [{| todo := S t; at_pc := AtEntry; observed := obs; returned := rets |}] |}
  = {| shared := m';
       callers :=
         [{| todo := t; at_pc := AtEntry;
             observed :=
               if 1 <? Z.of_nat (length (BaseURLs (OpenAI (config m))))
               then (obs ++ [uint64 (roundRobinCounter m)])%list else obs;
             returned := (rets ++ [r])%list |}] |}.
Proof.
  intros Hg.
  destruct (1 <? Z.of_nat (length (BaseURLs (OpenAI (config m))))) eqn:Hn.
  - apply Z.ltb_lt in Hn.
    destruct (GetOpenAIConfig_many m Hn) as (u & Hu & _ & Hg').
    rewrite Hg' in Hg. injection Hg as <- <-.
    unfold run. cbn [repeat fold_left].
    unfold sched_step at 4. cbn [callers lookup list_lookup shared step at_pc todo].
    unfold sched_step at 3. cbn [callers lookup list_lookup shared step at_pc todo
                                   observed returned insert list_insert].
    rewrite (proj2 (Z.ltb_lt _ _) Hn).
    unfold sched_step at 2. cbn [callers lookup list_lookup shared step at_pc todo
                                   observed returned insert list_insert].
    rewrite uint64_pred_succ, Hu.
    unfold sched_step. cbn [callers lookup list_lookup shared step at_pc todo
                              observed returned insert list_insert pred].
    reflexivity.
  - unfold GetOpenAIConfig in Hg. rewrite Hn in Hg.
    unfold run. cbn [repeat fold_left].
    unfold sched_step at 3. cbn [callers lookup list_lookup shared step at_pc todo].
    unfold sched_step at 2. cbn [callers lookup list_lookup shared step at_pc todo
                                   observed returned insert list_insert].
    rewrite Hn.
    destruct (Z.of_nat (length (BaseURLs (OpenAI (config m)))) =? 1) eqn:H1.
    + unfold bind, slice_index in Hg. change (Z.to_nat 0) with 0%nat in Hg.
      destruct (BaseURLs (OpenAI (config m)) !! 0%nat) as [u|] eqn:Hu; [|discriminate].
      cbn in Hg. injection Hg as <- <-.
      unfold sched_step. cbn [callers lookup list_lookup shared step at_pc todo
                                observed returned insert list_insert pred].
      reflexivity.
    + injection Hg as <- <-.
      unfold sched_step. cbn [callers lookup list_lookup shared step at_pc todo
                                observed returned insert list_insert pred].
      reflexivity.
Qed.

(** ** Further properties of the manager *)

Lemma parseArray_nonempty `{Unicode} (value : string) (d : list string) :
  d <> [] -> parseArray value d <> [].
Proof.
  intros Hd. rewrite parseArray_eq. destruct (Strings_.is_empty value); [exact Hd|].
  destruct (List.filter _ _); [exact Hd | discriminate].
Qed.

(** X1. Whatever the environment, the configuration [NewManager] assembles
    has at least one upstream URL: an OPENAI_BASE_URL that is unset, empty
    or made of blanks and commas gives the default URL, so the check for an
    empty upstream list never fails a configuration read from the
    environment. *)
Theorem loadConfig_has_an_upstream `{Unicode} (env : Env) :
  BaseURLs (OpenAI (loadConfig env)) <> []
  /\ ~ In msg_noUpstream
       (validationErrors {| config := loadConfig env; roundRobinCounter := 0 |})
  /\ BaseURLs (OpenAI (loadConfig ∅)) = ["https://api.openai.com"]
  /\ BaseURLs (OpenAI (loadConfig {[ "OPENAI_BASE_URL" := " , ," ]}))
     = ["https://api.openai.com"].
Proof.
  assert (Hne : BaseURLs (OpenAI (loadConfig env)) <> [])
    by (apply parseArray_nonempty; discriminate).
  split; [exact Hne|]. split; [|split; vm_compute; reflexivity].
  rewrite validationErrors_checks, !in_app_iff.
  unfold port_errors, startIndex_errors, blacklist_errors, timeout_errors,
    noUpstream_errors, performance_errors.
  rewrite !when_In, url_errors_In.
  intros [[_ Hx]|[[_ Hx]|[[_ Hx]|[[_ Hx]|[[Hlen _]|[(u & _ & _ & Hx)|[_ Hx]]]]]]];
    try discriminate Hx.
  apply Z.eqb_eq in Hlen. cbn [config] in Hlen.
  destruct (BaseURLs (OpenAI (loadConfig env))); [congruence | discriminate Hlen].
Qed.

(** X3. With no variable set, [NewManager] succeeds and the manager holds
    the documented defaults, with the counter at zero. *)
Theorem NewManager_defaults `{Unicode} :
  NewManager ∅
  = inr {| config := {|
             Server := {| Port := 7860; Host := "0.0.0.0"; ReadTimeout := 120;
                          WriteTimeout := 1800; IdleTimeout := 120;
                          GracefulShutdownTimeout := 60 |};
             Keys := {| APIKeys := []; StartIndex := 0; BlacklistThreshold := 1;
                        MaxRetries := 3 |};
             OpenAI := {| BaseURL := EmptyString; BaseURLs := ["https://api.openai.com"];
                          RequestTimeout := 30; ResponseTimeout := 30;
                          IdleConnTimeout := 120 |};
             Auth := {| Key := EmptyString; Enabled := false |};
             CORS := {| CORSEnabled := true; AllowedOrigins := ["*"];
                        AllowedMethods := ["GET"; "POST"; "PUT"; "DELETE"; "OPTIONS"];
                        AllowedHeaders := ["*"]; AllowCredentials := false |};
             Performance := {| MaxConcurrentRequests := 100; EnableGzip := true |};
             Log := {| Level := "info"; Format := "text"; EnableFile := false;
                       FilePath := "logs/app.log"; EnableRequest := true |} |};
           roundRobinCounter := 0 |}.
Proof. vm_compute. reflexivity. Qed.


(** X5. The selection never blocks: callers of a manager with at least
    two upstream URLs can always run to completion, whatever their number
    and the number of calls each has to make; and while a caller has work
    left, its next step is enabled whatever the others are doing. *)
Theorem callers_can_always_complete (m0 : Manager) (quotas : list nat) :
  1 < Z.of_nat (length (BaseURLs (OpenAI (config m0)))) ->
  (exists schedule, finished (run schedule (spawn m0 quotas)))
  /\ (forall c m,
        (exists c' m', step c m = Some (c', m'))
        \/ (at_pc c = AtEntry /\ todo c = 0%nat)
        \/ at_pc c = Panicked).
Proof.
  intros many. split.
  - exact (completing_schedule m0 quotas many _ _ (spawn_inv m0 quotas) eq_refl).
  - intros c m. unfold step.
    destruct (at_pc c) as [|cfg|cfg index|cfg|]; [| | | |now right; right].
    + destruct (todo c); [right; left; split; reflexivity | left; eauto].
    + left. cbv zeta. destruct (1 <? _); [eauto|].
      destruct (_ =? 1); [destruct (BaseURLs cfg !! 0%nat)|]; eauto.
    + left. cbv zeta. destruct (BaseURLs cfg !! _); eauto.
    + left. eauto.
Qed.

Lemma callers_can_always_complete_witness :
  exists schedule, finished (run schedule (spawn three_upstreams [2; 0; 1]%nat)).
Proof.
  apply (callers_can_always_complete three_upstreams [2; 0; 1]%nat).
  vm_compute. reflexivity.
Defined.

(** ** Windows of calls *)

Lemma select_set_BaseURL (cfg : OpenAIConfig) (index : Z) (u : string) :
  BaseURLs cfg !! Z.to_nat (index mod Z.of_nat (length (BaseURLs cfg))) = Some u ->
  select cfg index = set_BaseURL cfg u.
Proof. intros E. unfold select. now rewrite E. Qed.

(** [k] calls in a row over at least two entries: the values returned
    are the entries selected by the [k] counter values from the current one
    on, and the counter has advanced by [k]. *)
Lemma calls_many (k : nat) (m : Manager) :
  1 < Z.of_nat (length (BaseURLs (OpenAI (config m)))) ->
  calls k m
  = Some (map (fun i => select (OpenAI (config m)) (uint64 (roundRobinCounter m + Z.of_nat i)))
            (seq 0 k),
          match k with
          | O => m
          | S _ => set_roundRobinCounter m (uint64 (roundRobinCounter m + Z.of_nat k))
          end).
Proof.
  revert m. induction k as [|k IH]; intros m Hn; [reflexivity|].
  destruct (GetOpenAIConfig_many m Hn) as (u & Hu & _ & Hg).
  cbn [calls]. unfold bind at 1. rewrite Hg. unfold bind at 1.
  rewrite (IH (set_roundRobinCounter m (uint64 (roundRobinCounter m + 1)))) by exact Hn.
  cbn [set_roundRobinCounter config roundRobinCounter]. unfold ret. f_equal. f_equal.
  - cbn [seq map]. f_equal.
    + rewrite Z.add_0_r. symmetry. now apply select_set_BaseURL.
    + change (seq 1 k) with (seq (1 + 0) k). rewrite (map_seq_shift _ 1 0 k).
      apply map_ext. intros i. f_equal.
      unfold uint64. rewrite Zplus_mod_idemp_l. f_equal. lia.
  - destruct k as [|k]; [reflexivity|].
    unfold set_roundRobinCounter. cbn [config]. f_equal.
    unfold uint64. rewrite Zplus_mod_idemp_l. f_equal. lia.
Qed.

Lemma rotate_perm {A} (c : nat) (l : list A) : rotate c l ≡ₚ l.
Proof.
  unfold rotate. rewrite Permutation_app_comm. now rewrite take_drop.
Qed.

Lemma rotate_0 {A} (l : list A) : rotate 0 l = l.
Proof.
  unfold rotate. rewrite Nat.Div0.mod_0_l. cbn [drop take]. apply app_nil_r.
Qed.

Lemma map_BaseURL_set (cfg : OpenAIConfig) (l : list string) :
  map BaseURL (map (set_BaseURL cfg) l) = l.
Proof. rewrite map_map. cbn [set_BaseURL BaseURL]. apply map_id. Qed.

(** As long as the counter does not wrap, the counter values of a window
    as long as the list select the list rotated by the first of them. *)
Lemma window_is_rotation (cfg : OpenAIConfig) (c : Z) :
  0 <= c ->
  c + Z.of_nat (length (BaseURLs cfg)) <= 2 ^ 64 ->
  map (fun i => select cfg (uint64 (c + Z.of_nat i))) (seq 0 (length (BaseURLs cfg)))
  = map (set_BaseURL cfg) (rotate (Z.to_nat c) (BaseURLs cfg)).
Proof.
  intros Hc Hroom. apply list_eq. intros i.
  change (map ?f ?l) with (f <$> l). rewrite !list_lookup_fmap.
  destruct (decide (i < length (BaseURLs cfg))%nat) as [Hi|Hi].
  - rewrite lookup_seq_lt by exact Hi. rewrite lookup_rotate_r by exact Hi.
    unfold rotate_nat_add. rewrite Z2Nat.id by lia. cbn [fmap option_fmap option_map Nat.add].
    unfold select, uint64. rewrite (Z.mod_small (c + Z.of_nat i)) by lia.
    destruct (BaseURLs cfg !! _) as [u|] eqn:E; [reflexivity|].
    apply lookup_ge_None in E.
    pose proof (Z.mod_pos_bound (c + Z.of_nat i) (Z.of_nat (length (BaseURLs cfg)))).
    lia.
  - rewrite lookup_seq_ge by lia.
    rewrite (lookup_ge_None_2 (rotate _ _)) by (rewrite length_rotate; lia).
    reflexivity.
Qed.

(** X6. A window of [n] consecutive calls over [n >= 2] upstream URLs,
    started at any counter value that leaves room for them below [2^64],
    returns every URL exactly once: the list rotated by the counter.  From a
    counter at zero the URLs come in the order of the list. *)
Theorem window_of_calls_is_a_rotation (m : Manager) :
  1 < Z.of_nat (length (BaseURLs (OpenAI (config m)))) ->
  0 <= roundRobinCounter m ->
  roundRobinCounter m + Z.of_nat (length (BaseURLs (OpenAI (config m)))) <= 2 ^ 64 ->
  exists rs m',
    calls (length (BaseURLs (OpenAI (config m)))) m = Some (rs, m')
    /\ rs = map (set_BaseURL (OpenAI (config m)))
              (rotate (Z.to_nat (roundRobinCounter m)) (BaseURLs (OpenAI (config m))))
    /\ map BaseURL rs ≡ₚ BaseURLs (OpenAI (config m))
    /\ (roundRobinCounter m = 0 -> map BaseURL rs = BaseURLs (OpenAI (config m)))
    /\ config m' = config m
    /\ roundRobinCounter m'
       = uint64 (roundRobinCounter m + Z.of_nat (length (BaseURLs (OpenAI (config m))))).
Proof.
  intros Hn Hc Hroom. rewrite (calls_many _ m Hn).
  rewrite (window_is_rotation _ _ Hc Hroom).
  eexists _, _. split; [reflexivity|]. split; [reflexivity|].
  rewrite map_BaseURL_set. split; [apply rotate_perm|]. split.
  - intros ->. apply rotate_0.
  - destruct (length (BaseURLs (OpenAI (config m)))) eqn:E; [cbn in Hn; lia|].
    split; reflexivity.
Qed.

Lemma window_of_calls_is_a_rotation_witness :
  exists rs m',
    calls 3 (set_roundRobinCounter three_upstreams 7) = Some (rs, m')
    /\ map BaseURL rs = ["https://b.example"; "https://c.example"; "https://a.example"]
    /\ roundRobinCounter m' = 10.
Proof.
  destruct (window_of_calls_is_a_rotation (set_roundRobinCounter three_upstreams 7))
    as (rs & m' & Hcalls & -> & _ & _ & _ & Hctr).
  - vm_compute. reflexivity.
  - vm_compute. discriminate.
  - vm_compute. discriminate.
  - eexists. exists m'. split; [exact Hcalls|]. split; [reflexivity | exact Hctr].
Defined.

(** X7. When the number of upstream URLs divides [2^64] (two URLs, four,
    any power of two), the wrap-around of the counter is invisible: from
    any counter value [c], the [k]-th call returns the entry at index
    [(c + k - 1) mod n], for every [k >= 1]. *)
Theorem round_robin_is_exact_when_length_divides_2_64 (m : Manager) (k : nat) :
  1 < Z.of_nat (length (BaseURLs (OpenAI (config m)))) ->
  Z.divide (Z.of_nat (length (BaseURLs (OpenAI (config m))))) (2 ^ 64) ->
  (1 <= k)%nat ->
  exists u,
    BaseURLs (OpenAI (config m))
      !! Z.to_nat ((roundRobinCounter m + Z.of_nat k - 1)
                   mod Z.of_nat (length (BaseURLs (OpenAI (config m))))) = Some u
    /\ kth_call k m = Some (set_BaseURL (OpenAI (config m)) u).
Proof.
  intros Hn Hdiv Hk.
  destruct (kth_call_many k m Hn Hk) as (u & Hu & Hcall).
  exists u. split; [|exact Hcall].
  unfold uint64 in Hu. rewrite (Z.mod_mod_divide _ _ _ Hdiv) in Hu. exact Hu.
Qed.

Lemma round_robin_is_exact_when_length_divides_2_64_witness :
  exists u,
    ["https://a.example"; "https://b.example"]
      !! Z.to_nat ((2 ^ 64 - 1 + Z.of_nat 3 - 1) mod Z.of_nat 2) = Some u
    /\ kth_call 3
         (set_roundRobinCounter
            (manager_of 7860 0 120 1800 120 ["https://a.example"; "https://b.example"])
            (2 ^ 64 - 1))
       = Some (set_BaseURL
                 (OpenAI (config (manager_of 7860 0 120 1800 120
                                    ["https://a.example"; "https://b.example"]))) u).
Proof.
  apply (round_robin_is_exact_when_length_divides_2_64
           (set_roundRobinCounter
              (manager_of 7860 0 120 1800 120 ["https://a.example"; "https://b.example"])
              (2 ^ 64 - 1)) 3).
  - vm_compute. reflexivity.
  - exists (2 ^ 63). vm_compute. reflexivity.
  - lia.
Defined.

(** ** Concurrent calls against calls in a row *)

Lemma selects_select (cfg : OpenAIConfig) (obs : list Z) (rets : list OpenAIConfig) :
  Forall2 (selects cfg) obs rets -> rets = map (select cfg) obs.
Proof.
  induction 1 as [|i r obs rets (u & Hu & ->) _ IH]; [reflexivity|].
  cbn [map]. rewrite (select_set_BaseURL _ _ _ Hu). now f_equal.
Qed.

Lemma all_returned_select (cfg : OpenAIConfig) (quotas : list nat) (cs : list Caller) :
  Forall2 (fun q c => length (returned c) = q
                      /\ Forall2 (selects cfg) (observed c) (returned c)) quotas cs ->
  all_returned cs = map (select cfg) (all_observed cs).
Proof.
  unfold all_returned, all_observed.
  induction 1 as [|q c qs cs [_ Hc] _ IH]; [reflexivity|].
  cbn [map concat]. rewrite map_app. f_equal; [now apply selects_select | exact IH].
Qed.

(** The counter stays a [uint64] along every execution. *)
Lemma run_counter_in_range (schedule : list nat) (st : System) :
  0 <= roundRobinCounter (shared st) < 2 ^ 64 ->
  0 <= roundRobinCounter (shared (run schedule st)) < 2 ^ 64.
Proof.
  revert st. induction schedule as [|i s IH]; intros st Hst; [exact Hst|].
  cbn [run fold_left]. apply IH. unfold sched_step.
  destruct (callers st !! i) as [c|]; [|exact Hst].
  destruct (step c (shared st)) as [[c' m']|] eqn:E; [|exact Hst].
  cbn [shared].
  destruct (step_writes_by_atomic_add_only _ _ _ _ E) as [[-> _]|[-> _]]; [exact Hst|].
  cbn [set_roundRobinCounter roundRobinCounter]. unfold atomic_AddUint64, uint64.
  apply Z.mod_pos_bound. reflexivity.
Qed.

(** X8. Concurrent use is equivalent to sequential use.  When callers
    running [GetOpenAIConfig] concurrently over at least two upstream URLs
    have all completed, whatever the interleaving of their steps, the values
    they got are, in some order, exactly the values the same number of calls
    made one after the other would have returned, and the shared manager is
    the manager those calls would have left behind. *)
Theorem concurrent_calls_are_linearizable (m0 : Manager) (quotas schedule : list nat) :
  1 < Z.of_nat (length (BaseURLs (OpenAI (config m0)))) ->
  0 <= roundRobinCounter m0 < 2 ^ 64 ->
  finished (run schedule (spawn m0 quotas)) ->
  exists rs,
    calls (total quotas) m0 = Some (rs, shared (run schedule (spawn m0 quotas)))
    /\ all_returned (callers (run schedule (spawn m0 quotas))) ≡ₚ rs.
Proof.
  intros Hn Hc Hfin.
  destruct (run_inv m0 quotas Hn schedule _ (spawn_inv m0 quotas))
    as (Hcfg & Hcs & Hobs & Hctr).
  destruct (finished_callers _ _ _ Hcs Hfin) as (Hret & Hlen).
  rewrite Hlen in Hobs, Hctr.
  pose proof (run_counter_in_range schedule (spawn m0 quotas) Hc) as Hrange.
  assert (Hm : match total quotas with
               | O => m0
               | S _ => set_roundRobinCounter m0
                          (uint64 (roundRobinCounter m0 + Z.of_nat (total quotas)))
               end = shared (run schedule (spawn m0 quotas))).
  { destruct (shared (run schedule (spawn m0 quotas))) as [cfg' c'].
    cbn [config roundRobinCounter] in Hcfg, Hctr, Hrange. subst cfg'.
    unfold uint64 in Hctr. rewrite (Z.mod_small c') in Hctr by exact Hrange. subst c'.
    destruct (total quotas) as [|t]; [|reflexivity].
    destruct m0 as [cfg0 c0]. cbn [config roundRobinCounter] in *.
    f_equal. rewrite Z.add_0_r. symmetry. now apply Z.mod_small. }
  rewrite (calls_many _ m0 Hn), Hm. eexists. split; [reflexivity|].
  rewrite (all_returned_select _ _ _ Hret).
  rewrite <- (map_map (fun i => uint64 (roundRobinCounter m0 + Z.of_nat i))
                (select (OpenAI (config m0)))).
  apply Permutation_map. exact Hobs.
Qed.

Lemma concurrent_calls_are_linearizable_witness :
  exists rs,
    calls 6 three_upstreams
    = Some (rs, shared (run [0; 1; 0; 0; 1; 1; 0; 0; 0; 1; 0; 0; 1; 0; 1; 0; 0; 1; 0; 0;
                             1; 0; 0; 0]%nat
                          (spawn three_upstreams [4; 2]%nat)))
    /\ all_returned
         (callers (run [0; 1; 0; 0; 1; 1; 0; 0; 0; 1; 0; 0; 1; 0; 1; 0; 0; 1; 0; 0;
                        1; 0; 0; 0]%nat
                     (spawn three_upstreams [4; 2]%nat))) ≡ₚ rs.
Proof.
  apply (concurrent_calls_are_linearizable three_upstreams [4; 2]%nat
           [0; 1; 0; 0; 1; 1; 0; 0; 0; 1; 0; 0; 1; 0; 1; 0; 0; 1; 0; 0; 1; 0; 0; 0]%nat).
  - vm_compute. reflexivity.
  - vm_compute. split; [discriminate | reflexivity].
  - vm_compute. repeat constructor.
Defined.

(** ** The accessors *)

Lemma GetOpenAIConfig_keeps_config (m : Manager) :
  exists r m', GetOpenAIConfig m = Some (r, m') /\ config m' = config m.
Proof.
  destruct (BaseURLs (OpenAI (config m))) as [|u us] eqn:E.
  - exists (OpenAI (config m)), m. unfold GetOpenAIConfig. rewrite E. split; reflexivity.
  - destruct (GetOpenAIConfig_selects_member m) as (u' & m' & Hg & _ & Hc); [congruence|].
    eauto.
Qed.

Lemma invoke_all_cons (f : Method) (fs : list Method) (m : Manager) :
  invoke_all (f :: fs) m
  = match invoke f m with
    | Some (r, m1) =>
        match invoke_all fs m1 with
        | Some (rs, m2) => Some (r :: rs, m2)
        | None => None
        end
    | None => None
    end.
Proof. reflexivity. Qed.

Lemma calls_S (k : nat) (m : Manager) :
  calls (S k) m
  = match GetOpenAIConfig m with
    | Some (c, m1) =>
        match calls k m1 with
        | Some (cs, m2) => Some (c :: cs, m2)
        | None => None
        end
    | None => None
    end.
Proof. reflexivity. Qed.

(** A method other than [GetOpenAIConfig] returns, leaves the manager as
    it is, and its result is a function of the configuration alone. *)
Lemma invoke_other (f : Method) (m : Manager) :
  is_GetOpenAIConfig f = false ->
  exists r,
    invoke f m = Some (r, m)
    /\ (forall rs, upstream_results (r :: rs) = upstream_results rs)
    /\ (forall m2, config m2 = config m -> invoke f m2 = Some (r, m2)).
Proof.
  intros Hf.
  destruct f; try discriminate Hf;
    (eexists; split; [reflexivity|]; split; [reflexivity|]; intros m2 Hc;
     cbn [invoke]; unfold bind, ret, GetServerConfig, GetKeysConfig, GetAuthConfig,
       GetCORSConfig, GetPerformanceConfig, GetLogConfig, Validate, validationErrors,
       DisplayConfig;
     rewrite Hc; reflexivity).
Qed.

(** X9. Of all the methods of the manager only [GetOpenAIConfig] changes
    it, and that only in its counter.  In any sequence of method calls every
    call returns; the upstream configurations handed out are those the
    calls to [GetOpenAIConfig] alone would have produced, so reads in
    between never disturb the rotation; and every other method returns what
    it would have returned on the manager as it was at the start. *)
Theorem only_GetOpenAIConfig_changes_the_manager (fs : list Method) (m : Manager) :
  exists rs m',
    invoke_all fs m = Some (rs, m')
    /\ length rs = length fs
    /\ config m' = config m
    /\ calls (length (List.filter is_GetOpenAIConfig fs)) m = Some (upstream_results rs, m')
    /\ (forall i f r,
          fs !! i = Some f -> rs !! i = Some r -> is_GetOpenAIConfig f = false ->
          invoke f m = Some (r, m)).
Proof.
  revert m. induction fs as [|f fs IH]; intros m.
  - exists [], m. repeat split. intros i f r Hf. destruct i; discriminate Hf.
  - destruct (is_GetOpenAIConfig f) eqn:Hf.
    + destruct f; try discriminate Hf.
      destruct (GetOpenAIConfig_keeps_config m) as (r & m1 & Hg & Hc1).
      destruct (IH m1) as (rs & m' & Hall & Hlen & Hc & Hcalls & Hothers).
      exists (OfOpenAI r :: rs), m'. rewrite invoke_all_cons.
      cbn [List.filter is_GetOpenAIConfig length upstream_results].
      rewrite calls_S. cbn [invoke]. unfold bind at 1. rewrite Hg.
      unfold ret. rewrite Hall, Hcalls.
      split; [reflexivity|]. split; [cbn [length]; congruence|].
      split; [congruence|]. split; [reflexivity|].
      intros [|i] f r' Hi Hr Hnot; cbn in Hi, Hr.
      * injection Hi as <-. discriminate Hnot.
      * destruct (invoke_other f m Hnot) as (r0 & Hm & _ & Hsame).
        pose proof (Hothers i f r' Hi Hr Hnot) as Hm1.
        rewrite (Hsame m1 Hc1) in Hm1. injection Hm1 as <-. exact Hm.
    + destruct (invoke_other f m Hf) as (r & Hm & Hup & _).
      destruct (IH m) as (rs & m' & Hall & Hlen & Hc & Hcalls & Hothers).
      exists (r :: rs), m'. rewrite invoke_all_cons, Hm, Hall, Hup.
      cbn [List.filter]. rewrite Hf.
      split; [reflexivity|]. split; [cbn [length]; congruence|].
      split; [exact Hc|]. split; [exact Hcalls|].
      intros [|i] f' r' Hi Hr Hnot; cbn in Hi, Hr.
      * injection Hi as <-. injection Hr as <-. exact Hm.
      * exact (Hothers i f' r' Hi Hr Hnot).
Qed.

(** ** What [Validate] reads and what [DisplayConfig] shows *)

(** X10. [Validate] reads six fields and nothing else: the port, the
    start index, the blacklist threshold, the request timeout, the upstream
    list and the number of concurrent requests.  Two configurations that
    agree on them get the same verdict, whatever their other fields hold. *)
Theorem Validate_reads_six_fields (m1 m2 : Manager) :
  validated_fields m1 = validated_fields m2 -> Validate m1 = Validate m2.
Proof.
  unfold validated_fields. intros [= H1 H2 H3 H4 H5 H6].
  unfold Validate, validationErrors. now rewrite H1, H2, H3, H4, H5, H6.
Qed.

Lemma Validate_reads_six_fields_witness : Validate in_order_where_checked = None.
Proof.
  rewrite (Validate_reads_six_fields in_order_where_checked
             (manager_of 7860 0 120 1800 120 ["https://api.openai.com"]) eq_refl).
  vm_compute. reflexivity.
Defined.

(** X11. [DisplayConfig] shows no secret: of the API keys it prints their
    number, of the authentication key whether authentication is enabled.
    Two configurations that differ only in fields it does not print, the
    keys among them, give the same lines. *)
Theorem DisplayConfig_shows_no_secret (m1 m2 : Manager) :
  displayed_fields m1 = displayed_fields m2 -> DisplayConfig m1 = DisplayConfig m2.
Proof.
  unfold displayed_fields.
  intros [= H1 H2 H3 H4 H5 H6 H7 H8 H9 H10 H11 H12 H13 H14 H15].
  unfold DisplayConfig.
  now rewrite H1, H2, H3, H4, H5, H6, H7, H8, H9, H10, H11, H12, H13, H14, H15.
Qed.

Lemma DisplayConfig_shows_no_secret_witness :
  DisplayConfig (with_secrets ["sk-first"; "sk-second"] "letmein")
  = DisplayConfig (with_secrets ["1"; "2"] EmptyString).
Proof.
  apply (DisplayConfig_shows_no_secret
           (with_secrets ["sk-first"; "sk-second"] "letmein")
           (with_secrets ["1"; "2"] EmptyString)).
  reflexivity.
Defined.

Example DisplayConfig_default :
  DisplayConfig (manager_of 7860 0 120 1800 120
                   ["https://a.example"; "https://b.example"])
  = [ "Current Configuration:";
      "   Server: 0.0.0.0:7860";
      "   API Keys loaded: 0";
      "   Start index: 0";
      "   Blacklist threshold: 1 errors";
      "   Max retries: 3";
      "   Upstream URLs: https://a.example, https://b.example";
      "   Request timeout: 30s";
      "   Response timeout: 30s";
      "   Idle connection timeout: 120s";
      "   Authentication: disabled";
      "   CORS: enabled";
      "   Max concurrent requests: 100";
      "   Gzip compression: enabled";
      "   Request logging: enabled" ].
Proof. vm_compute. reflexivity. Qed.

(** ** Authentication, from the environment to the accessors *)

(** What the methods that read the authentication section hand back at
    any point of a sequence of calls is what they hand back at its start. *)
Lemma invoke_all_reads (fs : list Method) (m0 m : Manager) :
  config m = config m0 ->
  exists rs m',
    invoke_all fs m = Some (rs, m')
    /\ Forall (fun r => match r with
                        | OfAuth a => a = Auth (config m0)
                        | OfDisplay log => log = DisplayConfig m0
                        | _ => True
                        end) rs.
Proof.
  revert m. induction fs as [|f fs IH]; intros m Hc.
  - exists [], m. split; [reflexivity | constructor].
  - destruct (is_GetOpenAIConfig f) eqn:Hf.
    + destruct f; try discriminate Hf.
      destruct (GetOpenAIConfig_keeps_config m) as (r & m1 & Hg & Hc1).
      destruct (IH m1 ltac:(congruence)) as (rs & m' & Hall & HF).
      exists (OfOpenAI r :: rs), m'. rewrite invoke_all_cons. cbn [invoke].
      unfold bind at 1. rewrite Hg. unfold ret. rewrite Hall.
      split; [reflexivity|]. constructor; [exact I | exact HF].
    + destruct (IH m Hc) as (rs & m' & Hall & HF).
      destruct f; try discriminate Hf;
        (eexists (_ :: rs), m'; rewrite invoke_all_cons;
         cbv [invoke bind ret GetServerConfig GetKeysConfig GetAuthConfig GetCORSConfig
                GetPerformanceConfig GetLogConfig];
         rewrite Hall; split; [reflexivity|]; constructor; [|exact HF]); try exact I.
      * now rewrite Hc.
      * unfold DisplayConfig. now rewrite Hc.
Qed.

Ltac differ_at n Hin :=
  apply (f_equal (String.get n)) in Hin;
  cbv [String.get String.append] in Hin;
  discriminate Hin.

(** The line [DisplayConfig] prints about authentication, and no other
    line, says whether it is enabled. *)
Lemma DisplayConfig_auth_line (m : Manager) :
  (In "   Authentication: enabled" (DisplayConfig m) <-> Enabled (Auth (config m)) = true)
  /\ (In "   Authentication: disabled" (DisplayConfig m)
      <-> Enabled (Auth (config m)) = false).
Proof.
  unfold DisplayConfig, append. cbn [app In]. split; split.
  - intros Hin.
    repeat (destruct Hin as [Hin|Hin]; [try (differ_at 4%nat Hin)|]); [|destruct Hin].
    destruct (Enabled (Auth (config m))); [reflexivity | differ_at 19%nat Hin].
  - intros E. rewrite E. do 10 right. left. reflexivity.
  - intros Hin.
    repeat (destruct Hin as [Hin|Hin]; [try (differ_at 4%nat Hin)|]); [|destruct Hin].
    destruct (Enabled (Auth (config m))); [differ_at 19%nat Hin | reflexivity].
  - intros E. rewrite E. do 10 right. left. reflexivity.
Qed.

(** X2. Authentication is enabled exactly when AUTH_KEY is set to a
    non-empty string, the key being that string as it is, blanks included;
    and the flag and the key stay in step for the life of the manager:
    in any sequence of method calls on the manager built from the
    environment, every answer of [GetAuthConfig] holds the key of the
    environment and is enabled exactly when that key is not empty, and
    every run of [DisplayConfig] prints the line saying that authentication
    is enabled exactly then, and the line saying it is disabled exactly
    otherwise. *)
Theorem auth_enabled_iff_key_set `{Unicode} (env : Env) (fs : list Method) :
  (Enabled (Auth (loadConfig env)) = true <-> os_Getenv env "AUTH_KEY" <> EmptyString)
  /\ Key (Auth (loadConfig env)) = os_Getenv env "AUTH_KEY"
  /\ (exists rs m',
        invoke_all fs (new_manager (loadConfig env)) = Some (rs, m')
        /\ Forall (fun r =>
                     match r with
                     | OfAuth a =>
                         Key a = os_Getenv env "AUTH_KEY"
                         /\ (Enabled a = true <-> Key a <> EmptyString)
                     | OfDisplay log =>
                         (In "   Authentication: enabled" log
                          <-> os_Getenv env "AUTH_KEY" <> EmptyString)
                         /\ (In "   Authentication: disabled" log
                             <-> os_Getenv env "AUTH_KEY" = EmptyString)
                     | _ => True
                     end) rs)
  /\ Enabled (Auth (loadConfig ∅)) = false
  /\ Enabled (Auth (loadConfig {[ "AUTH_KEY" := "sk-secret" ]})) = true
  /\ Auth (loadConfig {[ "AUTH_KEY" := " " ]}) = {| Key := " "; Enabled := true |}.
Proof.
  assert (Hen : Enabled (Auth (loadConfig env)) = true
                <-> os_Getenv env "AUTH_KEY" <> EmptyString).
  { cbn [loadConfig Auth Enabled].
    destruct (os_Getenv env "AUTH_KEY"); cbn; split; congruence. }
  assert (Hdis : Enabled (Auth (loadConfig env)) = false
                 <-> os_Getenv env "AUTH_KEY" = EmptyString).
  { cbn [loadConfig Auth Enabled].
    destruct (os_Getenv env "AUTH_KEY"); cbn; split; congruence. }
  split; [exact Hen|]. split; [reflexivity|].
  split; [|split; [|split]; vm_compute; reflexivity].
  destruct (invoke_all_reads fs (new_manager (loadConfig env))
              (new_manager (loadConfig env)) eq_refl) as (rs & m' & Hall & HF).
  exists rs, m'. split; [exact Hall|].
  eapply Forall_impl; [exact HF|]. intros [a|a|a|a|a|a|a|e|log]; try (intros; exact I).
  - intros ->. split; [reflexivity|]. exact Hen.
  - intros ->. destruct (DisplayConfig_auth_line (new_manager (loadConfig env))) as (H1 & H2).
    split; [now rewrite H1 | now rewrite H2].
Qed.

(** ** What [parseInteger] accepts *)

Lemma val_range (c : ascii) : 0 <= Byte_.val c < 256.
Proof.
  unfold Byte_.val. pose proof (N_ascii_bounded c). lia.
Qed.

Lemma fast_digits_inv (s : string) (acc n : Z) :
  Strconv.fast_digits s acc = Some n ->
  Strings_.all Byte_.is_digit s = true /\ n = digits_val s acc.
Proof.
  revert acc. induction s as [|c s IH]; intros acc Hs; cbn [Strconv.fast_digits] in Hs.
  - injection Hs as <-. split; reflexivity.
  - change (Byte_.val "0") with 48 in Hs. pose proof (val_range c) as Hc.
    destruct (9 <? (Byte_.val c - 48) mod 256) eqn:E; [discriminate|].
    apply Z.ltb_ge in E.
    assert (Hv : 48 <= Byte_.val c <= 57).
    { destruct (Z_lt_ge_dec (Byte_.val c) 48) as [Hlt|Hge].
      - rewrite <- (Z_mod_plus_full _ 1 256), Z.mod_small in E by lia. lia.
      - rewrite Z.mod_small in E by lia. lia. }
    rewrite Z.mod_small in Hs by lia.
    destruct (IH _ Hs) as (Hall & ->). split; [|reflexivity].
    cbn [Strings_.all]. rewrite Hall, andb_true_r.
    unfold Byte_.is_digit, Byte_.between.
    change (Byte_.val "0") with 48. change (Byte_.val "9") with 57.
    apply andb_true_iff. split; apply Z.leb_le; lia.
Qed.

Lemma len_String (c : ascii) (s : string) : Strings_.len (String c s) = Strings_.len s + 1.
Proof. unfold Strings_.len. cbn [String.length]. lia. Qed.

Lemma len_nonneg (s : string) : 0 <= Strings_.len s.
Proof. unfold Strings_.len. lia. Qed.

Lemma digits_val_lt (s : string) (acc : Z) :
  Strings_.all Byte_.is_digit s = true ->
  0 <= acc ->
  digits_val s acc < (acc + 1) * 10 ^ Strings_.len s.
Proof.
  revert acc. induction s as [|c s IH]; intros acc Hs Hacc.
  - cbn [digits_val]. change (Strings_.len EmptyString) with 0. lia.
  - cbn [Strings_.all] in Hs. apply andb_true_iff in Hs as [Hc Hs].
    pose proof (is_digit_val c Hc) as Hv. pose proof (len_nonneg s) as Hl.
    cbn [digits_val]. rewrite len_String, Z.pow_add_r, Z.pow_1_r by lia.
    specialize (IH (acc * 10 + (Byte_.val c - 48)) Hs ltac:(lia)).
    assert (0 < 10 ^ Strings_.len s) by (apply Z.pow_pos_nonneg; lia).
    nia.
Qed.

(** What the digit loop of [ParseUint] returns with each of its errors. *)
Lemma ParseUint_loop_inv (s : string) (acc n : Z) (e : option Strconv.NumError) :
  Strconv.ParseUint_loop s acc = (n, e) ->
  0 <= acc < 2 ^ 64 ->
  match e with
  | None => Strings_.all Byte_.is_digit s = true /\ n = digits_val s acc /\ n < 2 ^ 64
  | Some Strconv.ErrRange => n = Strconv.maxUint64
  | Some Strconv.ErrSyntax => True
  end.
Proof.
  revert acc. induction s as [|c s IH]; intros acc Hs Hacc;
    cbn [Strconv.ParseUint_loop] in Hs.
  - injection Hs as <- <-. repeat split. lia.
  - destruct (Byte_.is_digit c) eqn:Hc; cbn [negb] in Hs;
      [|injection Hs as <- <-; exact I].
    pose proof (is_digit_val c Hc) as Hv.
    change (Byte_.val "0") with 48 in Hs.
    change (Strconv.maxUint64 / 10 + 1) with 1844674407370955162 in Hs.
    change Strconv.maxUint64 with 18446744073709551615 in *.
    change (2 ^ 64) with 18446744073709551616 in *.
    destruct (1844674407370955162 <=? acc) eqn:Hcut;
      [injection Hs as <- <-; reflexivity|].
    apply Z.leb_gt in Hcut.
    rewrite (Z.mod_small (acc * 10)) in Hs by lia.
    destruct (Z_lt_ge_dec (acc * 10 + (Byte_.val c - 48)) 18446744073709551616)
      as [Hfit|Hover].
    + rewrite (Z.mod_small (acc * 10 + (Byte_.val c - 48))) in Hs by lia.
      rewrite (proj2 (Z.ltb_ge _ _)) in Hs by lia.
      rewrite (proj2 (Z.ltb_ge _ _)) in Hs by lia. cbn [orb] in Hs.
      specialize (IH _ Hs ltac:(lia)).
      destruct e as [[|]|]; [exact I | exact IH |].
      destruct IH as (Hall & -> & Hlt). cbn [Strings_.all digits_val].
      rewrite Hc, Hall. repeat split. exact Hlt.
    + rewrite <- (Z_mod_plus_full _ (-1) 18446744073709551616) in Hs.
      rewrite (Z.mod_small (acc * 10 + (Byte_.val c - 48) + -1 * 18446744073709551616))
        in Hs by lia.
      rewrite (proj2 (Z.ltb_lt _ _)) in Hs by lia. cbn [orb] in Hs.
      injection Hs as <- <-. reflexivity.
Qed.

Lemma Atoi_plus_digits (ds : string) (c : ascii) (r : string) :
  ds = String c r ->
  Strings_.all Byte_.is_digit ds = true ->
  digits_val ds 0 < 2 ^ 63 ->
  Strconv.Atoi (String "+" ds) = Some (digits_val ds 0).
Proof.
  intros Eds Hall Hlt.
  pose proof (digits_val_ge ds 0 Hall ltac:(lia)) as Hge.
  unfold Strconv.Atoi. cbv zeta.
  destruct ((0 <? Strings_.len (String "+" ds)) && (Strings_.len (String "+" ds) <? 19)).
  - change (Byte_.eqb "+" "-") with false. change (Byte_.eqb "+" "+") with true.
    cbn [orb andb].
    assert (Hl : (Strings_.len ds <? 1) = false).
    { rewrite Eds. unfold Strings_.len. cbn [String.length]. apply Z.ltb_ge. lia. }
    rewrite Hl. now rewrite fast_digits_digits.
  - unfold Strconv.ParseInt. change (Byte_.eqb "+" "-") with false.
    change (Byte_.eqb "+" "+") with true. cbn [orb].
    rewrite (ParseUint_digits ds c r Eds Hall)
      by (change (2 ^ 64) with (2 * 2 ^ 63); lia).
    cbn [negb andb]. change (2 ^ (Strconv.intSize - 1)) with (2 ^ 63).
    now rewrite (proj2 (Z.leb_gt _ _)) by lia.
Qed.

Lemma small_digits (r : string) :
  Strings_.all Byte_.is_digit r = true ->
  Strings_.len r <= 18 ->
  0 <= digits_val r 0 < 2 ^ 63.
Proof.
  intros Hall Hlen. pose proof (digits_val_ge r 0 Hall ltac:(lia)) as Hge.
  pose proof (digits_val_lt r 0 Hall ltac:(lia)) as Hlt.
  pose proof (Z.pow_le_mono_r 10 (Strings_.len r) 18 ltac:(lia) Hlen) as Hpow.
  assert (10 ^ 18 < 2 ^ 63) by (vm_compute; reflexivity). lia.
Qed.

Lemma len_0 (s : string) : Strings_.len s < 1 -> s = EmptyString.
Proof. destruct s; [reflexivity|]. rewrite len_String. pose proof (len_nonneg s). lia. Qed.

(** What [Atoi] accepts is a decimal numeral of an [int]. *)
Lemma Atoi_inv (s : string) (n : Z) :
  Strconv.Atoi s = Some n -> numeral s n /\ - 2 ^ 63 <= n < 2 ^ 63.
Proof.
  unfold Strconv.Atoi. cbv zeta.
  destruct ((0 <? Strings_.len s) && (Strings_.len s <? 19)) eqn:Hfast.
  - apply andb_true_iff in Hfast as [H0 H19]. apply Z.ltb_lt in H0, H19.
    destruct s as [|c0 r]; [discriminate|]. rewrite len_String in H19.
    destruct (Byte_.eqb c0 "-") eqn:Hm; [|destruct (Byte_.eqb c0 "+") eqn:Hp];
      cbn [orb andb].
    + apply Ascii.eqb_eq in Hm as ->.
      destruct (Strings_.len r <? 1) eqn:Hl; [discriminate|]. apply Z.ltb_ge in Hl.
      destruct (Strconv.fast_digits r 0) as [n'|] eqn:Hd; [|discriminate].
      intros [= <-]. destruct (fast_digits_inv _ _ _ Hd) as (Hall & ->).
      pose proof (small_digits r Hall ltac:(lia)). split; [|lia].
      exists r. split; [intros ->; change (Strings_.len EmptyString) with 0 in Hl; lia|].
      split; [exact Hall|]. right. right. split; reflexivity.
    + apply Ascii.eqb_eq in Hp as ->.
      destruct (Strings_.len r <? 1) eqn:Hl; [discriminate|]. apply Z.ltb_ge in Hl.
      destruct (Strconv.fast_digits r 0) as [n'|] eqn:Hd; [|discriminate].
      intros [= <-]. destruct (fast_digits_inv _ _ _ Hd) as (Hall & ->).
      pose proof (small_digits r Hall ltac:(lia)). split; [|lia].
      exists r. split; [intros ->; change (Strings_.len EmptyString) with 0 in Hl; lia|].
      split; [exact Hall|]. right. left. split; reflexivity.
    + destruct (Strconv.fast_digits (String c0 r) 0) as [n'|] eqn:Hd; [|discriminate].
      intros [= <-]. destruct (fast_digits_inv _ _ _ Hd) as (Hall & ->).
      pose proof (small_digits (String c0 r) Hall ltac:(rewrite len_String; lia)).
      split; [|lia].
      exists (String c0 r). split; [discriminate|].
      split; [exact Hall|]. left. split; reflexivity.
  - destruct (Strconv.ParseInt s) as [i64 [e|]] eqn:HP; [discriminate|].
    intros [= <-]. unfold Strconv.ParseInt in HP.
    destruct s as [|c0 r]; [discriminate|]. cbv zeta in HP.
    change (2 ^ (Strconv.intSize - 1)) with (2 ^ 63) in HP.
    remember (if Byte_.eqb c0 "+" || Byte_.eqb c0 "-" then r else String c0 r) as s' eqn:Es'.
    destruct (Strconv.ParseUint s') as [un e] eqn:HU.
    unfold Strconv.ParseUint in HU.
    destruct s' as [|c1 r1]; [injection HU as <- <-; discriminate HP|].
    pose proof (ParseUint_loop_inv _ _ _ _ HU ltac:(split; [lia | reflexivity])) as Hinv.
    destruct e as [[|]|].
    + discriminate HP.
    + subst un. destruct (Byte_.eqb c0 "-"); vm_compute in HP; discriminate HP.
    + destruct Hinv as (Hall & Hun & Hlt).
      pose proof (digits_val_ge _ 0 Hall ltac:(lia)) as Hge. rewrite <- Hun in Hge.
      destruct (Byte_.eqb c0 "-") eqn:Hm.
      * apply Ascii.eqb_eq in Hm as ->. cbn [negb andb orb] in HP.
        change (Byte_.eqb "-" "+") with false in Es'. cbn [orb] in Es'. subst r.
        destruct (2 ^ 63 <? un) eqn:Hcut; [discriminate HP|].
        apply Z.ltb_ge in Hcut. injection HP as <-. split; [|lia].
        exists (String c1 r1). split; [discriminate|]. split; [exact Hall|].
        right. right. split; [reflexivity | now rewrite Hun].
      * cbn [negb andb] in HP.
        destruct (2 ^ 63 <=? un) eqn:Hcut; [discriminate HP|].
        apply Z.leb_gt in Hcut. injection HP as <-. split; [|lia].
        exists (String c1 r1). split; [discriminate|]. split; [exact Hall|].
        rewrite orb_false_r in Es'.
        destruct (Byte_.eqb c0 "+") eqn:Hp.
        -- apply Ascii.eqb_eq in Hp as ->. subst r. right. left. split; [reflexivity|exact Hun].
        -- rewrite <- Es'. left. split; [reflexivity|exact Hun].
Qed.

(** X12. [parseInteger] takes from the environment exactly the decimal
    numerals of an [int]: [strconv.Atoi] accepts a text and returns [n] if
    and only if the text is an optional sign followed by at least one
    decimal digit, denotes [n], and [n] is within 64 bits.  So the parser
    returns either its default or a number so written, and every field it
    fills is within the range of an [int] when its default is; white space,
    a decimal point, an exponent or a digit separator all give the
    default. *)
Theorem parseInteger_accepts_decimal_numerals (value : string) (d n : Z) :
  (Strconv.Atoi value = Some n <-> numeral value n /\ - 2 ^ 63 <= n < 2 ^ 63)
  /\ (parseInteger value d = d \/ numeral value (parseInteger value d))
  /\ (- 2 ^ 63 <= d < 2 ^ 63 -> - 2 ^ 63 <= parseInteger value d < 2 ^ 63)
  /\ (parseInteger "+42" d = 42 /\ parseInteger "-0" d = 0 /\ parseInteger "007" d = 7
      /\ parseInteger "-9223372036854775808" d = - 2 ^ 63
      /\ parseInteger "9223372036854775807" d = 2 ^ 63 - 1
      /\ parseInteger "-9223372036854775809" d = d
      /\ parseInteger "1e3" d = d /\ parseInteger "1_000" d = d
      /\ parseInteger "3.0" d = d /\ parseInteger "0x10" d = d
      /\ parseInteger "42 " d = d /\ parseInteger "-" d = d /\ parseInteger "+-1" d = d).
Proof.
  assert (Hpi : parseInteger value d
                = match Strconv.Atoi value with Some parsed => parsed | None => d end)
    by (unfold parseInteger; destruct value; reflexivity).
  split; [|split; [|split]].
  - split; [apply Atoi_inv|].
    intros [(ds & Hne & Hall & Hform) Hrange].
    destruct ds as [|c r] eqn:Eds; [congruence|]. rewrite <- Eds in *.
    pose proof (digits_val_ge ds 0 Hall ltac:(lia)) as Hge.
    destruct Hform as [[-> ->]|[[-> ->]|[-> ->]]].
    + apply (Atoi_digits ds c r Eds Hall). lia.
    + apply (Atoi_plus_digits ds c r Eds Hall). lia.
    + apply (Atoi_minus_digits ds c r Eds Hall). lia.
  - rewrite Hpi. destruct (Strconv.Atoi value) as [p|] eqn:E; [|now left].
    right. now apply Atoi_inv.
  - intros Hd. rewrite Hpi. destruct (Strconv.Atoi value) as [p|] eqn:E; [|exact Hd].
    exact (proj2 (Atoi_inv _ _ E)).
  - repeat split; vm_compute; reflexivity.
Qed.

(** ** The environment *)

Lemma os_Getenv_insert_eq (env : Env) (k v : string) :
  os_Getenv (<[k := v]> env) k = v.
Proof. unfold os_Getenv, Env in *. now rewrite lookup_insert_eq. Qed.

Lemma os_Getenv_insert_ne (env : Env) (k v x : string) :
  k <> x -> os_Getenv (<[k := v]> env) x = os_Getenv env x.
Proof. intros Hne. unfold os_Getenv, Env in *. now rewrite lookup_insert_ne. Qed.

Lemma os_Getenv_delete_eq (env : Env) (k : string) :
  os_Getenv (delete k env) k = EmptyString.
Proof. unfold os_Getenv, Env in *. now rewrite lookup_delete_eq. Qed.

Lemma os_Getenv_delete_ne (env : Env) (k x : string) :
  k <> x -> os_Getenv (delete k env) x = os_Getenv env x.
Proof. intros Hne. unfold os_Getenv, Env in *. now rewrite lookup_delete_ne. Qed.

(** [NewManager] reads the environment through [os.Getenv] on its own
    variables only. *)
Lemma loadConfig_ext `{Unicode} (env env' : Env) :
  (forall x, In x config_variables -> os_Getenv env x = os_Getenv env' x) ->
  loadConfig env = loadConfig env'.
Proof.
  intros Hext. unfold loadConfig, getEnvOrDefault.
  repeat match goal with
         | |- context [os_Getenv env ?k] =>
             rewrite (Hext k)
               by (unfold config_variables; repeat (try (left; reflexivity); right))
         end.
  reflexivity.
Qed.

(** ** [parseArray] reads back a joined list *)

Lemma asciiSpace_cases (c : ascii) :
  Strings_.asciiSpace c = true ->
  Byte_.is_ascii c = true /\ Byte_.eqb "," c = false.
Proof.
  unfold Strings_.asciiSpace, Byte_.mem, Byte_.eqb. cbn [list_ascii_of_string existsb].
  rewrite !orb_true_iff, !Ascii.eqb_eq.
  intros [->|[->|[->|[->|[->|[->|H]]]]]]; [split; reflexivity..|discriminate H].
Qed.

Lemma any_app (p : ascii -> bool) (a b : string) :
  Strings_.any p (a +:+ b) = Strings_.any p a || Strings_.any p b.
Proof.
  induction a as [|c a IH]; [reflexivity|].
  change (String c a +:+ b) with (String c (a +:+ b)). cbn [Strings_.any].
  now rewrite IH, orb_assoc.
Qed.

Lemma all_asciiSpace_no_comma (ws : string) :
  Strings_.all Strings_.asciiSpace ws = true -> Strings_.Contains ws "," = false.
Proof.
  unfold Strings_.Contains. induction ws as [|c ws IH]; [reflexivity|].
  cbn [Strings_.all Strings_.any]. intros [Hc Hws]%andb_true_iff.
  rewrite (proj2 (asciiSpace_cases c Hc)). now apply IH.
Qed.

Lemma Split_nonempty (s : string) (sep : ascii) : Strings_.Split s sep <> [].
Proof.
  destruct s as [|c s]; cbn [Strings_.Split]; [discriminate|].
  destruct (Byte_.eqb c sep); [discriminate|].
  destruct (Strings_.Split s sep); discriminate.
Qed.

(** A text without separator in front of [b] joins the first part of [b]. *)
Lemma Split_app (a b : string) (sep : ascii) :
  Strings_.Contains a sep = false ->
  Strings_.Split (a +:+ b) sep
  = match Strings_.Split b sep with
    | p :: ps => (a +:+ p) :: ps
    | [] => [a]
    end.
Proof.
  unfold Strings_.Contains. induction a as [|c a IH]; intros Ha.
  - change (EmptyString +:+ b) with b.
    destruct (Strings_.Split b sep) as [|p ps] eqn:E; [|reflexivity].
    now apply Split_nonempty in E.
  - cbn [Strings_.any] in Ha. apply orb_false_iff in Ha as [Hc Ha].
    change (String c a +:+ b) with (String c (a +:+ b)). cbn [Strings_.Split].
    unfold Byte_.eqb in *. rewrite Ascii.eqb_sym, Hc, (IH Ha).
    destruct (Strings_.Split b sep); reflexivity.
Qed.

Lemma Split_Join (e : string) (l : list string) (ws : string) :
  Forall (fun u => Strings_.Contains u "," = false) (e :: l) ->
  Strings_.Contains ws "," = false ->
  Strings_.Split (Strings_.Join (e :: l) (String "," ws)) ","
  = e :: map (fun u => ws +:+ u) l.
Proof.
  intros Hl Hws. revert e Hl. induction l as [|e' l IH]; intros e Hl.
  - inversion Hl as [|? ? He _]; subst. cbn [Strings_.Join map].
    rewrite <- (string_app_nil_r e) at 1. rewrite (Split_app e EmptyString "," He).
    cbn [Strings_.Split]. now rewrite string_app_nil_r.
  - inversion Hl as [|? ? He Hl']; subst.
    change (Strings_.Join (e :: e' :: l) (String "," ws))
      with (e +:+ String "," (ws +:+ Strings_.Join (e' :: l) (String "," ws))).
    rewrite (Split_app e _ "," He). cbn [Strings_.Split].
    change (Byte_.eqb "," ",") with true. cbv iota.
    rewrite string_app_nil_r, (Split_app ws _ "," Hws), (IH e' Hl'). reflexivity.
Qed.

Lemma TrimSpace_skip `{Unicode} (ws u : string) :
  Strings_.all Strings_.asciiSpace ws = true ->
  strings_TrimSpace (ws +:+ u) = strings_TrimSpace u.
Proof.
  induction ws as [|c ws IH]; [reflexivity|].
  cbn [Strings_.all]. intros [Hc Hws]%andb_true_iff.
  change (String c ws +:+ u) with (String c (ws +:+ u)). cbn [strings_TrimSpace].
  rewrite (proj1 (asciiSpace_cases c Hc)), Hc. cbn [negb]. now apply IH.
Qed.

Lemma plain_cases (u : string) :
  plain u = true ->
  Strings_.Contains u "," = false
  /\ (exists c r, u = String c r /\ solid c = true)
  /\ (exists c rs, rev (list_ascii_of_string u) = c :: rs /\ solid c = true).
Proof.
  unfold plain. intros [[Hc Hf]%andb_true_iff Hl]%andb_true_iff.
  split; [now apply negb_true_iff in Hc|]. split.
  - destruct u as [|c r]; [discriminate Hf|]. eauto.
  - destruct (rev (list_ascii_of_string u)) as [|c rs]; [discriminate Hl|]. eauto.
Qed.

(** [strings.TrimSpace] returns as it is a text that starts and ends
    with an ASCII byte that is not white space. *)
Lemma TrimSpace_plain `{Unicode} (u : string) :
  plain u = true -> strings_TrimSpace u = u.
Proof.
  intros (_ & (c & r & -> & Hc) & (c' & rs & Hrev & Hc'))%plain_cases.
  unfold solid in Hc, Hc'. apply andb_true_iff in Hc as [Ha Hs], Hc' as [Ha' Hs'].
  apply negb_true_iff in Hs, Hs'.
  cbn [strings_TrimSpace]. rewrite Ha, Hs. cbn [negb]. rewrite Hrev.
  cbn [TrimSpace_stop]. rewrite Ha', Hs'. cbn [negb].
  rewrite <- Hrev, rev_involutive. apply string_of_list_ascii_of_string.
Qed.

Lemma plain_nonempty (u : string) : plain u = true -> Strings_.is_empty u = false.
Proof. intros (_ & (c & r & -> & _) & _)%plain_cases. reflexivity. Qed.

Lemma filter_nonempty_plain (l : list string) :
  Forall (fun u => plain u = true) l ->
  List.filter (fun t => negb (Strings_.is_empty t)) l = l.
Proof.
  induction 1 as [|u l Hu _ IH]; [reflexivity|].
  cbn [List.filter]. now rewrite (plain_nonempty u Hu), IH.
Qed.

Lemma parseArray_Join `{Unicode} (l d : list string) (ws : string) :
  l <> [] ->
  Forall (fun u => plain u = true) l ->
  Strings_.all Strings_.asciiSpace ws = true ->
  parseArray (Strings_.Join l (String "," ws)) d = l.
Proof.
  intros Hne Hl Hws. destruct l as [|e l]; [congruence|].
  pose proof (all_asciiSpace_no_comma ws Hws) as Hwsc.
  rewrite parseArray_eq.
  assert (Hj : Strings_.is_empty (Strings_.Join (e :: l) (String "," ws)) = false).
  { inversion Hl as [|? ? He _]; subst.
    apply plain_cases in He as (_ & (c & r & -> & _) & _).
    destruct l; reflexivity. }
  rewrite Hj, Split_Join; [|eapply Forall_impl; [exact Hl|]; intros u Hu; apply plain_cases, Hu
                           |exact Hwsc].
  assert (Hmap : map strings_TrimSpace (e :: map (fun u => ws +:+ u) l) = e :: l).
  { inversion Hl as [|? ? He Hl']; subst. cbn [map]. rewrite (TrimSpace_plain e He). f_equal.
    rewrite map_map. clear -Hl' Hws. induction Hl' as [|u l Hu _ IH]; [reflexivity|].
    cbn [map]. now rewrite (TrimSpace_skip ws u Hws), (TrimSpace_plain u Hu), IH. }
  rewrite Hmap, (filter_nonempty_plain _ Hl). reflexivity.
Qed.

Lemma Split_all (p : ascii -> bool) (s : string) (sep : ascii) :
  Strings_.all p s = true ->
  Forall (fun part => Strings_.all p part = true) (Strings_.Split s sep).
Proof.
  induction s as [|c s IH]; cbn [Strings_.all Strings_.Split].
  - intros _. repeat constructor.
  - intros [Hc Hs]%andb_true_iff. specialize (IH Hs).
    destruct (Byte_.eqb c sep); [constructor; [reflexivity | exact IH]|].
    destruct (Strings_.Split s sep) as [|q qs]; [repeat constructor; cbn; now rewrite Hc|].
    inversion IH as [|? ? Hq Hqs]; subst.
    constructor; [cbn [Strings_.all]; now rewrite Hc, Hq | exact Hqs].
Qed.

Lemma Split_no_sep (s : string) (sep : ascii) :
  Forall (fun part => Strings_.Contains part sep = false) (Strings_.Split s sep).
Proof.
  unfold Strings_.Contains. induction s as [|c s IH]; cbn [Strings_.Split].
  - repeat constructor.
  - destruct (Byte_.eqb c sep) eqn:Hc; [constructor; [reflexivity | exact IH]|].
    assert (Hc' : Byte_.eqb sep c = false)
      by (unfold Byte_.eqb in *; now rewrite Ascii.eqb_sym).
    destruct (Strings_.Split s sep) as [|q qs];
      [repeat constructor; cbn [Strings_.any]; now rewrite Hc'|].
    inversion IH as [|? ? Hq Hqs]; subst.
    constructor; [cbn [Strings_.any]; now rewrite Hc', Hq | exact Hqs].
Qed.

(** What [strings.TrimSpace] leaves of an ASCII part without comma, when
    it leaves anything, is an entry that is read back as it is. *)
Lemma TrimSpace_ascii_plain `{Unicode} (p : string) :
  Strings_.all Byte_.is_ascii p = true ->
  Strings_.Contains p "," = false ->
  Strings_.is_empty (strings_TrimSpace p) = false ->
  plain (strings_TrimSpace p) = true.
Proof.
  intros Ha Hc Hne.
  destruct (strings_TrimSpace_ascii p Ha) as (pre & post & E & _ & _ & Hfirst & Hlast).
  remember (strings_TrimSpace p) as t eqn:Et. clear Et.
  rewrite E in Ha, Hc. unfold Strings_.Contains in Hc.
  rewrite !any_app in Hc. rewrite !all_app in Ha.
  apply orb_false_iff in Hc as [_ [Hc _]%orb_false_iff].
  apply andb_true_iff in Ha as [_ [Ha _]%andb_true_iff].
  destruct t as [|c r]; [discriminate Hne|].
  pose proof Ha as Hall. apply all_Forall in Hall.
  assert (H1 : solid c = true).
  { unfold solid. cbn [Strings_.all] in Ha. apply andb_true_iff in Ha as [-> _].
    now rewrite (Hfirst c r eq_refl). }
  assert (H2 : match rev (list_ascii_of_string (String c r)) with
               | [] => false
               | c' :: _ => solid c'
               end = true).
  { destruct (rev (list_ascii_of_string (String c r))) as [|c' rs] eqn:Hrev.
    { apply (f_equal (@length ascii)) in Hrev. rewrite length_rev in Hrev.
      discriminate Hrev. }
    assert (El : list_ascii_of_string (String c r) = (rev rs ++ [c'])%list).
    { rewrite <- (rev_involutive (list_ascii_of_string (String c r))), Hrev. reflexivity. }
    unfold solid. rewrite (Hlast (string_of_list_ascii (rev rs)) c').
    - rewrite andb_true_r. rewrite List.Forall_forall in Hall. apply Hall.
      rewrite El. apply in_or_app. right. now left.
    - rewrite <- (string_of_list_ascii_of_string (String c r)), El.
      now rewrite string_of_list_ascii_app. }
  unfold plain, Strings_.Contains. rewrite Hc, H2.
  cbn [negb andb list_ascii_of_string]. now rewrite H1.
Qed.

Lemma parseArray_plain `{Unicode} (value : string) (d : list string) :
  Strings_.all Byte_.is_ascii value = true ->
  Forall (fun u => plain u = true) d ->
  Forall (fun u => plain u = true) (parseArray value d).
Proof.
  intros Ha Hd. rewrite parseArray_eq.
  destruct (Strings_.is_empty value); [exact Hd|].
  destruct (List.filter _ _) as [|x xs] eqn:E; [exact Hd|]. rewrite <- E.
  apply List.Forall_forall. intros t [Ht Hne]%filter_In.
  apply in_map_iff in Ht as (p & <- & Hp).
  pose proof (Split_all _ _ "," Ha) as Hall. pose proof (Split_no_sep value ",") as Hsep.
  rewrite List.Forall_forall in Hall, Hsep.
  apply TrimSpace_ascii_plain; [now apply Hall | now apply Hsep | now apply negb_true_iff].
Qed.

(** X13. [parseArray] reads back what [strings.Join] writes.  A non-empty
    list of entries that hold no comma and start and end with an ASCII byte
    that is not white space, joined by a comma followed by any white space,
    is parsed into the same list; the entries [parseArray] extracts from
    ASCII text are of that kind.  So the list of upstream URLs that
    [DisplayConfig] prints, comma and blank between them, is a value of
    OPENAI_BASE_URL that configures the same list. *)
Theorem parseArray_reads_back_a_joined_list `{Unicode}
    (env : Env) (l d : list string) (ws value : string) :
  (l <> [] ->
   Forall (fun u => plain u = true) l ->
   Strings_.all Strings_.asciiSpace ws = true ->
   parseArray (Strings_.Join l (String "," ws)) d = l)
  /\ (Strings_.all Byte_.is_ascii value = true ->
      Forall (fun u => plain u = true) d ->
      Forall (fun u => plain u = true) (parseArray value d))
  /\ (Strings_.all Byte_.is_ascii (os_Getenv env "OPENAI_BASE_URL") = true ->
      exists shown,
        DisplayConfig (new_manager (loadConfig env)) !! 6%nat
        = Some ("   Upstream URLs: " +:+ shown)
        /\ parseArray shown d = BaseURLs (OpenAI (loadConfig env))
        /\ loadConfig (<[ "OPENAI_BASE_URL" := shown ]> env) = loadConfig env)
  /\ parseArray (Strings_.Join ["https://a.example/v1"; "b.example:8080"; "c"] ", ") d
     = ["https://a.example/v1"; "b.example:8080"; "c"]
  /\ parseArray (Strings_.Join ["a b"; "c"] ",") d = ["a b"; "c"]
  /\ parseArray (Strings_.Join ["a,b"; "c"] ", ") d = ["a"; "b"; "c"].
Proof.
  split; [apply parseArray_Join|]. split; [apply parseArray_plain|].
  split; [|repeat split; vm_compute; reflexivity].
  intros Ha.
  assert (Hplain : Forall (fun u => plain u = true) (BaseURLs (OpenAI (loadConfig env)))).
  { cbn [loadConfig OpenAI BaseURLs]. apply parseArray_plain; [exact Ha|].
    repeat constructor. }
  assert (Hne : BaseURLs (OpenAI (loadConfig env)) <> [])
    by (apply parseArray_nonempty; discriminate).
  exists (Strings_.Join (BaseURLs (OpenAI (loadConfig env))) ", ").
  split; [reflexivity|].
  assert (Hback : forall d', parseArray (Strings_.Join (BaseURLs (OpenAI (loadConfig env))) ", ") d'
                             = BaseURLs (OpenAI (loadConfig env)))
    by (intros d'; now apply (parseArray_Join _ d' " ")).
  split; [apply Hback|].
  unfold loadConfig, getEnvOrDefault.
  rewrite os_Getenv_insert_eq, !os_Getenv_insert_ne by discriminate.
  f_equal. f_equal. apply Hback.
Qed.

(** A variable the process environment holds, be it empty, is what
    [os.Getenv] answers after the load; the file is asked for the others. *)
Lemma os_Getenv_Load_set (dotenv : option Env) (environ : Env) (x : string) :
  is_Some (environ !! x) ->
  os_Getenv (godotenv_Load dotenv environ) x = os_Getenv environ x.
Proof.
  intros [v Hv]. destruct dotenv as [envMap|]; [|reflexivity].
  unfold os_Getenv, godotenv_Load, Env in *.
  now rewrite (lookup_union_Some_l environ envMap x v Hv), Hv.
Qed.

Lemma os_Getenv_Load_unset (envMap environ : Env) (x : string) :
  environ !! x = None ->
  os_Getenv (godotenv_Load (Some envMap) environ) x = os_Getenv envMap x.
Proof.
  intros Hx. unfold os_Getenv, godotenv_Load, Env in *.
  now rewrite (lookup_union_r environ envMap x Hx).
Qed.

Lemma os_Getenv_unset (environ : Env) (x : string) :
  environ !! x = None -> os_Getenv environ x = EmptyString.
Proof. intros Hx. unfold os_Getenv, Env in *. now rewrite Hx. Qed.

Lemma NewManager_ext `{Unicode} (env env' : Env) :
  (forall x, In x config_variables -> os_Getenv env x = os_Getenv env' x) ->
  NewManager env = NewManager env'.
Proof. intros He. unfold NewManager. now rewrite (loadConfig_ext env env' He). Qed.

(** When the file gives a variable no value, or an empty one, setting the
    variable to the empty string in the process environment is the same as
    not setting it. *)
Lemma os_Getenv_Load_empty (dotenv : option Env) (environ : Env) (k x : string) :
  (forall envMap, dotenv = Some envMap -> os_Getenv envMap k = EmptyString) ->
  os_Getenv (godotenv_Load dotenv (<[k := EmptyString]> environ)) x
  = os_Getenv (godotenv_Load dotenv (delete k environ)) x.
Proof.
  intros Hfile. destruct (decide (k = x)) as [->|Hne].
  - rewrite os_Getenv_Load_set, os_Getenv_insert_eq
      by (unfold Env in *; rewrite lookup_insert_eq; eauto).
    destruct dotenv as [envMap|].
    + rewrite os_Getenv_Load_unset by (unfold Env in *; apply lookup_delete_eq).
      symmetry. now apply Hfile.
    + cbn [godotenv_Load]. now rewrite os_Getenv_delete_eq.
  - destruct dotenv as [envMap|];
      [|cbn [godotenv_Load]; now rewrite os_Getenv_insert_ne, os_Getenv_delete_ne].
    destruct (environ !! x) as [w|] eqn:Hx.
    + assert (H1 : is_Some ((<[k := EmptyString]> environ) !! x))
        by (unfold Env in *; rewrite lookup_insert_ne; eauto).
      assert (H2 : is_Some ((delete k environ) !! x))
        by (unfold Env in *; rewrite lookup_delete_ne; eauto).
      rewrite (os_Getenv_Load_set _ _ _ H1), (os_Getenv_Load_set _ _ _ H2).
      now rewrite os_Getenv_insert_ne, os_Getenv_delete_ne.
    + assert (H1 : (<[k := EmptyString]> environ) !! x = None)
        by (unfold Env in *; now rewrite lookup_insert_ne).
      assert (H2 : (delete k environ) !! x = None)
        by (unfold Env in *; now rewrite lookup_delete_ne).
      now rewrite (os_Getenv_Load_unset _ _ _ H1), (os_Getenv_Load_unset _ _ _ H2).
Qed.

Lemma os_Getenv_Load_insert_ne (dotenv : option Env) (environ : Env) (k v x : string) :
  k <> x ->
  os_Getenv (godotenv_Load dotenv (<[k := v]> environ)) x
  = os_Getenv (godotenv_Load dotenv environ) x.
Proof.
  intros Hne. destruct dotenv as [envMap|];
    [|cbn [godotenv_Load]; now rewrite os_Getenv_insert_ne].
  destruct (environ !! x) as [w|] eqn:Hx.
  - assert (H1 : is_Some ((<[k := v]> environ) !! x))
      by (unfold Env in *; rewrite lookup_insert_ne; eauto).
    assert (H2 : is_Some (environ !! x)) by eauto.
    rewrite (os_Getenv_Load_set _ _ _ H1), (os_Getenv_Load_set _ _ _ H2).
    now rewrite os_Getenv_insert_ne.
  - assert (H1 : (<[k := v]> environ) !! x = None)
      by (unfold Env in *; now rewrite lookup_insert_ne).
    now rewrite (os_Getenv_Load_unset _ _ _ H1), (os_Getenv_Load_unset _ _ _ Hx).
Qed.

Lemma os_Getenv_Load_file_insert_ne (envMap environ : Env) (k v x : string) :
  k <> x ->
  os_Getenv (godotenv_Load (Some (<[k := v]> envMap)) environ) x
  = os_Getenv (godotenv_Load (Some envMap) environ) x.
Proof.
  intros Hne. destruct (environ !! x) as [w|] eqn:Hx.
  - assert (H1 : is_Some (environ !! x)) by eauto.
    now rewrite !(os_Getenv_Load_set _ _ _ H1).
  - rewrite !(os_Getenv_Load_unset _ _ _ Hx). now apply os_Getenv_insert_ne.
Qed.

(** Each of the variables is read: set alone, to a suitable value, in the
    process environment or in the file, it changes the result. *)
Lemma config_variables_matter `{Unicode} :
  Forall (fun x => exists v,
              NewManager_with_dotenv None (<[x := v]> ∅) <> NewManager_with_dotenv None ∅
              /\ NewManager_with_dotenv (Some (<[x := v]> ∅)) ∅
                 = NewManager_with_dotenv None (<[x := v]> ∅))
    config_variables.
Proof.
  unfold config_variables.
  repeat (constructor;
          [first [ exists "2"; split; vm_compute; congruence
                 | exists "false"; split; vm_compute; congruence
                 | exists "true"; split; vm_compute; congruence ]|]).
  constructor.
Qed.

(** X14. [NewManager] reads twenty-seven variables, these and no other, and
    it reads them after the load of the [.env] file: two situations, each a
    file and a process environment, in which [os.Getenv] answers alike on
    them once the file is loaded give the same result, manager or error.
    After the load a variable the process environment holds has the value
    it has there, be it empty, and the file provides the others.  So a
    variable outside the list has no influence, whereas each variable of
    the list, set alone in the environment or in the file, can change the
    result; and a variable set to the empty string in the process
    environment counts as unset when the file gives it no value, but hides
    the value the file gives it otherwise, and the default applies. *)
Theorem NewManager_reads_its_variables_only `{Unicode}
    (dotenv dotenv' : option Env) (environ environ' envMap : Env) (k v : string) :
  ((forall x, In x config_variables ->
              os_Getenv (godotenv_Load dotenv environ) x
              = os_Getenv (godotenv_Load dotenv' environ') x) ->
   NewManager_with_dotenv dotenv environ = NewManager_with_dotenv dotenv' environ')
  /\ (is_Some (environ !! k) ->
      os_Getenv (godotenv_Load dotenv environ) k = os_Getenv environ k)
  /\ (environ !! k = None ->
      os_Getenv (godotenv_Load (Some envMap) environ) k = os_Getenv envMap k
      /\ os_Getenv (godotenv_Load None environ) k = EmptyString)
  /\ ((forall file, dotenv = Some file -> os_Getenv file k = EmptyString) ->
      NewManager_with_dotenv dotenv (<[k := EmptyString]> environ)
      = NewManager_with_dotenv dotenv (delete k environ))
  /\ (~ In k config_variables ->
      NewManager_with_dotenv dotenv (<[k := v]> environ)
      = NewManager_with_dotenv dotenv environ
      /\ NewManager_with_dotenv (Some (<[k := v]> envMap)) environ
         = NewManager_with_dotenv (Some envMap) environ)
  /\ Forall (fun x => exists v',
                 NewManager_with_dotenv None (<[x := v']> ∅)
                 <> NewManager_with_dotenv None ∅
                 /\ NewManager_with_dotenv (Some (<[x := v']> ∅)) ∅
                    = NewManager_with_dotenv None (<[x := v']> ∅))
       config_variables
  /\ length config_variables = 27%nat
  /\ NoDup config_variables
  /\ (NewManager_with_dotenv (Some {[ "PORT" := "9000" ]}) ∅
      = NewManager_with_dotenv None {[ "PORT" := "9000" ]}
      /\ NewManager_with_dotenv (Some {[ "PORT" := "9000" ]}) {[ "PORT" := EmptyString ]}
         = NewManager_with_dotenv None ∅
      /\ NewManager_with_dotenv (Some {[ "PORT" := "9000" ]}) {[ "PORT" := "8080" ]}
         = NewManager_with_dotenv None {[ "PORT" := "8080" ]}
      /\ NewManager_with_dotenv None {[ "PORT" := "9000" ]} <> NewManager_with_dotenv None ∅
      /\ NewManager_with_dotenv None
           {[ "PORT" := EmptyString; "OPENAI_BASE_URL" := EmptyString ]}
         = NewManager_with_dotenv None ∅
      /\ NewManager_with_dotenv (Some {[ "port" := "0" ]}) {[ "HOME" := "/root" ]}
         = NewManager_with_dotenv None ∅).
Proof.
  split; [apply NewManager_ext|].
  split; [apply os_Getenv_Load_set|].
  split; [intros Hk; split; [now apply os_Getenv_Load_unset | now apply os_Getenv_unset]|].
  split; [|split; [|split; [apply config_variables_matter|split; [reflexivity|split]]]].
  - intros Hfile. apply NewManager_ext. intros x _. now apply os_Getenv_Load_empty.
  - intros Hk. split; apply NewManager_ext; intros x Hx.
    + apply os_Getenv_Load_insert_ne. congruence.
    + apply os_Getenv_Load_file_insert_ne. congruence.
  - apply (bool_decide_eq_true_1 (NoDup config_variables)). vm_compute. reflexivity.
  - repeat split; vm_compute; congruence.
Qed.

(** ** Which environments [NewManager] accepts *)

Lemma parseInteger_Atoi (value : string) (d : Z) :
  parseInteger value d
  = match Strconv.Atoi value with Some parsed => parsed | None => d end.
Proof. unfold parseInteger. destruct value; reflexivity. Qed.

(** A bound that holds of the default holds of the parsed value unless
    the text is a number that breaks it. *)
Lemma parseInteger_bound (P : Z -> Prop) (value : string) (d : Z) :
  P d ->
  (P (parseInteger value d) <-> forall p, Strconv.Atoi value = Some p -> P p).
Proof.
  intros Hd. rewrite parseInteger_Atoi.
  destruct (Strconv.Atoi value) as [p|]; split; intros HP.
  - now intros ? [= <-].
  - now apply HP.
  - discriminate.
  - exact Hd.
Qed.

(** X15. [NewManager] fails on exactly those environments in which PORT,
    START_INDEX, BLACKLIST_THRESHOLD, REQUEST_TIMEOUT or
    MAX_CONCURRENT_REQUESTS is a well-formed number outside its bounds, or
    an entry of OPENAI_BASE_URL is refused by [url.Parse].  A value that is
    not a number is replaced by the default before validation and so never
    makes start-up fail; nor does any other variable.  On success the
    manager holds the configuration read and a counter at zero; on failure
    the error is the one of [Validate]. *)
Theorem NewManager_accepts `{Unicode} (env : Env) :
  (NewManager env = inr (new_manager (loadConfig env))
   <-> (forall p, Strconv.Atoi (os_Getenv env "PORT") = Some p -> 1 <= p <= 65535)
       /\ (forall p, Strconv.Atoi (os_Getenv env "START_INDEX") = Some p -> 0 <= p)
       /\ (forall p, Strconv.Atoi (os_Getenv env "BLACKLIST_THRESHOLD") = Some p -> 1 <= p)
       /\ (forall p, Strconv.Atoi (os_Getenv env "REQUEST_TIMEOUT") = Some p -> 1 <= p)
       /\ Forall (fun u => Url.Parse u = None)
            (parseArray (os_Getenv env "OPENAI_BASE_URL") ["https://api.openai.com"])
       /\ (forall p, Strconv.Atoi (os_Getenv env "MAX_CONCURRENT_REQUESTS") = Some p ->
                     1 <= p))
  /\ (NewManager env = inr (new_manager (loadConfig env))
      \/ exists err,
           NewManager env = inl err
           /\ Validate (new_manager (loadConfig env)) = Some err)
  /\ NewManager {[ "PORT" := "eighty"; "REQUEST_TIMEOUT" := "30s" ]} = NewManager ∅
  /\ NewManager {[ "PORT" := "0" ]} = inl (ConfigValidationError [msg_port])
  /\ NewManager {[ "REQUEST_TIMEOUT" := "-1"; "MAX_CONCURRENT_REQUESTS" := "0" ]}
     = inl (ConfigValidationError [msg_timeout; msg_performance])
  /\ NewManager {[ "OPENAI_BASE_URL" := "https://a.example, http://b.example:port" ]}
     = inl (ConfigValidationError [msg_url "http://b.example:port"])
  /\ NewManager {[ "SERVER_READ_TIMEOUT" := "-5"; "MAX_RETRIES" := "-1" ]}
     = inr (new_manager (loadConfig {[ "SERVER_READ_TIMEOUT" := "-5"; "MAX_RETRIES" := "-1" ]})).
Proof.
  split; [|split; [|repeat split; vm_compute; reflexivity]].
  - unfold NewManager. fold (new_manager (loadConfig env)).
    destruct (Validate (new_manager (loadConfig env))) as [err|] eqn:Hv.
    + split; [discriminate|]. intros (Hport & Hstart & Hblack & Htime & Hurls & Hperf).
      exfalso. assert (Hok : Validate (new_manager (loadConfig env)) = None); [|congruence].
      apply Validate_None_iff. unfold validated.
      cbn [new_manager config loadConfig Server Port Keys StartIndex BlacklistThreshold
             OpenAI RequestTimeout BaseURLs Performance MaxConcurrentRequests].
      split; [exact (proj2 (parseInteger_bound (fun p => 1 <= p <= 65535) _ 7860
                              ltac:(cbv beta; lia)) Hport)|].
      split; [exact (proj2 (parseInteger_bound (fun p => 0 <= p) _ 0
                    ltac:(cbv beta; lia)) Hstart)|].
      split; [exact (proj2 (parseInteger_bound (fun p => 1 <= p) _ 1
                    ltac:(cbv beta; lia)) Hblack)|].
      split; [exact (proj2 (parseInteger_bound (fun p => 1 <= p) _ 30
                    ltac:(cbv beta; lia)) Htime)|].
      split; [apply parseArray_nonempty; discriminate|].
      split; [exact Hurls|].
      exact (proj2 (parseInteger_bound (fun p => 1 <= p) _ 100 ltac:(cbv beta; lia)) Hperf).
    + split; [|reflexivity]. intros _.
      apply Validate_None_iff in Hv. unfold validated in Hv.
      cbn [new_manager config loadConfig Server Port Keys StartIndex BlacklistThreshold
             OpenAI RequestTimeout BaseURLs Performance MaxConcurrentRequests] in Hv.
      destruct Hv as (Hport & Hstart & Hblack & Htime & _ & Hurls & Hperf).
      split; [exact (proj1 (parseInteger_bound (fun p => 1 <= p <= 65535) _ 7860
                              ltac:(cbv beta; lia)) Hport)|].
      split; [exact (proj1 (parseInteger_bound (fun p => 0 <= p) _ 0
                    ltac:(cbv beta; lia)) Hstart)|].
      split; [exact (proj1 (parseInteger_bound (fun p => 1 <= p) _ 1
                    ltac:(cbv beta; lia)) Hblack)|].
      split; [exact (proj1 (parseInteger_bound (fun p => 1 <= p) _ 30
                    ltac:(cbv beta; lia)) Htime)|].
      split; [exact Hurls|].
      exact (proj1 (parseInteger_bound (fun p => 1 <= p) _ 100 ltac:(cbv beta; lia)) Hperf).
  - unfold NewManager. fold (new_manager (loadConfig env)).
    destruct (Validate (new_manager (loadConfig env))) as [err|]; [right; eauto | now left].
Qed.

(** ** Text that is never empty *)

Lemma getEnvOrDefault_cases (env : Env) (key d : string) :
  (os_Getenv env key = EmptyString /\ getEnvOrDefault env key d = d)
  \/ (os_Getenv env key <> EmptyString /\ getEnvOrDefault env key d = os_Getenv env key).
Proof.
  unfold getEnvOrDefault. destruct (os_Getenv env key); [left | right]; split;
    try reflexivity; discriminate.
Qed.

Lemma parseArray_entries `{Unicode} (value : string) (d : list string) :
  Forall (fun x => x <> EmptyString) d ->
  Forall (fun x => x <> EmptyString) (parseArray value d).
Proof.
  intros Hd. rewrite parseArray_eq. destruct (Strings_.is_empty value); [exact Hd|].
  destruct (List.filter _ _) as [|x xs] eqn:E; [exact Hd|]. rewrite <- E.
  apply List.Forall_forall. intros t [_ Ht]%filter_In. intros ->. discriminate Ht.
Qed.

(** X16. No text of the configuration read from the environment is empty,
    the authentication key apart: [getEnvOrDefault] returns the variable
    when it is set and not empty and the default otherwise, so the host, the
    log level, the log format and the log file path are never empty, and an
    empty HOST gives the default host; the lists of upstream URLs and of
    allowed origins, methods and headers are never empty; and no list,
    the API keys included, holds an empty entry. *)
Theorem loadConfig_has_no_empty_text `{Unicode} (env : Env) (key d : string) :
  ((os_Getenv env key = EmptyString /\ getEnvOrDefault env key d = d)
   \/ (os_Getenv env key <> EmptyString
       /\ getEnvOrDefault env key d = os_Getenv env key))
  /\ (Host (Server (loadConfig env)) <> EmptyString
      /\ Level (Log (loadConfig env)) <> EmptyString
      /\ Format (Log (loadConfig env)) <> EmptyString
      /\ FilePath (Log (loadConfig env)) <> EmptyString)
  /\ (BaseURLs (OpenAI (loadConfig env)) <> []
      /\ AllowedOrigins (CORS (loadConfig env)) <> []
      /\ AllowedMethods (CORS (loadConfig env)) <> []
      /\ AllowedHeaders (CORS (loadConfig env)) <> [])
  /\ (Forall (fun x => x <> EmptyString) (APIKeys (Keys (loadConfig env)))
      /\ Forall (fun x => x <> EmptyString) (BaseURLs (OpenAI (loadConfig env)))
      /\ Forall (fun x => x <> EmptyString) (AllowedOrigins (CORS (loadConfig env)))
      /\ Forall (fun x => x <> EmptyString) (AllowedMethods (CORS (loadConfig env)))
      /\ Forall (fun x => x <> EmptyString) (AllowedHeaders (CORS (loadConfig env))))
  /\ Host (Server (loadConfig {[ "HOST" := EmptyString ]})) = "0.0.0.0"
  /\ Host (Server (loadConfig {[ "HOST" := " " ]})) = " "
  /\ APIKeys (Keys (loadConfig {[ "API_KEYS" := "sk-1,,sk-2, " ]})) = ["sk-1"; "sk-2"].
Proof.
  assert (Hne : forall k0 d0, d0 <> EmptyString -> getEnvOrDefault env k0 d0 <> EmptyString).
  { intros k0 d0 Hd0. destruct (getEnvOrDefault_cases env k0 d0) as [[_ ->]|[Hv ->]];
      assumption. }
  split; [apply getEnvOrDefault_cases|].
  split; [repeat split; apply Hne; discriminate|].
  split; [repeat split; apply parseArray_nonempty; discriminate|].
  split; [repeat split; apply parseArray_entries; repeat constructor; discriminate|].
  repeat split; vm_compute; reflexivity.
Qed.

(** ** Concurrent callers of at most one upstream URL *)

Lemma select_quiet_one (cfg : OpenAIConfig) (u : string) :
  BaseURLs cfg = [u] -> select cfg 0 = set_BaseURL cfg u.
Proof. intros E. unfold select. rewrite E. reflexivity. Qed.

Lemma select_quiet_none (cfg : OpenAIConfig) (index : Z) :
  BaseURLs cfg = [] -> select cfg index = cfg.
Proof. intros E. unfold select. rewrite E. reflexivity. Qed.

Lemma GetOpenAIConfig_quiet (m : Manager) :
  Z.of_nat (length (BaseURLs (OpenAI (config m)))) <= 1 ->
  GetOpenAIConfig m = Some (select (OpenAI (config m)) 0, m).
Proof.
  intros Hn. destruct (BaseURLs (OpenAI (config m))) as [|u [|u' us]] eqn:E.
  - rewrite (select_quiet_none _ _ E). unfold GetOpenAIConfig. rewrite E. reflexivity.
  - rewrite (select_quiet_one _ _ E). now apply GetOpenAIConfig_one.
  - cbn [length] in Hn. lia.
Qed.

Lemma calls_quiet (k : nat) (m : Manager) :
  Z.of_nat (length (BaseURLs (OpenAI (config m)))) <= 1 ->
  calls k m = Some (repeat (select (OpenAI (config m)) 0) k, m).
Proof.
  intros Hn. induction k as [|k IH]; [reflexivity|].
  rewrite calls_S, (GetOpenAIConfig_quiet m Hn), IH. reflexivity.
Qed.

Section quiet.

Variable m0 : Manager.
Variable quotas : list nat.
Hypothesis few : Z.of_nat (length (BaseURLs (OpenAI (config m0)))) <= 1.

Lemma step_quiet_inv (q : nat) (c c' : Caller) (m' : Manager) :
  quiet_inv (OpenAI (config m0)) q c ->
  step c m0 = Some (c', m') ->
  quiet_inv (OpenAI (config m0)) q c' /\ m' = m0.
Proof.
  intros (Hobs & Hret & Hpc) Hstep. unfold step in Hstep.
  destruct (at_pc c) as [|cfg|cfg index|cfg|] eqn:Epc.
  - destruct (todo c) as [|t] eqn:Et; [discriminate|]. injection Hstep as <- <-.
    split; [|reflexivity]. unfold quiet_inv. cbn [observed returned at_pc todo].
    repeat split; auto. lia.
  - destruct Hpc as (-> & Hq & Ht). cbv zeta in Hstep.
    rewrite (proj2 (Z.ltb_ge _ _) few) in Hstep.
    destruct (BaseURLs (OpenAI (config m0))) as [|u [|u' us]] eqn:E.
    + cbn in Hstep. injection Hstep as <- <-. split; [|reflexivity].
      unfold quiet_inv. cbn [observed returned at_pc todo].
      repeat split; auto. now rewrite (select_quiet_none _ _ E).
    + cbn in Hstep. injection Hstep as <- <-. split; [|reflexivity].
      unfold quiet_inv. cbn [observed returned at_pc todo].
      repeat split; auto. now rewrite (select_quiet_one _ _ E).
    + cbn [length] in few. lia.
  - destruct Hpc.
  - destruct Hpc as (-> & Hq & Ht). injection Hstep as <- <-. split; [|reflexivity].
    unfold quiet_inv. cbn [observed returned at_pc todo]. unfold append.
    split; [exact Hobs|]. split.
    + apply Forall_app. split; [exact Hret | repeat constructor].
    + rewrite length_app. cbn [length]. lia.
  - destruct Hpc.
Qed.

Lemma run_quiet_inv (schedule : list nat) (st : System) :
  shared st = m0 /\ Forall2 (quiet_inv (OpenAI (config m0))) quotas (callers st) ->
  shared (run schedule st) = m0
  /\ Forall2 (quiet_inv (OpenAI (config m0))) quotas (callers (run schedule st)).
Proof.
  revert st. induction schedule as [|i s IH]; intros st Hst; [exact Hst|].
  cbn [run fold_left]. apply IH. destruct Hst as (Hm & Hcs). unfold sched_step.
  destruct (callers st !! i) as [c|] eqn:Hc; [|split; assumption].
  rewrite Hm. destruct (step c m0) as [[c' m']|] eqn:Hstep; [|split; assumption].
  destruct (Forall2_lookup_r _ _ _ _ _ Hcs Hc) as (q & Hq & Hinv).
  destruct (step_quiet_inv q c c' m' Hinv Hstep) as (Hinv' & ->).
  cbn [shared callers]. split; [reflexivity|]. eapply Forall2_insert_r; eauto.
Qed.

Lemma spawn_quiet_inv :
  Forall2 (quiet_inv (OpenAI (config m0))) quotas (callers (spawn m0 quotas)).
Proof.
  unfold spawn. cbn [callers]. clear few.
  induction quotas as [|q qs IH]; constructor; [|exact IH].
  unfold quiet_inv. cbn. repeat split. constructor.
Qed.

End quiet.

Lemma finished_quiet (config0 : OpenAIConfig) (quotas : list nat) (cs : list Caller) :
  Forall2 (quiet_inv config0) quotas cs ->
  Forall (fun c => todo c = 0%nat /\ at_pc c = AtEntry) cs ->
  Forall2 (fun q c => returned c = repeat (select config0 0) q) quotas cs.
Proof.
  induction 1 as [|q c qs cs (Hobs & Hret & Hpc) _ IH]; intros Hfin; [constructor|].
  inversion Hfin as [|? ? [Ht Epc] Hfin']; subst.
  constructor; [|now apply IH].
  rewrite Epc, Ht in Hpc. rewrite <- Hpc, Nat.add_0_r.
  clear -Hret. induction Hret as [|r rs -> _ IH]; [reflexivity|].
  cbn [length repeat]. now rewrite <- IH.
Qed.

Lemma concat_repeat {A} (x : A) (quotas : list nat) (ls : list (list A)) :
  Forall2 (fun q l => l = repeat x q) quotas ls ->
  concat ls = repeat x (total quotas).
Proof.
  induction 1 as [|q l qs ls -> _ IH]; [reflexivity|].
  cbn [concat]. rewrite IH. unfold total. cbn [fold_right].
  symmetry. apply repeat_app.
Qed.

(** X17. With at most one upstream URL there is no contention: whatever
    the number of callers and the interleaving of their steps, no step
    writes the shared manager, no caller touches the counter or panics, and
    every call returns the value a call on the initial manager returns.
    Once all callers are done, the values they got are exactly those the
    same number of calls in a row would have returned. *)
Theorem callers_of_a_single_upstream_share_nothing
    (m0 : Manager) (quotas schedule : list nat) :
  Z.of_nat (length (BaseURLs (OpenAI (config m0)))) <= 1 ->
  shared (run schedule (spawn m0 quotas)) = m0
  /\ Forall (fun c => observed c = []
                      /\ at_pc c <> Panicked
                      /\ Forall (fun r => GetOpenAIConfig m0 = Some (r, m0)) (returned c))
       (callers (run schedule (spawn m0 quotas)))
  /\ (finished (run schedule (spawn m0 quotas)) ->
      Forall2 (fun q c => length (returned c) = q) quotas
        (callers (run schedule (spawn m0 quotas)))
      /\ calls (total quotas) m0
         = Some (all_returned (callers (run schedule (spawn m0 quotas))), m0)).
Proof.
  intros Hn.
  destruct (run_quiet_inv m0 quotas Hn schedule (spawn m0 quotas)) as (Hm & Hcs).
  { split; [reflexivity | apply spawn_quiet_inv]. }
  split; [exact Hm|]. split.
  - apply List.Forall_forall. intros c Hc.
    apply list_elem_of_In, list_elem_of_lookup in Hc as (i & Hi).
    destruct (Forall2_lookup_r _ _ _ _ _ Hcs Hi) as (q & _ & Hobs & Hret & Hpc).
    split; [exact Hobs|]. split; [intros E; rewrite E in Hpc; exact Hpc|].
    eapply Forall_impl; [exact Hret|]. intros r ->. now apply GetOpenAIConfig_quiet.
  - intros Hfin. unfold finished in Hfin.
    pose proof (finished_quiet _ _ _ Hcs Hfin) as Hall.
    split.
    + eapply Forall2_impl; [exact Hall|]. intros q c ->. apply repeat_length.
    + rewrite (calls_quiet _ m0 Hn). f_equal. f_equal. symmetry.
      unfold all_returned. apply concat_repeat. apply Forall2_fmap_r.
      exact Hall.
Qed.

Lemma callers_of_a_single_upstream_share_nothing_witness :
  shared (run [1; 0; 0; 1; 0; 1; 0; 0; 0]%nat
            (spawn (manager_of 7860 0 120 1800 120 ["https://api.openai.com"]) [2; 1]%nat))
  = manager_of 7860 0 120 1800 120 ["https://api.openai.com"].
Proof.
  apply (callers_of_a_single_upstream_share_nothing
           (manager_of 7860 0 120 1800 120 ["https://api.openai.com"]) [2; 1]%nat
           [1; 0; 0; 1; 0; 1; 0; 0; 0]%nat).
  vm_compute. discriminate.
Defined.

Example run_single_upstream :
  let st := run [1; 0; 0; 1; 0; 1; 0; 0; 0]%nat
              (spawn (manager_of 7860 0 120 1800 120 ["https://api.openai.com"])
                 [2; 1]%nat) in
  finished st
  /\ map (map BaseURL) (map returned (callers st))
     = [["https://api.openai.com"; "https://api.openai.com"]; ["https://api.openai.com"]].
Proof. vm_compute. split; [repeat constructor | reflexivity]. Qed.

(** ** The flags *)

Lemma truthy_falsy_disjoint (x : string) : In x truthy -> In x falsy -> False.
Proof.
  unfold truthy, falsy. cbn [In]. intuition (subst; discriminate).
Qed.

Lemma parseBoolean_flips `{Unicode} (value : string) (b : bool) :
  parseBoolean value b = negb b
  <-> value <> EmptyString /\ In (strings_ToLower value) (if b then falsy else truthy).
Proof.
  rewrite parseBoolean_cases.
  destruct (Strings_.is_empty value) eqn:Ee.
  - apply is_empty_true in Ee. split; [destruct b; discriminate | tauto].
  - assert (Hne : value <> EmptyString) by (intros ->; discriminate).
    pose proof (truthy_falsy_disjoint (strings_ToLower value)) as Hdis.
    destruct (bool_decide_reflect (In (strings_ToLower value) truthy)) as [Ht|Ht];
      [|destruct (bool_decide_reflect (In (strings_ToLower value) falsy)) as [Hf|Hf]];
      destruct b; cbn [negb]; split; try tauto; try discriminate;
      intros [_ Hin]; tauto.
Qed.

Lemma lower_byte_lower (c : ascii) :
  Byte_.is_ascii c = true ->
  Byte_.is_upper (Strings_.lower_byte c) = false
  /\ Byte_.is_ascii (Strings_.lower_byte c) = true.
Proof.
  intros Ha. unfold Strings_.lower_byte.
  destruct (Byte_.is_upper c) eqn:Hu; [|split; assumption].
  unfold Byte_.is_upper, Byte_.between in Hu.
  change (Byte_.val "A") with 65 in Hu. change (Byte_.val "Z") with 90 in Hu.
  apply andb_true_iff in Hu as [H1 H2]. apply Z.leb_le in H1, H2.
  assert (Hv : Byte_.val (ascii_of_N (N_of_ascii c + 32)) = Byte_.val c + 32).
  { unfold Byte_.val in *. rewrite N_ascii_embedding by lia. lia. }
  unfold Byte_.is_upper, Byte_.is_ascii, Byte_.between. rewrite Hv.
  change (Byte_.val "A") with 65. change (Byte_.val "Z") with 90.
  split; [apply andb_false_iff; right; apply Z.leb_gt; lia | apply Z.ltb_lt; lia].
Qed.

Lemma ToLower_lower `{Unicode} (value : string) :
  Strings_.all Byte_.is_ascii value = true ->
  strings_ToLower (Strings_.map_bytes Strings_.lower_byte value) = strings_ToLower value.
Proof.
  intros Ha. rewrite (strings_ToLower_ascii value Ha).
  assert (Hl : Strings_.all Byte_.is_ascii (Strings_.map_bytes Strings_.lower_byte value) = true
               /\ Strings_.any Byte_.is_upper (Strings_.map_bytes Strings_.lower_byte value)
                  = false).
  { induction value as [|c s IH]; [split; reflexivity|].
    cbn [Strings_.all] in Ha. apply andb_true_iff in Ha as [Hc Hs].
    destruct (IH Hs) as (IH1 & IH2). destruct (lower_byte_lower c Hc) as (Hu & Hasc).
    cbn [Strings_.map_bytes Strings_.all Strings_.any]. now rewrite Hu, Hasc, IH1, IH2. }
  destruct Hl as (Hl1 & Hl2). unfold strings_ToLower. now rewrite Hl1, Hl2.
Qed.

(** X18. A flag leaves its default only for a word of the opposite sense:
    [parseBoolean] returns the opposite of its default exactly when the
    value, lowered, is one of false, 0, no, off (default true) or one of
    true, 1, yes, on (default false).  So CORS, gzip and request logging are
    on unless their variable is such a word for false, and credentials and
    the log file are off unless theirs is such a word for true; a misspelt
    value keeps the default.  On ASCII text the letter case is
    irrelevant. *)
Theorem flags_leave_their_default_on_the_opposite_word_only `{Unicode}
    (env : Env) (value : string) (b : bool) :
  (parseBoolean value b = negb b
   <-> value <> EmptyString /\ In (strings_ToLower value) (if b then falsy else truthy))
  /\ (CORSEnabled (CORS (loadConfig env)) = false
      <-> os_Getenv env "ENABLE_CORS" <> EmptyString
          /\ In (strings_ToLower (os_Getenv env "ENABLE_CORS")) falsy)
  /\ (EnableGzip (Performance (loadConfig env)) = false
      <-> os_Getenv env "ENABLE_GZIP" <> EmptyString
          /\ In (strings_ToLower (os_Getenv env "ENABLE_GZIP")) falsy)
  /\ (EnableRequest (Log (loadConfig env)) = false
      <-> os_Getenv env "LOG_ENABLE_REQUEST" <> EmptyString
          /\ In (strings_ToLower (os_Getenv env "LOG_ENABLE_REQUEST")) falsy)
  /\ (AllowCredentials (CORS (loadConfig env)) = true
      <-> os_Getenv env "ALLOW_CREDENTIALS" <> EmptyString
          /\ In (strings_ToLower (os_Getenv env "ALLOW_CREDENTIALS")) truthy)
  /\ (EnableFile (Log (loadConfig env)) = true
      <-> os_Getenv env "LOG_ENABLE_FILE" <> EmptyString
          /\ In (strings_ToLower (os_Getenv env "LOG_ENABLE_FILE")) truthy)
  /\ (Strings_.all Byte_.is_ascii value = true ->
      parseBoolean (Strings_.map_bytes Strings_.lower_byte value) b = parseBoolean value b)
  /\ CORSEnabled (CORS (loadConfig {[ "ENABLE_CORS" := "flase" ]})) = true
  /\ CORSEnabled (CORS (loadConfig {[ "ENABLE_CORS" := "OFF" ]})) = false
  /\ AllowCredentials (CORS (loadConfig {[ "ALLOW_CREDENTIALS" := "enabled" ]})) = false
  /\ AllowCredentials (CORS (loadConfig {[ "ALLOW_CREDENTIALS" := "Yes" ]})) = true.
Proof.
  split; [apply parseBoolean_flips|].
  split; [apply (parseBoolean_flips _ true)|].
  split; [apply (parseBoolean_flips _ true)|].
  split; [apply (parseBoolean_flips _ true)|].
  split; [apply (parseBoolean_flips _ false)|].
  split; [apply (parseBoolean_flips _ false)|].
  split; [|repeat split; vm_compute; reflexivity].
  intros Ha. rewrite !parseBoolean_cases, (ToLower_lower value Ha).
  destruct value; reflexivity.
Qed.
